(** * SRLP: the sand-bed river long-profile solver ([srlp.py], class [LongProfile])

    A shallow embedding of the single-segment implicit solver and of its
    configuration methods, with the properties stated about them.

    Modelling conventions.
    - A Python float is a real number ([R]); an [int] is a [Z].  The
      development therefore speaks about the formulas the code evaluates,
      not about rounding, infinities or NaN.  numpy's division does not
      raise and is the total division of the reals.  Division of Python
      floats raises ZeroDivisionError at a zero divisor: this is modelled
      where the divisor comes from a setter (n and D in
      sediment_lumped_constants, together with the other divisors of that
      expression); the divisors 1 - lambda_p, rho and sinuosity^(5/6) of
      the other methods, which hold the constants of basic_constants and
      of the constructor, are divided by as reals.  Where the code goes on
      with a value that has no counterpart among the reals (NaN stored for
      None, the complex power of a negative Python float) the modelled run
      ends in [OutsideReals].
    - A one-dimensional [ndarray] is a [list R].  Slices, negative indices,
      item assignment and broadcasting follow numpy, including the
      exceptions raised out of range.
    - The object [self] is its attribute dictionary: a finite map from
      attribute names to dynamically typed values.  An attribute that was
      never assigned is absent from the map ([AttributeError] on access).
    - [self.z = z_ext[1:-1]] makes [z] a numpy view that shares the buffer
      of [z_ext]; the model keeps it as a view ([VView]) so that in-place
      writes to [z_ext] are seen through [z].
    - Every method is a computation in a state-and-exception monad over
      [self] and a trace of the observable events (warnings issued, calls
      of the external sparse solver).
    - The numerical library is an interface ([NumPy]): the power function,
      [np.arange] and [spsolve] are taken as given.
    - Where a property is about double precision itself, the expression is
      modelled a second time on the kernel's binary64 numbers
      ([Binary64]). *)

From Stdlib Require Import Reals Lra Psatz ZArith Lia.
From Corelib Require PrimFloat.
From stdpp Require Import base option list gmap strings.

Local Open Scope string_scope.
Local Open Scope list_scope.
Local Open Scope R_scope.

(** ** Values, exceptions, events *)

Inductive value :=
| VNone                         (* None *)
| VInt (n : Z)                  (* int *)
| VNum (r : R)                  (* float *)
| VArr (a : list R)             (* ndarray owning its buffer *)
| VView (base : string)         (* ndarray view: [self.<base>[1:-1]] *)
| VMat (m : list (list R))      (* matrix, row by row *)
| VIds (ids : list Z).          (* list or array of ints *)

Inductive exn :=
| SystemExit (msg : string)     (* sys.exit(msg) *)
| AttributeError
| TypeError
| IndexError
| ValueError
| ZeroDivisionError
| OutsideReals.                 (* no exception: see the conventions above *)

Inductive result (A : Type) :=
| Ok (a : A)
| Raise (e : exn).
Arguments Ok {A} a.
Arguments Raise {A} e.

Inductive event :=
| Warn (msg : string)           (* warnings.warn(msg) *)
| SpSolve.                      (* one call of scipy's spsolve *)

Record world := World {
  self : gmap string value;
  trace : list event
}.

(** ** The external numerical library *)

Class NumPy := {
  (* x ** y on floats *)
  float_power : R → R → R;
  (* np.arange(start, stop, step); None when numpy refuses the request *)
  np_arange : R → R → R → option (list R);
  (* spsolve(A, b) for a square A and a vector b of matching size *)
  spsolve : list (list R) → list R → list R;
  spsolve_length : ∀ A b, length (spsolve A b) = length b
}.

(** ** The monad *)

Definition M (A : Type) : Type := world → result (A * world).

Definition ret {A} (a : A) : M A := λ w, Ok (a, w).

Definition bind {A B} (m : M A) (f : A → M B) : M B :=
  λ w, match m w with
       | Ok (a, w') => f a w'
       | Raise e => Raise e
       end.

#[global] Instance M_ret : MRet M := @ret.
#[global] Instance M_bind : MBind M := λ A B f m, bind m f.

Definition raise {A} (e : exn) : M A := λ _, Raise e.

Definition lift {A} (r : result A) : M A :=
  λ w, match r with Ok a => Ok (a, w) | Raise e => Raise e end.

Definition getattr (k : string) : M value :=
  λ w, match self w !! k with
       | Some v => Ok (v, w)
       | None => Raise AttributeError
       end.

Definition setattr (k : string) (v : value) : M unit :=
  λ w, Ok (tt, World (<[k := v]> (self w)) (trace w)).

Definition emit (e : event) : M unit :=
  λ w, Ok (tt, World (self w) (trace w ++ [e])).

Definition warn (msg : string) : M unit := emit (Warn msg).

(** [for _ in range(n): body] *)
Fixpoint repeat_m (n : nat) (body : M unit) : M unit :=
  match n with
  | O => ret tt
  | S n' => body;; repeat_m n' body
  end.

(** ** Arrays *)

(** a[1:-1] *)
Definition interior (a : list R) : list R := drop 1 (take (length a - 1) a).
(** a[:-1], a[:-2] *)
Definition drop_last (k : nat) (a : list R) : list R := take (length a - k) a.
(** a[2:] - a[:-2]: both slices always have the same length *)
Definition diff2 (a : list R) : list R :=
  zip_with Rminus (drop 2 a) (drop_last 2 a).
(** np.diff(a) *)
Definition np_diff (a : list R) : list R :=
  zip_with (λ lo hi, hi - lo) a (drop 1 a).

(** a[i] for i >= 0 *)
Definition item (a : list R) (i : nat) : result R :=
  match a !! i with Some v => Ok v | None => Raise IndexError end.
(** a[-k] for k >= 1 *)
Definition item_back (a : list R) (k : nat) : result R :=
  if (k <=? length a)%nat then item a (length a - k) else Raise IndexError.
(** a[i] = v *)
Definition set_item (a : list R) (i : nat) (v : R) : result (list R) :=
  if (i <? length a)%nat then Ok (<[i := v]> a) else Raise IndexError.
(** a[-k] = v *)
Definition set_item_back (a : list R) (k : nat) (v : R) : result (list R) :=
  if (k <=? length a)%nat then set_item a (length a - k) v
  else Raise IndexError.

(** Elementwise binary operation on two arrays, with numpy's broadcasting
    of a length-one operand. *)
Definition broadcast (f : R → R → R) (a b : list R) : result (list R) :=
  if (length a =? length b)%nat then Ok (zip_with f a b)
  else match a, b with
       | [x], _ => Ok (map (f x) b)
       | _, [y] => Ok (map (λ x, f x y) a)
       | _, _ => Raise ValueError
       end.

(** np.cumsum *)
Fixpoint cumsum_from (acc : R) (a : list R) : list R :=
  match a with
  | [] => []
  | x :: a' => (acc + x) :: cumsum_from (acc + x) a'
  end.
Definition np_cumsum (a : list R) : list R :=
  match a with
  | [] => []
  | x :: a' => x :: cumsum_from x a'
  end.

(** np.roll(a, -1) and np.roll(a, 1) *)
Definition roll_back (a : list R) : list R := drop 1 a ++ take 1 a.
Definition roll_fwd (a : list R) : list R :=
  drop (length a - 1) a ++ take (length a - 1) a.

(** np.ones(n) *)
Definition np_ones (n : Z) : result (list R) :=
  if (n <? 0)%Z then Raise ValueError else Ok (replicate (Z.to_nat n) 1).

(** np.sign *)
Definition np_sign (x : R) : R :=
  if Rlt_dec x 0 then -1 else if Rlt_dec 0 x then 1 else 0.

(** truth value of a float *)
Definition truthy (x : R) : bool := if Req_dec_T x 0 then false else true.
(** a.any() *)
Definition np_any (a : list R) : bool := existsb truthy a.


(** np.vstack((r0, r1, r2)) of one-dimensional rows *)
Definition np_vstack3 (r0 r1 r2 : list R) : result (list (list R)) :=
  if ((length r0 =? length r1) && (length r1 =? length r2))%nat
  then Ok [r0; r1; r2] else Raise ValueError.

(** spdiags(data, offsets, m, n): entry (i, j) is data[k][j] for the k with
    offsets[k] = j - i, and 0 elsewhere. *)
Definition band_entry (data : list (list R)) (offsets : list Z)
    (i j : nat) : R :=
  foldr (λ '(k, row) acc,
           if (k =? Z.of_nat j - Z.of_nat i)%Z then nth j row 0 else acc)
        0 (zip offsets data).
Definition spdiags (data : list (list R)) (offsets : list Z)
    (m n : nat) : list (list R) :=
  map (λ i, map (band_entry data offsets i) (seq 0 n)) (seq 0 m).

(** ** Dynamic typing of attributes *)

(** v is None *)
Definition is_none (v : value) : bool :=
  match v with
  | VNone => true
  | _ => false
  end.

Definition as_num (v : value) : result R :=
  match v with
  | VNum r => Ok r
  | VInt n => Ok (IZR n)
  | _ => Raise TypeError
  end.

Definition as_int (v : value) : result Z :=
  match v with
  | VInt n => Ok n
  | _ => Raise TypeError
  end.

Definition as_ids (v : value) : result (list Z) :=
  match v with
  | VIds l => Ok l
  | _ => Raise TypeError
  end.

Definition as_mat (v : value) : result (list (list R)) :=
  match v with
  | VMat m => Ok m
  | _ => Raise TypeError
  end.

(** self.<k> used as a number *)
Definition get_num (k : string) : M R := v ← getattr k; lift (as_num v).
Definition get_int (k : string) : M Z := v ← getattr k; lift (as_int v).
Definition get_ids (k : string) : M (list Z) :=
  v ← getattr k; lift (as_ids v).

(** self.<k> used as an array.  [on_none] is the exception raised when the
    attribute holds None: TypeError for subscripting and arithmetic,
    AttributeError for a method call such as [.any()] or [.copy()]. *)
Definition get_arr_or (on_none : exn) (k : string) : M (list R) :=
  v ← getattr k;
  match v with
  | VArr a => ret a
  | VView base =>
      b ← getattr base;
      match b with
      | VArr a => ret (interior a)
      | _ => raise TypeError
      end
  | VNone => raise on_none
  | _ => raise TypeError
  end.
Definition get_arr : string → M (list R) := get_arr_or TypeError.
Definition get_arr_obj : string → M (list R) := get_arr_or AttributeError.

(** self.<k>[i], self.<k>[-j] *)
Definition get_item (k : string) (i : nat) : M R :=
  a ← get_arr k; lift (item a i).
Definition get_item_back (k : string) (j : nat) : M R :=
  a ← get_arr k; lift (item_back a j).

(** self.<k>[i] = v and self.<k>[-j] = v on an array that owns its buffer *)
Definition store_item (k : string) (i : nat) (v : R) : M unit :=
  c ← getattr k;
  match c with
  | VArr a => a' ← lift (set_item a i v); setattr k (VArr a')
  | _ => raise TypeError
  end.
Definition store_item_back (k : string) (j : nat) (v : R) : M unit :=
  c ← getattr k;
  match c with
  | VArr a => a' ← lift (set_item_back a j v); setattr k (VArr a')
  | _ => raise TypeError
  end.

(** ** Double precision

    The divisor of set_Qs_input_upstream on IEEE binary64 numbers, which is
    what a Python float and a numpy float64 are. *)

Module Binary64.
Import PrimFloat.

(** self.k_Qs * self.intermittency * np.abs(self.Q[0]) *)
Definition Qs_divisor (k_Qs intermittency Q0 : float) : float :=
  (k_Qs * intermittency * abs Q0)%float.

(** np.abs(Q_s_0) / (self.k_Qs * self.intermittency * np.abs(self.Q[0])) *)
Definition supply_ratio (Q_s_0 k_Qs intermittency Q0 : float) : float :=
  (abs Q_s_0 / Qs_divisor k_Qs intermittency Q0)%float.

(** x != 0 *)
Definition nonzero (x : float) : bool := negb (x =? 0)%float.

(** 2.0**-600 *)
Definition two_pow_minus_600 : float := 0x1p-600%float.

End Binary64.

(** ** The constructor *)

Definition init : gmap string value :=
  list_to_map
    [ ("z", VNone); ("x", VNone); ("A", VNone); ("Q", VNone); ("B", VNone);
      ("D", VNone); ("b", VNone); ("h", VNone); ("S0", VNone);
      ("dx_ext", VNone); ("dx_2cell", VNone); ("Q_s_0", VNone);
      ("z_bl", VNone); ("ssd", VNum 0); ("sinuosity", VNum 1);
      ("intermittency", VNum 1); ("t", VInt 0);
      ("upstream_segment_IDs", VIds []);
      ("downstream_segment_IDs", VIds []); ("ID", VNone);
      ("downstream_fining_subsidence_equivalent", VNum 0);
      ("tau_crit_bank", VNone); ("C_f", VNone); ("n", VNone) ].

Definition fresh : world := World init [].

Section LongProfile.
Context `{NumPy}.

(** ** Upstream sediment-supply boundary condition *)

Definition set_Qs_input_upstream (Q_s_0 : R) : M unit :=
  setattr "Q_s_0" (VNum Q_s_0);;
  Q0 ← get_item "Q" 0;
  sinuosity ← get_num "sinuosity";
  k_Qs ← get_num "k_Qs";
  intermittency ← get_num "intermittency";
  Q0' ← get_item "Q" 0;
  setattr "S0" (VNum (- np_sign Q0 * sinuosity *
      float_power (Rabs Q_s_0 / (k_Qs * intermittency * Rabs Q0')) (6/5)));;
  z0 ← get_item "z" 0;
  S0 ← get_num "S0";
  dx0 ← get_item "dx_ext" 0;
  store_item "z_ext" 0 (z0 - S0 * dx0).

Definition update_z_ext_0 : M unit :=
  z0 ← get_item "z" 0;
  S0 ← get_num "S0";
  dx0 ← get_item "dx_ext" 0;
  store_item "z_ext" 0 (z0 - S0 * dx0).

(** ** Constants and scalar setters *)


Definition set_intermittency (I : R) : M unit :=
  setattr "intermittency" (VNum I).
Definition set_source_sink_distributed (ssd : R) : M unit :=
  setattr "ssd" (VNum ssd).
Definition set_upstream_segment_IDs (ids : list Z) : M unit :=
  setattr "upstream_segment_IDs" (VIds ids).
Definition set_downstream_segment_IDs (ids : list Z) : M unit :=
  setattr "downstream_segment_IDs" (VIds ids).

(** x ** y on Python floats, for an exponent y > 0 that is not a whole
    number: the power of a negative x is a complex number. *)
Definition py_pow (x y : R) : result R :=
  if Rlt_dec x 0 then Raise OutsideReals else Ok (float_power x y).


(** ** The grid *)

(** self.x.any() and self.x_ext.any() *)
Definition grid_any : M bool :=
  x ← get_arr_obj "x";
  if np_any x then x_ext ← get_arr_obj "x_ext"; mret (np_any x_ext)
  else mret false.

(** The x_ext argument of set_x: [self.x = x_ext[1:-1]] slices the
    argument itself, so that a list leaves a list in self.x, whose slices
    cannot be subtracted ([self.x[2:] - self.x[:-2]] raises TypeError). *)
Inductive array_like :=
| PyList (l : list R)           (* a list of floats *)
| NdArray (a : list R).         (* an ndarray *)

Definition set_x (x : option (list R)) (x_ext : option array_like)
    (dx : option R) (nx : option Z) (x0 : option R) : M unit :=
  match x, x_ext, dx, nx, x0 with
  | Some x, _, _, _, _ =>
      setattr "x" (VArr x);;
      setattr "dx" (VArr (np_diff x));;
      setattr "dx_2cell" (VArr (diff2 x))
  | None, Some (NdArray x_ext), _, _, _ =>
      setattr "x_ext" (VArr x_ext);;
      setattr "x" (VArr (interior x_ext));;
      setattr "dx_ext" (VArr (np_diff x_ext));;
      setattr "dx_ext_2cell" (VArr (diff2 x_ext));;
      setattr "dx_2cell" (VArr (diff2 (interior x_ext)));;
      setattr "dx" (VArr (np_diff (interior x_ext)))
  | None, Some (PyList x_ext), _, _, _ =>
      setattr "x_ext" (VArr x_ext);;
      (* self.x is now the list x_ext[1:-1] *)
      setattr "dx_ext" (VArr (np_diff x_ext));;
      setattr "dx_ext_2cell" (VArr (diff2 x_ext));;
      (* self.dx_2cell = self.x[2:] - self.x[:-2] *)
      raise TypeError
  | None, None, Some dx, Some nx, Some x0 =>
      match np_arange x0 (x0 + dx * IZR nx) dx with
      | None => raise ValueError
      | Some xs =>
          setattr "x" (VArr xs);;
          match np_arange (x0 - dx) (x0 + dx * IZR (nx + 1)) dx with
          | None => raise ValueError
          | Some xe =>
              setattr "x_ext" (VArr xe);;
              o1 ← lift (np_ones (Z.of_nat (length xs) - 1));
              setattr "dx" (VArr (map (Rmult dx) o1));;
              o2 ← lift (np_ones (Z.of_nat (length xs) + 1));
              setattr "dx_ext" (VArr (map (Rmult dx) o2));;
              o3 ← lift (np_ones (Z.of_nat (length xs) - 1));
              setattr "dx_2cell" (VArr o3);;
              setattr "dx_ext_2cell" (VArr (diff2 xe))
          end
      end
  | _, _, _, _, _ => raise (SystemExit "Need x OR x_ext OR (dx, nx, x0)")
  end;;
  xs ← get_arr "x";
  setattr "nx" (VInt (Z.of_nat (length xs)));;
  hi ← get_item_back "x_ext" 1;
  lo ← get_item "x_ext" 0;
  setattr "L" (VNum (hi - lo));;
  match nx with
  | Some nx =>
      self_nx ← get_int "nx";
      if (nx =? self_nx)%Z then mret tt
      else warn "Choosing x length instead of supplied nx"
  | None => mret tt
  end.

(** ** The fields *)

(** np.hstack((2*a[0]-a[1], a, 2*a[-1]-a[-2])) *)
Definition pad_ghosts (a : list R) : result (list R) :=
  match item a 0, item a 1 with
  | Ok a0, Ok a1 =>
      match item_back a 1, item_back a 2 with
      | Ok b1, Ok b2 => Ok ([2 * a0 - a1] ++ a ++ [2 * b1 - b2])
      | _, _ => Raise IndexError
      end
  | _, _ => Raise IndexError
  end.

Definition set_z (z z_ext : option (list R)) (S0 : option R) (z1 : R)
    : M unit :=
  match z, z_ext with
  | Some z, _ =>
      setattr "z" (VArr z);;
      ze ← lift (pad_ghosts z);
      setattr "z_ext" (VArr ze)
  | None, Some z_ext =>
      setattr "z_ext" (VArr z_ext);;
      setattr "z" (VView "z_ext")
  | None, None =>
      g ← grid_any;
      match g, S0 with
      | true, Some S0 =>
          x ← get_arr "x"; x' ← get_item_back "x" 1;
          setattr "z" (VArr (map (λ xi, xi * S0 + (z1 - x' * S0)) x));;
          xe ← get_arr "x_ext"; x'' ← get_item_back "x" 1;
          setattr "z_ext" (VArr (map (λ xi, xi * S0 + (z1 - x'' * S0)) xe))
      | _, _ => raise (SystemExit "Error defining variable")
      end
  end.

Definition set_A (A A_ext : option (list R)) (k_xA P_xA : option R)
    : M unit :=
  match A, A_ext with
  | Some A, _ =>
      setattr "A" (VArr A);;
      Ae ← lift (pad_ghosts A);
      setattr "A_ext" (VArr Ae)
  | None, Some A_ext =>
      setattr "A_ext" (VArr A_ext);;
      setattr "A" (VView "A_ext")
  | None, None =>
      g ← grid_any;
      if (g : bool) then
        setattr "k_xA" (from_option VNum VNone k_xA);;
        match P_xA with
        | Some p => if truthy p then setattr "P_xA" (VNum p) else mret tt
        | None => mret tt
        end;;
        kv ← getattr "k_xA"; xe ← get_arr "x_ext"; p ← get_num "P_xA";
        k ← lift (as_num kv);
        setattr "A_ext" (VArr (map (λ xi, k * float_power xi p) xe));;
        kv' ← getattr "k_xA"; x ← get_arr "x"; p' ← get_num "P_xA";
        k' ← lift (as_num kv');
        setattr "A" (VArr (map (λ xi, k' * float_power xi p') x))
      else raise (SystemExit "Error defining variable")
  end.

(** The discharge argument of set_Q: a scalar or an array. *)
Inductive scalar_or_array :=
| Scalar (q : R)
| Array (a : list R).

(** truth value of an optional float argument *)
Definition given_nonzero (o : option R) : bool :=
  match o with
  | Some r => truthy r
  | None => false
  end.

(** The first part of set_Q: sets self.Q (and the exponents passed along)
    and returns the local ghost-padded array Q_ext. *)
Definition set_Q_fields (Q : option scalar_or_array) (Q_ext : option (list R))
    (q_R A_R P_AQ k_xQ P_xQ : option R) : M (list R) :=
  match k_xQ with
  | Some k => setattr "k_xQ" (VNum k)
  | None => mret tt
  end;;
  match Q, Q_ext with
  | Some Q, _ =>
      match Q with
      | Array a => setattr "Q" (VArr a)
      | Scalar q =>
          x ← get_arr_obj "x";
          setattr "Q" (VArr (map (Rmult q) (replicate (length x) 1)))
      end;;
      q ← get_arr "Q";
      lift (pad_ghosts q)
  | None, Some Q_ext =>
      setattr "Q" (VArr (interior Q_ext));;
      mret Q_ext
  | None, None =>
      if given_nonzero q_R && given_nonzero A_R then
        match P_AQ with
        | Some p => if truthy p then setattr "P_AQ" (VNum p) else mret tt
        | None => mret tt
        end;;
        let q_R := default 0 q_R / 3600 in
        let A_R := default 0 A_R in
        Ae ← get_arr "A_ext";
        p ← get_num "P_AQ";
        let Qe := map (λ a, q_R * Rmin A_R a
                              * float_power (a / Rmin A_R a) p) Ae in
        setattr "Q" (VArr (interior Qe));;
        mret Qe
      else
        g ← grid_any;
        if g && given_nonzero k_xQ && given_nonzero P_xQ then
          let k := default 0 k_xQ in
          let p := default 0 P_xQ in
          x ← get_arr "x";
          setattr "Q" (VArr (map (λ xi, k * float_power xi p) x));;
          xe ← get_arr "x_ext";
          mret (map (λ xi, k * float_power xi p) xe)
        else raise (SystemExit "Error defining variable")
  end.

(** truth value of self.Q_s_0 *)
Definition Q_s_0_set : M bool :=
  v ← getattr "Q_s_0";
  match v with
  | VNone => mret false
  | VNum r => mret (truthy r)
  | VInt n => mret (negb (n =? 0)%Z)
  | _ => raise ValueError
  end.

Definition set_Q (Q : option scalar_or_array) (Q_ext : option (list R))
    (q_R A_R P_AQ k_xQ P_xQ : option R) (update_Qs_input : bool) : M unit :=
  Qe ← set_Q_fields Q Q_ext q_R A_R P_AQ k_xQ P_xQ;
  setattr "dQ" (VArr (diff2 Qe));;
  if update_Qs_input then
    b ← Q_s_0_set;
    if (b : bool) then Qs ← get_num "Q_s_0"; set_Qs_input_upstream Qs
    else mret tt
  else mret tt.

Definition set_B (B : option scalar_or_array) (k_xB P_xB : option R)
    : M unit :=
  match B with
  | Some (Array a) => setattr "B" (VArr a)
  | Some (Scalar b) =>
      x ← get_arr_obj "x";
      setattr "B" (VArr (map (Rmult b) (replicate (length x) 1)))
  | None =>
      if given_nonzero k_xB then
        g ← grid_any;
        if (g : bool) then
          let k := default 0 k_xB in
          x ← get_arr "x";
          match P_xB with
          | Some p =>
              setattr "B" (VArr (map (λ xi, k * float_power xi p) x));;
              setattr "k_xB" (VNum k);;
              setattr "P_xB" (VNum p)
          | None => raise TypeError
          end
        else mret tt
      else mret tt
  end.

(** ** Downstream base level *)

Definition set_z_bl (z_bl : R) : M unit :=
  setattr "z_bl" (VNum z_bl);;
  v ← get_num "z_bl";
  store_item_back "z_ext" 1 v.

(** ** Coefficients *)

Definition build_LHS_coeff_C0 (dt : R) : M unit :=
  setattr "dt" (VNum dt);;
  k_Qs ← get_num "k_Qs";
  intermittency ← get_num "intermittency";
  lambda_p ← get_num "lambda_p";
  sinuosity ← get_num "sinuosity";
  dt' ← get_num "dt";
  dx2 ← get_arr "dx_ext_2cell";
  setattr "C0" (VArr (map (λ d,
    k_Qs * intermittency / ((1 - lambda_p) * float_power sinuosity (5/6))
    * dt' / d) dx2)).

(** len(self.<k>) > 0 for a list of neighbour identifiers *)
Definition has_neighbours (k : string) : M bool :=
  ids ← get_ids k; mret (negb (length ids =? 0)%nat).

(** The one-sided coefficient at a junction with a neighbouring segment:
    C0 * (np.abs(z_a - z_b) / dx)**(-1/6.) * Q / B *)
Definition one_sided_C1 (c0 za zb d q b : R) : R :=
  c0 * float_power (Rabs (za - zb) / d) (-1/6) * q / b.

Definition compute_coefficient_time_varying : M unit :=
  S0 ← getattr "S0";
  (if is_none S0 then mret tt else update_z_ext_0);;
  ze ← get_arr "z_ext";
  dx2 ← get_arr "dx_ext_2cell";
  slope ← lift (broadcast Rdiv (diff2 ze) dx2);
  setattr "dzdx_0_16" (VArr (map (λ s, float_power (Rabs s) (-1/6)) slope));;
  C0 ← get_arr "C0"; dz ← get_arr "dzdx_0_16";
  c ← lift (broadcast Rmult C0 dz);
  Q ← get_arr "Q";
  cq ← lift (broadcast Rmult c Q);
  B ← get_arr "B";
  C1 ← lift (broadcast Rdiv cq B);
  setattr "C1" (VArr C1);;
  down ← has_neighbours "downstream_segment_IDs";
  (if (down : bool) then
     c0 ← get_item_back "C0" 1;
     za ← get_item_back "z_ext" 2; zb ← get_item_back "z_ext" 1;
     d ← get_item_back "dx" 1;
     q ← get_item_back "Q" 1; b ← get_item_back "B" 1;
     store_item_back "C1" 1 (one_sided_C1 c0 za zb d q b)
   else mret tt);;
  up ← has_neighbours "upstream_segment_IDs";
  (if (up : bool) then
     c0 ← get_item "C0" 0;
     za ← get_item "z_ext" 1; zb ← get_item "z_ext" 0;
     d ← get_item "dx" 0;
     q ← get_item "Q" 0; b ← get_item "B" 0;
     store_item "C1" 0 (one_sided_C1 c0 za zb d q b)
   else mret tt).

(** ** Boundary rows *)

Definition set_bcr_Dirichlet : M unit :=
  z_bl ← get_num "z_bl";
  c ← get_item_back "C1" 1;
  d2 ← get_item_back "dx_ext" 2;
  d1 ← get_item_back "dx_ext" 1;
  dq ← get_item_back "dQ" 1;
  q ← get_item_back "Q" 1;
  setattr "bcr" (VNum (z_bl * (c * 5 / 3 * (1 / d2 + 1 / d1) / 2 + dq / q))).

Definition set_bcl_Neumann_RHS : M unit :=
  w2 ← get_item "dx_ext_2cell" 0;
  S0 ← get_num "S0";
  c ← get_item "C1" 0;
  d0 ← get_item "dx_ext" 0;
  dq ← get_item "dQ" 0;
  q ← get_item "Q" 0;
  w2' ← get_item "dx_ext_2cell" 0;
  setattr "bcl" (VNum (w2 * S0 * - c * (5 / 3 / d0 - dq / q / w2'))).

Definition set_bcl_Neumann_LHS : M unit :=
  c ← get_item "C1" 0;
  d0 ← get_item "dx_ext" 0;
  d1 ← get_item "dx_ext" 1;
  store_item "right" 0 (- c * 5 / 3 * (1 / d0 + 1 / d1)).

(** ** Assembly *)

Definition build_matrices : M unit :=
  compute_coefficient_time_varying;;
  (* left *)
  C1 ← get_arr "C1"; dxe ← get_arr "dx_ext";
  dQ ← get_arr "dQ"; Q ← get_arr "Q"; dx2 ← get_arr "dx_ext_2cell";
  g ← lift (broadcast Rdiv dQ Q);
  g ← lift (broadcast Rdiv g dx2);
  l ← lift (broadcast Rminus (map (λ d, 5 / 3 / d) (drop_last 1 dxe)) g);
  l ← lift (broadcast Rmult (map Ropp C1) l);
  setattr "left" (VArr l);;
  (* center *)
  C1 ← get_arr "C1"; dxe ← get_arr "dx_ext";
  c ← lift (broadcast Rminus (map (λ d, -1 / d) (drop_last 1 dxe))
                             (map (λ d, 1 / d) (drop 1 dxe)));
  c ← lift (broadcast Rmult (map Ropp C1) (map (Rmult (5 / 3)) c));
  setattr "center" (VArr (map (λ v, v + 1) c));;
  (* right *)
  C1 ← get_arr "C1"; dxe ← get_arr "dx_ext";
  dQ ← get_arr "dQ"; Q ← get_arr "Q"; dx2 ← get_arr "dx_ext_2cell";
  g ← lift (broadcast Rdiv dQ Q);
  g ← lift (broadcast Rdiv g dx2);
  r ← lift (broadcast Rplus (map (λ d, 5 / 3 / d) (drop 1 dxe)) g);
  r ← lift (broadcast Rmult (map Ropp C1) r);
  setattr "right" (VArr r);;
  (* boundary conditions at the edges of the network *)
  up ← has_neighbours "upstream_segment_IDs";
  (if (up : bool) then setattr "bcl" (VNum 0)
   else set_bcl_Neumann_LHS;; set_bcl_Neumann_RHS);;
  down ← has_neighbours "downstream_segment_IDs";
  (if (down : bool) then setattr "bcr" (VNum 0)
   else set_bcr_Dirichlet);;
  l ← get_arr "left"; setattr "left" (VArr (roll_back l));;
  r ← get_arr "right"; setattr "right" (VArr (roll_fwd r));;
  l ← get_arr "left"; c ← get_arr "center"; r ← get_arr "right";
  d ← lift (np_vstack3 l c r);
  setattr "diagonals" (VMat d);;
  setattr "offsets" (VIds [(-1)%Z; 0%Z; 1%Z]);;
  offsets ← get_ids "offsets";
  z ← get_arr "z";
  setattr "LHSmatrix" (VMat (spdiags d offsets (length z) (length z)));;
  (* right-hand side *)
  bcl ← get_num "bcl"; z0 ← get_item "z" 0;
  z ← get_arr "z";
  bcr ← get_num "bcr"; z' ← get_item_back "z" 1;
  ssd ← get_num "ssd"; dt ← get_num "dt";
  dfse ← get_num "downstream_fining_subsidence_equivalent";
  dt' ← get_num "dt";
  U ← get_num "U"; dt'' ← get_num "dt";
  setattr "RHS" (VArr (map (λ v, v + ssd * dt + dfse * dt' + U * dt'')
                          ([bcl + z0] ++ interior z ++ [bcr + z']))).

(** ** Time stepping *)

(** self.z_ext[1:-1] = v, with numpy's broadcasting of a length-one v *)
Definition assign_interior (a v : list R) : result (list R) :=
  let n := length (interior a) in
  if (length v =? n)%nat then Ok (take 1 a ++ v ++ drop (1 + n) a)
  else match v with
       | [c] => Ok (take 1 a ++ replicate n c ++ drop (1 + n) a)
       | _ => Raise ValueError
       end.

(** One pass of the inner loop: assemble, solve, store the solution. *)
Definition sweep : M unit :=
  build_matrices;;
  A ← (v ← getattr "LHSmatrix"; lift (as_mat v));
  b ← get_arr "RHS";
  (if (length A =? length b)%nat then mret tt else raise ValueError);;
  emit SpSolve;;
  ze ← (c ← getattr "z_ext";
        match c with VArr a => mret a | _ => raise TypeError end);
  ze' ← lift (assign_interior ze (spsolve A b));
  setattr "z_ext" (VArr ze').

(** One pass of the outer loop. *)
Definition outer_step : M unit :=
  z ← get_arr_obj "z";
  setattr "zold" (VArr z);;
  niter ← get_int "niter";
  repeat_m (Z.to_nat niter) sweep;;
  t ← get_num "t"; dt ← get_num "dt";
  setattr "t" (VNum (t + dt));;
  ze ← get_arr "z_ext";
  setattr "z" (VArr (interior ze));;
  z ← get_arr "z"; zold ← get_arr "zold"; dt ← get_num "dt";
  d ← lift (broadcast Rminus z zold);
  setattr "dz_dt" (VArr (map (λ v, v / dt) d));;
  lambda_p ← get_num "lambda_p"; dz_dt ← get_arr "dz_dt";
  B ← get_arr "B";
  f ← lift (broadcast Rmult
              (map (Rmult (1 / (1 - lambda_p))) (np_cumsum dz_dt)) B);
  Q_s_0 ← get_num "Q_s_0";
  setattr "Qs_internal" (VArr (map (λ v, v + Q_s_0) f));;
  S0 ← getattr "S0";
  if is_none S0 then mret tt else update_z_ext_0.

Definition unset_boundary_warning : string :=
  "Unset boundary conditions for river segment" +:+ "in network." +:+
  String (Ascii.ascii_of_nat 10) "Local solution on segment will not be sensible.".

(** [self.set_z_bl(self.z_bl)] with z_bl still None stores NaN in the
    ghost node z_ext[-1]. *)
Definition evolve_threshold_width_river (nt : Z) (dt : R) : M unit :=
  up ← has_neighbours "upstream_segment_IDs";
  in_network ← (if (up : bool) then mret true
                else has_neighbours "downstream_segment_IDs");
  (if (in_network : bool) then warn unset_boundary_warning else mret tt);;
  setattr "nt" (VInt nt);;
  build_LHS_coeff_C0 dt;;
  z_bl ← getattr "z_bl";
  (if is_none z_bl then
     _ ← get_item_back "z_ext" 1; raise OutsideReals
   else
     z_bl ← lift (as_num z_bl); set_z_bl z_bl);;
  nt' ← get_int "nt";
  repeat_m (Z.to_nat nt') outer_step.

(** ** Hydrologic exponents *)

Definition set_hydrologic_constants (P_xA P_AQ : R) (P_xQ : option R)
    : M unit :=
  setattr "P_xA" (VNum P_xA);;
  setattr "P_AQ" (VNum P_AQ);;
  if given_nonzero P_xQ then
    warn "P_xQ may be inconsistent with P_xA and P_AQ";;
    setattr "P_xQ" (VNum (default 0 P_xQ))
  else
    setattr "P_xQ" (VNum (P_xA * P_AQ)).

(** ** Diagnostics *)

Definition compute_Q_s : M unit :=
  ze ← get_arr "z_ext";
  dx2 ← get_arr "dx_ext_2cell";
  slope ← lift (broadcast Rdiv (diff2 ze) dx2);
  sinuosity ← get_num "sinuosity";
  setattr "S" (VArr (map (λ s, Rabs s / sinuosity) slope));;
  ze' ← get_arr "z_ext";
  k_Qs ← get_num "k_Qs";
  intermittency ← get_num "intermittency";
  Q ← get_arr "Q";
  f ← lift (broadcast Rmult
              (map (λ d, - np_sign d * k_Qs * intermittency) (diff2 ze')) Q);
  S ← get_arr "S";
  Q_s ← lift (broadcast Rmult f (map (λ s, float_power s (5/6)) S));
  setattr "Q_s" (VArr Q_s).

Definition compute_flow_depth : M unit :=
  D ← getattr "D";
  if is_none D then raise ValueError
  else
    rho_s ← get_num "rho_s"; rho ← get_num "rho"; rho' ← get_num "rho";
    epsilon ← get_num "epsilon";
    tau_star_c ← get_num "tau_star_c";
    D ← get_num "D";
    S ← get_arr "S";
    setattr "h" (VArr (map (λ s,
      (rho_s - rho) / rho' * (1 + epsilon) * tau_star_c * D / s) S)).

(** ** The analytical profile *)

(** an optional argument, or the default computed from self *)
Definition or_else (o : option R) (dflt : M R) : M R :=
  match o with
  | Some v => mret v
  | None => dflt
  end.

Definition analytical_threshold_width (P_xQ x0 x1 z0 z1 : option R)
    : M (list R) :=
  x0 ← or_else x0 (get_item "x" 0);
  x1 ← or_else x1 (get_item_back "x" 1);
  z0 ← or_else z0 (get_item "z" 0);
  z1 ← or_else z1 (get_item_back "z" 1);
  P_xQ ← or_else P_xQ (get_num "P_xQ");
  setattr "P_a" (VNum (1 - 6 * P_xQ / 5));;
  P_a ← get_num "P_a";
  setattr "k_a" (VNum
    (1 / (float_power x1 P_a - float_power x0 P_a) * (z1 - z0)));;
  setattr "c_a" (VNum
    (z0 - float_power x0 P_a / (float_power x1 P_a - float_power x0 P_a)
          * (z1 - z0)));;
  k_a ← get_num "k_a"; x ← get_arr "x"; P_a' ← get_num "P_a";
  c_a ← get_num "c_a";
  setattr "zanalytical"
    (VArr (map (λ xi, k_a * float_power xi P_a' + c_a) x));;
  get_arr "zanalytical".

(** ** examples/Simple_Qs_example_single_channel.py

    The calls that the script makes on its LongProfile object, with the
    numbers of the script gathered in a record. *)







End LongProfile.

(** * Vocabulary of the statements *)

(** The array an attribute denotes, views resolved. *)
Definition arr_of (m : gmap string value) (k : string) : option (list R) :=
  match m !! k with
  | Some (VArr a) => Some a
  | Some (VView base) =>
      match m !! base with
      | Some (VArr a) => Some (interior a)
      | _ => None
      end
  | _ => None
  end.

(** The number an attribute denotes. *)
Definition num_of (m : gmap string value) (k : string) : option R :=
  match m !! k with
  | Some (VNum r) => Some r
  | Some (VInt n) => Some (IZR n)
  | _ => None
  end.

(** self.z denotes the array [a]: it owns it, or it is the view
    z_ext[1:-1] of the current ghost-padded array. *)
Definition z_is (m : gmap string value) (a : list R) : Prop :=
  m !! "z" = Some (VArr a) ∨
  (m !! "z" = Some (VView "z_ext") ∧
   ∃ ze, m !! "z_ext" = Some (VArr ze) ∧ a = interior ze).

(** An attribute holds an array of the given length, or a number. *)
Definition has_arr (m : gmap string value) (k : string) (n : nat) : Prop :=
  ∃ a, m !! k = Some (VArr a) ∧ length a = n.

Definition has_num (m : gmap string value) (k : string) : Prop :=
  ∃ r, num_of m k = Some r.

(** A segment with [n] interior nodes that is ready for
    evolve_threshold_width_river: the grid, the fields, the constants and the
    boundary values are set, with arrays of matching lengths.  The slope S0
    may be left unset only on a segment with upstream neighbours. *)
Record configured (n : nat) (m : gmap string value) : Prop := {
  cfg_size : (2 ≤ n)%nat;
  cfg_z_ext : has_arr m "z_ext" (n + 2);
  cfg_z : ∃ z, z_is m z ∧ length z = n;
  cfg_Q : has_arr m "Q" n;
  cfg_B : has_arr m "B" n;
  cfg_dQ : has_arr m "dQ" n;
  cfg_dx : has_arr m "dx" (n - 1);
  cfg_dx_ext : has_arr m "dx_ext" (n + 1);
  cfg_dx_ext_2cell : has_arr m "dx_ext_2cell" n;
  cfg_k_Qs : has_num m "k_Qs";
  cfg_intermittency : has_num m "intermittency";
  cfg_sinuosity : has_num m "sinuosity";
  cfg_lambda_p : has_num m "lambda_p";
  cfg_z_bl : has_num m "z_bl";
  cfg_Q_s_0 : has_num m "Q_s_0";
  cfg_t : has_num m "t";
  cfg_ssd : has_num m "ssd";
  cfg_dfse : has_num m "downstream_fining_subsidence_equivalent";
  cfg_U : has_num m "U";
  cfg_niter : ∃ k, m !! "niter" = Some (VInt k);
  cfg_up : ∃ l, m !! "upstream_segment_IDs" = Some (VIds l);
  cfg_down : ∃ l, m !! "downstream_segment_IDs" = Some (VIds l);
  cfg_S0 : has_num m "S0" ∨
           (m !! "S0" = Some VNone ∧
            m !! "upstream_segment_IDs" ≠ Some (VIds []))
}.

(** The state of [configured] once build_LHS_coeff_C0 has run. *)
Definition prepared (n : nat) (m : gmap string value) : Prop :=
  configured n m ∧ has_arr m "C0" n ∧ has_num m "dt".

(** A method run from [w] to [w'] assigns only the attributes in [ks]. *)
Definition modifies (ks : list string) (w w' : world) : Prop :=
  ∀ k, k ∉ ks → self w' !! k = self w !! k.

(** The attributes that one assembly sweep assigns. *)
Definition scratch : list string :=
  ["z_ext"; "dzdx_0_16"; "C1"; "left"; "center"; "right"; "bcl"; "bcr";
   "diagonals"; "offsets"; "LHSmatrix"; "RHS"].

(** The attributes [configured] speaks about, z_ext apart. *)
Definition config_keys : list string :=
  ["z"; "Q"; "B"; "dQ"; "dx"; "dx_ext"; "dx_ext_2cell"; "k_Qs";
   "intermittency"; "sinuosity"; "lambda_p"; "z_bl"; "Q_s_0"; "t"; "ssd";
   "downstream_fining_subsidence_equivalent"; "U"; "niter";
   "upstream_segment_IDs"; "downstream_segment_IDs"; "S0"].

(** Disjointness of two lists of attribute names, as a computation. *)
Definition disjointb (ks ks' : list string) : bool :=
  forallb (λ k, negb (bool_decide (k ∈ ks'))) ks.

(** The attributes that one outer step assigns. *)
Definition step_keys : list string :=
  scratch ++ ["zold"; "t"; "z"; "dz_dt"; "Qs_internal"].

(** The events of one call of evolve_threshold_width_river. *)
Definition evolve_events (up down : list Z) (nt niter : Z) : list event :=
  (match up, down with
   | [], [] => []
   | _, _ => [Warn unset_boundary_warning]
   end)
  ++ replicate (Z.to_nat nt * Z.to_nat niter) SpSolve.

(** The sum of a list of reals. *)
Definition Rsum (a : list R) : R := foldr Rplus 0 a.

(** The number of calls of the solver in a trace. *)
Definition solver_calls (tr : list event) : nat :=
  length (List.filter (λ e, match e with SpSolve => true | _ => false end) tr).

(** A computation that never ends in sys.exit. *)
Definition no_exit {A} (m : M A) : Prop :=
  ∀ w msg, m w ≠ Raise (SystemExit msg).

(** A computation that, when it returns, has assigned only attributes
    in [ks]. *)
Definition assigns (ks : list string) {A} (m : M A) : Prop :=
  ∀ w a w', m w = Ok (a, w') → modifies ks w w'.

(** The ghost-padded array that set_z, set_A and set_Q build from an
    interior array: both ghost entries extrapolate the two nearest interior
    values linearly. *)
Definition extrapolated (a : list R) : list R :=
  [2 * nth 0 a 0 - nth 1 a 0] ++ a ++
  [2 * nth (length a - 1) a 0 - nth (length a - 2) a 0].

(** A computation that, started where [P] holds, returns only where [Q]
    holds of its result and of the object. *)
Definition hoare {A} (P : gmap string value → Prop) (m : M A)
    (Q : A → gmap string value → Prop) : Prop :=
  ∀ w a w', m w = Ok (a, w') → P (self w) → Q a (self w').

(** A computation that re-establishes [P]. *)
Definition keeps (P : gmap string value → Prop) {A} (m : M A) : Prop :=
  hoare P m (λ _, P).

(** A property of the object that reads only the attributes in [ds]. *)
Definition reads_only (ds : list string) (P : gmap string value → Prop)
    : Prop :=
  ∀ m m', (∀ k, k ∈ ds → m' !! k = m !! k) → P m → P m'.

(** The attributes that the boundary conditions read. *)
Definition boundary_keys : list string := ["z_ext"; "z_bl"; "S0"; "dx_ext"].

(** The attributes that a step assigns, z_ext apart. *)
Definition step_scratch : list string :=
  ["dzdx_0_16"; "C1"; "left"; "center"; "right"; "bcl"; "bcr"; "diagonals";
   "offsets"; "LHSmatrix"; "RHS"; "zold"; "t"; "z"; "dz_dt"; "Qs_internal"].

(** The downstream ghost node holds the base level [v]. *)
Definition downstream_ghost (v : R) (m : gmap string value) : Prop :=
  ∃ ze, m !! "z_ext" = Some (VArr ze) ∧ num_of m "z_bl" = Some v ∧
        (2 ≤ length ze)%nat ∧ nth (length ze - 1) ze 0 = v.

(** What the upstream condition reads: a slope, the spacings, an array
    z_ext. *)
Definition upstream_data (S0 : R) (dxe : list R) (m : gmap string value)
    : Prop :=
  (∃ ze, m !! "z_ext" = Some (VArr ze)) ∧ num_of m "S0" = Some S0 ∧
  m !! "dx_ext" = Some (VArr dxe).

(** z has just been committed as a copy of the interior of [ze]. *)
Definition committed (S0 : R) (dxe ze : list R) (m : gmap string value)
    : Prop :=
  m !! "z_ext" = Some (VArr ze) ∧ m !! "z" = Some (VArr (interior ze)) ∧
  num_of m "S0" = Some S0 ∧ m !! "dx_ext" = Some (VArr dxe).

(** The upstream ghost node continues the committed profile with the
    slope S0: z_ext[0] = z[0] - S0 * dx_ext[0]. *)
Definition upstream_ghost (S0 : R) (dxe : list R) (m : gmap string value)
    : Prop :=
  ∃ ze, committed S0 dxe ze m ∧
        nth 0 ze 0 = nth 0 (interior ze) 0 - S0 * nth 0 dxe 0.


(** The attributes that evolve_threshold_width_river assigns. *)
Definition evolve_keys : list string :=
  "nt" :: "dt" :: "C0" :: "z_bl" :: "z_ext" :: step_scratch.

(** The world [w] in which the attribute [k] is still None. *)
Definition unset (k : string) (w : world) : world :=
  World (<[k := VNone]> (self w)) (trace w).

(** No array of the object is a view of the attribute [k]. *)
Definition no_view_of (k : string) (m : gmap string value) : Prop :=
  ∀ key, m !! key ≠ Some (VView k).

(** Where [k] is None, a computation that returns where [k] is set does
    the same and leaves [k] None, unless it raises TypeError. *)
Definition unset_or_same (k : string) {A} (m : M A) : Prop :=
  ∀ w a w', no_view_of k (self w) → m w = Ok (a, w') →
    no_view_of k (self w') ∧
    (m (unset k w) = Ok (a, unset k w') ∨ m (unset k w) = Raise TypeError).

(** The sediment supply Q_s_0 is None. *)
Definition supply_unset (m : gmap string value) : Prop :=
  m !! "Q_s_0" = Some VNone.

Section Formulas.
Context `{NumPy}.

(** The boundary slope of §4.3 as a function of what it is computed from. *)
Definition boundary_slope (Qs_in Q0 sinuosity k_Qs intermittency : R) : R :=
  - np_sign Q0 * sinuosity
  * float_power (Rabs Qs_in / (k_Qs * intermittency * Rabs Q0)) (6/5).

(** The two coefficients of §4.5 at one interior node. *)
Definition C0_at (k_Qs intermittency lambda_p sinuosity dt dx2 : R) : R :=
  k_Qs * intermittency / ((1 - lambda_p) * float_power sinuosity (5/6))
  * dt / dx2.

Definition C1_at (C0 z_hi z_lo dx2 Q B : R) : R :=
  C0 * float_power (Rabs ((z_hi - z_lo) / dx2)) (-1/6) * Q / B.

End Formulas.

(** ** A concrete numerical library and concrete segments

    Used only to run the methods on explicit inputs. *)

(** np.arange over the reals: ceil((stop - start) / step) values. *)
Definition arange_R (start stop step : R) : option (list R) :=
  if Req_dec_T step 0 then None
  else Some (map (λ i, start + INR i * step)
               (seq 0 (Z.to_nat (1 - up (- ((stop - start) / step)))))).

(** The tridiagonal (Thomas) algorithm on the three central bands of A:
    elimination on the way down, substitution on the way back. *)
Fixpoint thomas (A : list (list R)) (i : nat) (b : list R) (c' d' : R)
    : list R :=
  match b with
  | [] => []
  | d :: b' =>
      let row := nth i A [] in
      let lower := match i with O => 0 | S j => nth j row 0 end in
      let den := nth i row 0 - lower * c' in
      let c'' := nth (S i) row 0 / den in
      let d'' := (d - lower * d') / den in
      let x := thomas A (S i) b' c'' d'' in
      (d'' - c'' * hd 0 x) :: x
  end.

Definition reals_numpy : NumPy.
Proof.
  refine {| float_power := Rpower;
            np_arange := arange_R;
            spsolve := λ A b, thomas A 0 b 0 0 |}.
  intros A b.
  assert (∀ i c' d', length (thomas A i b c' d') = length b) as Hlen.
  { induction b as [|d b IH]; intros i c' d'; simpl; [done|]. by rewrite IH. }
  apply Hlen.
Defined.

(** A segment with two interior nodes on the grid x_ext = [0, 1, 2, 3], with
    the derived arrays the setters compute there; [up] and [down] are its
    neighbours, [S0] its boundary slope (VNone when unset). *)
Definition segment (up down : list Z) (S0 : value) : world :=
  World
    (list_to_map
       [ ("x", VArr [1; 2]); ("x_ext", VArr [0; 1; 2; 3]);
         ("dx", VArr [1]); ("dx_ext", VArr [1; 1; 1]);
         ("dx_2cell", VArr []); ("dx_ext_2cell", VArr [2; 2]);
         ("nx", VInt 2); ("L", VNum 3);
         ("z", VArr [2; 1]); ("z_ext", VArr [3; 2; 1; 0]);
         ("Q", VArr [10; 10]); ("dQ", VArr [0; 0]); ("B", VArr [50; 50]);
         ("k_Qs", VNum 2); ("lambda_p", VNum (35/100));
         ("sinuosity", VNum 1); ("intermittency", VNum 1);
         ("S0", S0); ("Q_s_0", VNum 3); ("z_bl", VNum 0);
         ("ssd", VNum 0); ("U", VNum 0);
         ("downstream_fining_subsidence_equivalent", VNum 0);
         ("t", VInt 0); ("niter", VInt 3);
         ("upstream_segment_IDs", VIds up);
         ("downstream_segment_IDs", VIds down);
         ("dt", VNum 100); ("C0", VArr [1; 1]) ])
    [].

(** The same segment standing alone, and inside a network. *)
Definition lone_segment : world := segment [] [] (VNum (-1)).
Definition network_segment : world := segment [7%Z] [9%Z] VNone.

(** A newly constructed object on which only x has been assigned. *)
Definition with_x (x : list R) : world := World (<["x" := VArr x]> init) [].

(** [lone_segment] with the exponent P_xQ = 0 of a uniform discharge. *)
Definition uniform_segment : world :=
  World (<["P_xQ" := VNum 0]> (self lone_segment)) [].

(** * Properties *)

(** ** Running the primitives *)

Lemma bind_run {A B} (m : M A) (f : A → M B) w a w' :
  m w = Ok (a, w') → (m ≫= f) w = f a w'.
Proof. unfold mbind, M_bind, bind. by intros ->. Qed.

Lemma bind_assoc {A B C} (m : M A) (g : A → M B) (f : B → M C) w :
  ((m ≫= g) ≫= f) w = (m ≫= λ x, g x ≫= f) w.
Proof. unfold mbind, M_bind, bind. by destruct (m w) as [[]|]. Qed.

Lemma bind_ret {A B} (a : A) (f : A → M B) w : (mret a ≫= f) w = f a w.
Proof. done. Qed.

Lemma bind_lift_ok {A B} (a : A) (f : A → M B) w :
  (lift (Ok a) ≫= f) w = f a w.
Proof. done. Qed.

Lemma bind_setattr {B} k v (f : unit → M B) w :
  (setattr k v ≫= f) w = f tt (World (<[k := v]> (self w)) (trace w)).
Proof. done. Qed.

Lemma bind_emit {B} e (f : unit → M B) w :
  (emit e ≫= f) w = f tt (World (self w) (trace w ++ [e])).
Proof. done. Qed.

Lemma getattr_run k w v : self w !! k = Some v → getattr k w = Ok (v, w).
Proof. unfold getattr. by intros ->. Qed.

Lemma arr_of_arr m k a : m !! k = Some (VArr a) → arr_of m k = Some a.
Proof. unfold arr_of. by intros ->. Qed.

Lemma arr_of_view m k base a :
  m !! k = Some (VView base) → m !! base = Some (VArr a) →
  arr_of m k = Some (interior a).
Proof. unfold arr_of. by intros -> ->. Qed.

Lemma num_of_num m k r : m !! k = Some (VNum r) → num_of m k = Some r.
Proof. unfold num_of. by intros ->. Qed.

Lemma num_of_int m k n : m !! k = Some (VInt n) → num_of m k = Some (IZR n).
Proof. unfold num_of. by intros ->. Qed.

Lemma num_of_insert_ne m k k' v :
  k ≠ k' → num_of (<[k' := v]> m) k = num_of m k.
Proof. intros. unfold num_of. by rewrite lookup_insert_ne. Qed.

Lemma num_of_insert_eq m k r : num_of (<[k := VNum r]> m) k = Some r.
Proof. unfold num_of. by rewrite lookup_insert_eq. Qed.

Lemma num_of_not_none m k r : num_of m k = Some r →
  ∃ v, m !! k = Some v ∧ is_none v = false.
Proof.
  unfold num_of. destruct (m !! k) as [[]|]; try discriminate; eauto.
Qed.

Lemma num_of_value m k r : num_of m k = Some r →
  ∃ v, m !! k = Some v ∧ is_none v = false ∧ as_num v = Ok r.
Proof.
  unfold num_of. destruct (m !! k) as [[]|]; try discriminate;
    intros [= <-]; eauto.
Qed.

Lemma get_arr_or_run e k w a :
  arr_of (self w) k = Some a → get_arr_or e k w = Ok (a, w).
Proof.
  unfold arr_of, get_arr_or, getattr, mbind, M_bind, bind.
  destruct (self w !! k) as [[| | | |b| |]|]; try discriminate.
  - by intros [= <-].
  - destruct (self w !! b) as [[]|]; try discriminate. by intros [= <-].
Qed.

Lemma get_num_run k w r :
  num_of (self w) k = Some r → get_num k w = Ok (r, w).
Proof.
  unfold num_of, get_num, getattr, mbind, M_bind, bind.
  destruct (self w !! k) as [[]|]; try discriminate; by intros [= <-].
Qed.

Lemma get_int_run k w n :
  self w !! k = Some (VInt n) → get_int k w = Ok (n, w).
Proof. unfold get_int, getattr, mbind, M_bind, bind. by intros ->. Qed.

Lemma get_ids_run k w l :
  self w !! k = Some (VIds l) → get_ids k w = Ok (l, w).
Proof. unfold get_ids, getattr, mbind, M_bind, bind. by intros ->. Qed.

Lemma has_neighbours_nil k w :
  self w !! k = Some (VIds []) → has_neighbours k w = Ok (false, w).
Proof.
  intros Hk. unfold has_neighbours.
  by rewrite (bind_run _ _ _ _ _ (get_ids_run _ _ _ Hk)).
Qed.

Lemma has_neighbours_cons k w i l :
  self w !! k = Some (VIds (i :: l)) → has_neighbours k w = Ok (true, w).
Proof.
  intros Hk. unfold has_neighbours.
  by rewrite (bind_run _ _ _ _ _ (get_ids_run _ _ _ Hk)).
Qed.

Lemma item_run a i : (i < length a)%nat → item a i = Ok (nth i a 0).
Proof.
  intros Hi. unfold item. rewrite nth_lookup.
  destruct (lookup_lt_is_Some_2 a i Hi) as [v ->]. done.
Qed.

Lemma item_back_run a j :
  (j ≤ length a)%nat → (0 < j)%nat →
  item_back a j = Ok (nth (length a - j) a 0).
Proof.
  intros Hj H0. unfold item_back.
  destruct (Nat.leb_spec j (length a)); [|lia]. apply item_run. lia.
Qed.

Lemma get_item_run k i w a :
  arr_of (self w) k = Some a → (i < length a)%nat →
  get_item k i w = Ok (nth i a 0, w).
Proof.
  intros Ha Hi. unfold get_item, get_arr.
  rewrite (bind_run _ _ _ _ _ (get_arr_or_run _ _ _ _ Ha)).
  unfold lift. by rewrite item_run.
Qed.

Lemma get_item_back_run k j w a :
  arr_of (self w) k = Some a → (j ≤ length a)%nat → (0 < j)%nat →
  get_item_back k j w = Ok (nth (length a - j) a 0, w).
Proof.
  intros Ha Hj H0. unfold get_item_back, get_arr.
  rewrite (bind_run _ _ _ _ _ (get_arr_or_run _ _ _ _ Ha)).
  unfold lift. by rewrite item_back_run.
Qed.

Lemma store_item_run k i v w a :
  self w !! k = Some (VArr a) → (i < length a)%nat →
  store_item k i v w
  = Ok (tt, World (<[k := VArr (<[i := v]> a)]> (self w)) (trace w)).
Proof.
  intros Ha Hi. unfold store_item.
  rewrite (bind_run _ _ _ _ _ (getattr_run _ _ _ Ha)).
  unfold set_item. destruct (Nat.ltb_spec i (length a)); [done|lia].
Qed.

Lemma store_item_back_run k j v w a :
  self w !! k = Some (VArr a) → (j ≤ length a)%nat → (0 < j)%nat →
  store_item_back k j v w
  = Ok (tt, World (<[k := VArr (<[(length a - j)%nat := v]> a)]> (self w))
                  (trace w)).
Proof.
  intros Ha Hj H0. unfold store_item_back.
  rewrite (bind_run _ _ _ _ _ (getattr_run _ _ _ Ha)).
  unfold set_item_back, set_item.
  destruct (Nat.leb_spec j (length a)); [|lia].
  destruct (Nat.ltb_spec (length a - j) (length a)); [done|lia].
Qed.



Lemma broadcast_run f a b :
  length a = length b → broadcast f a b = Ok (zip_with f a b).
Proof. intros E. unfold broadcast. by rewrite E, Nat.eqb_refl. Qed.

(** ** Slices: lengths and entries *)

Lemma length_interior a : length (interior a) = (length a - 2)%nat.
Proof. unfold interior. rewrite length_drop, length_take. lia. Qed.

Lemma length_drop_last k a : length (drop_last k a) = (length a - k)%nat.
Proof. unfold drop_last. rewrite length_take. lia. Qed.

Lemma length_diff2 a : length (diff2 a) = (length a - 2)%nat.
Proof.
  unfold diff2. rewrite length_zip_with, length_drop, length_drop_last. lia.
Qed.

Lemma length_np_diff a : length (np_diff a) = (length a - 1)%nat.
Proof. unfold np_diff. rewrite length_zip_with, length_drop. lia. Qed.

Lemma length_roll_back a : length (roll_back a) = length a.
Proof.
  unfold roll_back. rewrite length_app, length_drop, length_take. lia.
Qed.

Lemma length_roll_fwd a : length (roll_fwd a) = length a.
Proof.
  unfold roll_fwd. rewrite length_app, length_drop, length_take. lia.
Qed.

Lemma length_cumsum_from acc a : length (cumsum_from acc a) = length a.
Proof. revert acc. induction a; intros; simpl; auto. Qed.

Lemma length_np_cumsum a : length (np_cumsum a) = length a.
Proof. destruct a; simpl; [done|]. by rewrite length_cumsum_from. Qed.

Lemma nth_map_lt (f : R → R) a i :
  (i < length a)%nat → nth i (map f a) 0 = f (nth i a 0).
Proof.
  intros Hi. rewrite !nth_lookup, list_lookup_fmap.
  by destruct (lookup_lt_is_Some_2 a i Hi) as [v ->].
Qed.

Lemma nth_zip_with_lt (f : R → R → R) a b i :
  (i < length a)%nat → (i < length b)%nat →
  nth i (zip_with f a b) 0 = f (nth i a 0) (nth i b 0).
Proof.
  intros Ha Hb. rewrite !nth_lookup, lookup_zip_with.
  destruct (lookup_lt_is_Some_2 a i Ha) as [v ->].
  by destruct (lookup_lt_is_Some_2 b i Hb) as [u ->].
Qed.

Lemma nth_drop (a : list R) k i : nth i (drop k a) 0 = nth (k + i) a 0.
Proof. by rewrite !nth_lookup, lookup_drop. Qed.

Lemma nth_drop_last (a : list R) k i :
  (i < length a - k)%nat → nth i (drop_last k a) 0 = nth i a 0.
Proof.
  intros. unfold drop_last. by rewrite !nth_lookup, lookup_take_lt.
Qed.

Lemma nth_interior a i :
  (i < length a - 2)%nat → nth i (interior a) 0 = nth (S i) a 0.
Proof.
  intros Hi. unfold interior. rewrite !nth_lookup.
  rewrite lookup_drop, lookup_take_lt by lia. done.
Qed.

Lemma nth_diff2 a i :
  (i + 2 < length a + 0)%nat →
  nth i (diff2 a) 0 = nth (i + 2) a 0 - nth i a 0.
Proof.
  intros Hi. unfold diff2.
  rewrite nth_zip_with_lt by (rewrite ?length_drop, ?length_drop_last; lia).
  rewrite nth_drop, nth_drop_last by lia. by rewrite Nat.add_comm.
Qed.

Lemma interior_insert_0 (a : list R) v :
  interior (<[0%nat := v]> a) = interior a.
Proof.
  unfold interior. rewrite length_insert.
  destruct a as [|x a]; [done|]. simpl.
  destruct (length a) as [|n]; [done|]. simpl. done.
Qed.

Lemma interior_insert_last (a : list R) v :
  interior (<[(length a - 1)%nat := v]> a) = interior a.
Proof.
  unfold interior. rewrite length_insert. f_equal.
  rewrite take_insert_ge by lia. done.
Qed.

(** ** The view z *)

Lemma z_is_arr_of m a : z_is m a → arr_of m "z" = Some a.
Proof.
  intros [Hz|(Hz & ze & Hze & ->)].
  - by apply arr_of_arr.
  - by eapply arr_of_view.
Qed.

Lemma z_is_insert m k v a :
  k ≠ "z" → k ≠ "z_ext" → z_is m a → z_is (<[k := v]> m) a.
Proof.
  intros H1 H2 [Hz|(Hz & ze & Hze & ->)].
  - left. by rewrite lookup_insert_ne.
  - right. rewrite !lookup_insert_ne by done. eauto.
Qed.

Lemma z_is_store_z_ext m ze ze' a :
  m !! "z_ext" = Some (VArr ze) → interior ze' = interior ze →
  z_is m a → z_is (<["z_ext" := VArr ze']> m) a.
Proof.
  intros Hze Hi [Hz|(Hz & ze0 & Hze0 & ->)].
  - left. by rewrite lookup_insert_ne.
  - right. rewrite lookup_insert_ne by done. split; [done|].
    exists ze'. rewrite lookup_insert_eq. split; [done|].
    rewrite Hze in Hze0. injection Hze0 as <-. done.
Qed.

Lemma z_is_assign m a : z_is (<["z" := VArr a]> m) a.
Proof. left. by rewrite lookup_insert_eq. Qed.

(** ** Symbolic execution of the methods *)

Ltac lookup_solve :=
  cbn [self trace];
  repeat first [ rewrite lookup_insert_eq | rewrite lookup_insert_ne by done ];
  first [ eassumption | reflexivity ].

Ltac num_solve :=
  cbn [self trace];
  repeat first [ rewrite num_of_insert_eq | rewrite num_of_insert_ne by done ];
  first [ eassumption | apply num_of_num; eassumption
        | apply num_of_int; eassumption | reflexivity ].

Ltac z_is_solve :=
  cbn [self trace];
  repeat first
    [ eassumption
    | apply z_is_assign
    | apply z_is_insert; [done | done |]
    | eapply z_is_store_z_ext;
        [ lookup_solve
        | first [ apply interior_insert_0 | apply interior_insert_last
                | match goal with
                  | E : length ?a = _ |- interior (<[_ := _]> ?a) = _ =>
                      etrans; [|apply (interior_insert_last a)];
                      do 2 f_equal; rewrite E; lia
                  end ]
        | ] ].

Ltac arr_solve :=
  first [ apply arr_of_arr; lookup_solve
        | apply z_is_arr_of; z_is_solve
        | eapply arr_of_view; [lookup_solve | lookup_solve] ].

Create Rewrite HintDb len.
#[local] Hint Rewrite @length_insert @length_map @length_zip_with @length_drop
  @length_take @length_app @length_replicate @length_cons
  length_interior length_diff2 length_np_diff length_drop_last
  length_roll_back length_roll_fwd length_np_cumsum : len.

Ltac len_solve := autorewrite with len; cbn [length]; lia.

Ltac step :=
  first
  [ progress cbn [self trace is_none as_num]
  | progress cbv beta iota
  | rewrite bind_assoc
  | rewrite bind_ret
  | rewrite bind_lift_ok
  | rewrite bind_setattr
  | rewrite bind_emit
  | match goal with
    | |- context [mbind ?f (get_num ?k) ?w] =>
        erewrite (bind_run (get_num k) f w)
          by (apply get_num_run; num_solve)
    | |- context [mbind ?f (get_int ?k) ?w] =>
        erewrite (bind_run (get_int k) f w)
          by (apply get_int_run; lookup_solve)
    | |- context [mbind ?f (get_ids ?k) ?w] =>
        erewrite (bind_run (get_ids k) f w)
          by (apply get_ids_run; lookup_solve)
    | |- context [mbind ?f (has_neighbours ?k) ?w] =>
        erewrite (bind_run (has_neighbours k) f w)
          by first [ eapply has_neighbours_nil; lookup_solve
                   | eapply has_neighbours_cons; lookup_solve ]
    | |- context [mbind ?f (getattr ?k) ?w] =>
        erewrite (bind_run (getattr k) f w)
          by (apply getattr_run; lookup_solve)
    | |- context [mbind ?f (get_item ?k ?i) ?w] =>
        erewrite (bind_run (get_item k i) f w)
          by (eapply get_item_run; [arr_solve | len_solve])
    | |- context [mbind ?f (get_item_back ?k ?i) ?w] =>
        erewrite (bind_run (get_item_back k i) f w)
          by (eapply get_item_back_run; [arr_solve | len_solve | lia])
    | |- context [mbind ?f (get_arr_or ?e ?k) ?w] =>
        erewrite (bind_run (get_arr_or e k) f w)
          by (eapply get_arr_or_run; arr_solve)
    | |- context [broadcast ?g ?a ?b] =>
        rewrite (broadcast_run g a b) by len_solve
    | |- context [mbind ?f (store_item ?k ?i ?v) ?w] =>
        erewrite (bind_run (store_item k i v) f w)
          by (eapply store_item_run; [lookup_solve | len_solve])
    | |- context [mbind ?f (store_item_back ?k ?i ?v) ?w] =>
        erewrite (bind_run (store_item_back k i v) f w)
          by (eapply store_item_back_run; [lookup_solve | len_solve | lia])
    | |- context [store_item ?k ?i ?v ?w] =>
        erewrite (store_item_run k i v w) by first [lookup_solve | len_solve]
    | |- context [store_item_back ?k ?i ?v ?w] =>
        erewrite (store_item_back_run k i v w)
          by first [lookup_solve | len_solve]
    | |- context [setattr ?k ?v ?w] => unfold setattr at 1
    | |- context [@mret M _ _ ?a ?w] =>
        change (@mret M _ _ a w) with (Ok (a, w))
    end ].

Ltac run := unfold get_arr, get_arr_obj; repeat step.

Ltac list_decide := apply (bool_decide_unpack _); vm_compute; exact I.

Ltac modifies_solve :=
  let k := fresh "k" in
  let Hk := fresh "Hk" in
  intros k Hk; cbn [self trace];
  repeat (rewrite lookup_insert_ne; [|intros <-; apply Hk; list_decide]);
  reflexivity.

Ltac has_arr_solve := eexists; split; [lookup_solve | len_solve].

Lemma np_sign_pos x : 0 < x → np_sign x = 1.
Proof.
  intros. unfold np_sign.
  destruct (Rlt_dec x 0); [lra|]. destruct (Rlt_dec 0 x); [done|lra].
Qed.

Lemma np_sign_neg x : x < 0 → np_sign x = -1.
Proof. intros. unfold np_sign. destruct (Rlt_dec x 0); [done|lra]. Qed.

Section Properties.
Context `{NumPy}.


(** ** C1, C9: the upstream sediment-supply condition *)

(** One run of set_Qs_input_upstream, for any value of the divisor. *)
Lemma set_Qs_input_upstream_run
    (w : world) (Qs_in k_Qs sinuosity intermittency : R)
    (Q z z_ext dx_ext : list R) :
  self w !! "Q" = Some (VArr Q) →
  z_is (self w) z →
  self w !! "z_ext" = Some (VArr z_ext) →
  self w !! "dx_ext" = Some (VArr dx_ext) →
  num_of (self w) "k_Qs" = Some k_Qs →
  num_of (self w) "sinuosity" = Some sinuosity →
  num_of (self w) "intermittency" = Some intermittency →
  (0 < length Q)%nat → (0 < length z)%nat →
  (0 < length z_ext)%nat → (0 < length dx_ext)%nat →
  let S0 := boundary_slope Qs_in (nth 0 Q 0) sinuosity k_Qs intermittency in
  ∃ w',
    set_Qs_input_upstream Qs_in w = Ok (tt, w') ∧
    modifies ["Q_s_0"; "S0"; "z_ext"] w w' ∧
    trace w' = trace w ∧
    num_of (self w') "Q_s_0" = Some Qs_in ∧
    num_of (self w') "S0" = Some S0 ∧
    self w' !! "z_ext"
      = Some (VArr (<[0%nat := nth 0 z 0 - S0 * nth 0 dx_ext 0]> z_ext)) ∧
    z_is (self w') z.
Proof.
  intros HQ Hz Hze Hdx Hk Hsn HI LQ Lz Lze Ldx S0.
  unfold set_Qs_input_upstream. eexists.
  run. split; [reflexivity|]. split; [modifies_solve|].
  split; [reflexivity|].
  split; [num_solve|]. split; [num_solve|].
  split; [lookup_solve|]. z_is_solve.
Qed.

(** C1. On a segment whose Q, z, z_ext, dx_ext, k_Qs, sinuosity and
    intermittency are set, with Q[0] nonzero, set_Qs_input_upstream(Qs_in)
    returns normally; afterwards S0 reads back as
    -sign(Q[0]) * sinuosity * (|Qs_in| / (k_Qs * intermittency * |Q[0]|))^(6/5),
    which is -sinuosity * (...)^(6/5) for Q[0] > 0 and +sinuosity * (...)^(6/5)
    for Q[0] < 0 whatever the sign of Qs_in, and z_ext[0] reads back as
    z[0] - S0 * dx_ext[0]; the other entries of z_ext, and z, are unchanged. *)
Theorem set_Qs_input_upstream_formulas
    (w : world) (Qs_in k_Qs sinuosity intermittency : R)
    (Q z z_ext dx_ext : list R) :
  self w !! "Q" = Some (VArr Q) →
  z_is (self w) z →
  self w !! "z_ext" = Some (VArr z_ext) →
  self w !! "dx_ext" = Some (VArr dx_ext) →
  num_of (self w) "k_Qs" = Some k_Qs →
  num_of (self w) "sinuosity" = Some sinuosity →
  num_of (self w) "intermittency" = Some intermittency →
  (0 < length Q)%nat → (0 < length z)%nat →
  (0 < length z_ext)%nat → (0 < length dx_ext)%nat →
  nth 0 Q 0 ≠ 0 →
  let P := float_power
             (Rabs Qs_in / (k_Qs * intermittency * Rabs (nth 0 Q 0))) (6/5) in
  ∃ w' S0 z_ext',
    set_Qs_input_upstream Qs_in w = Ok (tt, w') ∧
    num_of (self w') "Q_s_0" = Some Qs_in ∧
    num_of (self w') "S0" = Some S0 ∧
    S0 = - np_sign (nth 0 Q 0) * sinuosity * P ∧
    (0 < nth 0 Q 0 → S0 = - sinuosity * P) ∧
    (nth 0 Q 0 < 0 → S0 = sinuosity * P) ∧
    self w' !! "z_ext" = Some (VArr z_ext') ∧
    nth 0 z_ext' 0 = nth 0 z 0 - S0 * nth 0 dx_ext 0 ∧
    (∀ i, (0 < i)%nat → nth i z_ext' 0 = nth i z_ext 0) ∧
    length z_ext' = length z_ext ∧
    z_is (self w') z.
Proof.
  intros HQ Hz Hze Hdx Hk Hsn HI LQ Lz Lze Ldx HQ0 P.
  destruct (set_Qs_input_upstream_run w Qs_in k_Qs sinuosity intermittency
              Q z z_ext dx_ext) as (w' & Hrun & _ & _ & HQs & HS0 & Hze' & Hz');
    try done.
  eexists w', (- np_sign (nth 0 Q 0) * sinuosity * P), _.
  split; [done|]. split; [done|]. split; [done|]. split; [done|].
  split; [intros; rewrite np_sign_pos by done; lra|].
  split; [intros; rewrite np_sign_neg by done; lra|].
  split; [exact Hze'|].
  split; [rewrite nth_lookup, list_lookup_insert_eq by done; done|].
  split; [|split; [by rewrite length_insert|done]].
  intros i Hi. rewrite !nth_lookup, list_lookup_insert_ne by lia. done.
Qed.

(** C9 (as amended). set_Qs_input_upstream has no guard and no error branch
    for its divisor k_Qs * intermittency * |Q[0]|: on a segment whose fields
    are set it returns normally whatever the divisor is, zero included, with
    S0 computed from the quotient |Qs_in| / divisor.  When Q[0], k_Qs and
    intermittency are all nonzero the divisor is nonzero in exact
    arithmetic; the base |Qs_in| / divisor of the power 6/5 is non-negative
    when moreover k_Qs * intermittency > 0, and negative when
    k_Qs * intermittency < 0 and Qs_in is nonzero.  In double precision the
    three factors can be nonzero and their product zero all the same. *)
Theorem set_Qs_input_upstream_divisor
    (w : world) (Qs_in k_Qs sinuosity intermittency : R)
    (Q z z_ext dx_ext : list R) :
  self w !! "Q" = Some (VArr Q) →
  z_is (self w) z →
  self w !! "z_ext" = Some (VArr z_ext) →
  self w !! "dx_ext" = Some (VArr dx_ext) →
  num_of (self w) "k_Qs" = Some k_Qs →
  num_of (self w) "sinuosity" = Some sinuosity →
  num_of (self w) "intermittency" = Some intermittency →
  (0 < length Q)%nat → (0 < length z)%nat →
  (0 < length z_ext)%nat → (0 < length dx_ext)%nat →
  let divisor := k_Qs * intermittency * Rabs (nth 0 Q 0) in
  (∃ w',
     set_Qs_input_upstream Qs_in w = Ok (tt, w') ∧
     num_of (self w') "S0"
     = Some (- np_sign (nth 0 Q 0) * sinuosity
             * float_power (Rabs Qs_in / divisor) (6/5))) ∧
  (nth 0 Q 0 ≠ 0 → k_Qs ≠ 0 → intermittency ≠ 0 → divisor ≠ 0) ∧
  (nth 0 Q 0 ≠ 0 → 0 < k_Qs * intermittency →
   0 <= Rabs Qs_in / divisor) ∧
  (nth 0 Q 0 ≠ 0 → k_Qs * intermittency < 0 → Qs_in ≠ 0 →
   Rabs Qs_in / divisor < 0) ∧
  (∃ k i q0,
     Binary64.nonzero k = true ∧ Binary64.nonzero i = true ∧
     Binary64.nonzero q0 = true ∧
     Binary64.nonzero (Binary64.Qs_divisor k i q0) = false).
Proof.
  intros HQ Hz Hze Hdx Hk Hsn HI LQ Lz Lze Ldx divisor.
  split; [|split; [|split; [|split]]].
  - destruct (set_Qs_input_upstream_run w Qs_in k_Qs sinuosity intermittency
                Q z z_ext dx_ext) as (w' & Hrun & _ & _ & _ & HS0 & _);
      try done.
    by exists w'.
  - intros HQ0 Hk0 HI0. unfold divisor.
    apply Rmult_integral_contrapositive_currified.
    + by apply Rmult_integral_contrapositive_currified.
    + by apply Rabs_no_R0.
  - intros HQ0 Hpos. pose proof (Rabs_pos_lt _ HQ0) as HQa.
    pose proof (Rabs_pos Qs_in) as Hs. unfold divisor.
    apply Rmult_le_pos; [done|]. left. apply Rinv_0_lt_compat.
    by apply Rmult_lt_0_compat.
  - intros HQ0 Hneg Hs0. pose proof (Rabs_pos_lt _ HQ0) as HQa.
    pose proof (Rabs_pos_lt _ Hs0) as Hs. unfold divisor, Rdiv.
    assert (/ (k_Qs * intermittency * Rabs (nth 0 Q 0)) < 0) as Hinv.
    { apply Rinv_lt_0_compat. nra. }
    nra.
  - exists Binary64.two_pow_minus_600, Binary64.two_pow_minus_600,
      PrimFloat.one.
    repeat split; vm_compute; reflexivity.
Qed.


(** ** C4: the coefficients C0 and C1 *)

Ltac open_configured Hc :=
  destruct Hc as
    [Hn (ze & Hze & Lze) (z & Hz & Lz) (Q & HQ & LQ) (B & HB & LB)
     (dQ & HdQ & LdQ) (dx & Hdx & Ldx) (dxe & Hdxe & Ldxe)
     (dx2 & Hdx2 & Ldx2) (k_Qs & Hk) (intermittency & HI) (sinuosity & Hsn)
     (lambda_p & Hlam) (z_bl & Hzbl) (Q_s_0 & HQs) (t & Ht) (ssd & Hssd)
     (dfse & Hdfse) (U & HU) (niter & Hniter) (up & Hup) (down & Hdown) HS0].

Lemma configured_frame n m m' :
  (∀ k, k ∈ config_keys → m' !! k = m !! k) →
  has_arr m' "z_ext" (n + 2) →
  configured n m → configured n m'.
Proof.
  intros Hk (ze' & Hze' & Lze') Hc.
  assert (Hnum : ∀ k, k ∈ config_keys → has_num m k → has_num m' k).
  { intros k Hin (r & Hr). exists r. unfold num_of in *. by rewrite Hk. }
  assert (Harr : ∀ k j, k ∈ config_keys → has_arr m k j → has_arr m' k j).
  { intros k j Hin (a & Ha & La). exists a. by rewrite Hk. }
  destruct Hc as [? ? (z & Hz & Lz) ? ? ? ? ? ? ? ? ? ? ? ? ? ? ? ?
                  (ni & Hni) (up & Hup) (down & Hdown) HS0].
  split.
  - assumption.
  - by exists ze'.
  - destruct Hz as [Hz|(Hz & ze & Hze & ->)].
    + exists z. split; [|assumption]. left. rewrite Hk; [assumption|list_decide].
    + exists (interior ze'). split; [|rewrite length_interior; lia].
      right. rewrite Hk by list_decide. split; [assumption|]. by exists ze'.
  - apply Harr; [list_decide|assumption].
  - apply Harr; [list_decide|assumption].
  - apply Harr; [list_decide|assumption].
  - apply Harr; [list_decide|assumption].
  - apply Harr; [list_decide|assumption].
  - apply Harr; [list_decide|assumption].
  - apply Hnum; [list_decide|assumption].
  - apply Hnum; [list_decide|assumption].
  - apply Hnum; [list_decide|assumption].
  - apply Hnum; [list_decide|assumption].
  - apply Hnum; [list_decide|assumption].
  - apply Hnum; [list_decide|assumption].
  - apply Hnum; [list_decide|assumption].
  - apply Hnum; [list_decide|assumption].
  - apply Hnum; [list_decide|assumption].
  - apply Hnum; [list_decide|assumption].
  - exists ni. rewrite Hk; [assumption|list_decide].
  - exists up. rewrite Hk; [assumption|list_decide].
  - exists down. rewrite Hk; [assumption|list_decide].
  - destruct HS0 as [HS0|[HS0 Hnil]].
    + left. apply Hnum; [list_decide|assumption].
    + right. rewrite !Hk by list_decide. done.
Qed.

Lemma disjointb_spec ks ks' k :
  disjointb ks ks' = true → k ∈ ks → k ∉ ks'.
Proof.
  unfold disjointb. rewrite forallb_forall. intros Hall Hin.
  specialize (Hall k). rewrite <- list_elem_of_In in Hall.
  specialize (Hall Hin). apply negb_true_iff, bool_decide_eq_false in Hall.
  done.
Qed.

Lemma prepared_frame n ks w w' :
  modifies ks w w' →
  disjointb ("C0" :: "dt" :: config_keys) ks = true →
  has_arr (self w') "z_ext" (n + 2) →
  prepared n (self w) → prepared n (self w').
Proof.
  intros Hm Hd Hze (Hc & (C0 & HC0 & LC0) & (dt & Hdt)).
  assert (Hk : ∀ k, k ∈ "C0" :: "dt" :: config_keys →
                    self w' !! k = self w !! k).
  { intros k Hin. apply Hm. by eapply disjointb_spec. }
  split; [|split].
  - eapply configured_frame; [|done|done].
    intros k Hin. apply Hk. rewrite !elem_of_cons; tauto.
  - exists C0. rewrite Hk by list_decide. done.
  - exists dt. unfold num_of in *. rewrite Hk by list_decide. done.
Qed.

Lemma modifies_refl ks w : modifies ks w w.
Proof. by intros k _. Qed.

Lemma modifies_trans ks w1 w2 w3 :
  modifies ks w1 w2 → modifies ks w2 w3 → modifies ks w1 w3.
Proof. intros H12 H23 k Hk. rewrite H23 by done. by apply H12. Qed.

Lemma modifies_weaken ks ks' w w' :
  ks ⊆ ks' → modifies ks w w' → modifies ks' w w'.
Proof. intros Hs Hm k Hk. apply Hm. set_solver. Qed.

Lemma build_LHS_coeff_C0_ok n w dt :
  configured n (self w) →
  ∃ w', build_LHS_coeff_C0 dt w = Ok (tt, w') ∧
        modifies ["dt"; "C0"] w w' ∧
        prepared n (self w') ∧
        num_of (self w') "dt" = Some dt ∧
        trace w' = trace w.
Proof.
  intros Hc. pose proof Hc as Hc'. open_configured Hc.
  unfold build_LHS_coeff_C0. eexists. run.
  split; [reflexivity|]. split; [modifies_solve|].
  split; [|split; [num_solve|reflexivity]].
  split; [|split; [has_arr_solve|eexists; num_solve]].
  eapply configured_frame; [| |exact Hc'].
  - intros k Hin. cbn [self]. rewrite !lookup_insert_ne; [done|..];
      intros <-; revert Hin; apply (bool_decide_eq_false_1 _); by vm_compute.
  - has_arr_solve.
Qed.

(** C4. On a configured segment with no upstream and no downstream
    neighbours, build_LHS_coeff_C0(dt) followed by
    compute_coefficient_time_varying() returns normally and leaves, at every
    interior node i,
    C0[i] = k_Qs * intermittency / ((1 - lambda_p) * sinuosity^(5/6)) * dt
            / dx_ext_2cell[i]   and
    C1[i] = C0[i] * |slope[i]|^(-1/6) * Q[i] / B[i]   with
    slope[i] = (z_ext[i+2] - z_ext[i]) / dx_ext_2cell[i],
    where z_ext is the ghost-padded elevation as it stands after the call. *)
Theorem coefficients_C0_C1 (n : nat) (w : world) (dt : R) :
  configured n (self w) →
  self w !! "upstream_segment_IDs" = Some (VIds []) →
  self w !! "downstream_segment_IDs" = Some (VIds []) →
  ∃ w1 w2 k_Qs intermittency lambda_p sinuosity C0 C1 z_ext dx2 Q B,
    build_LHS_coeff_C0 dt w = Ok (tt, w1) ∧
    compute_coefficient_time_varying w1 = Ok (tt, w2) ∧
    num_of (self w2) "k_Qs" = Some k_Qs ∧
    num_of (self w2) "intermittency" = Some intermittency ∧
    num_of (self w2) "lambda_p" = Some lambda_p ∧
    num_of (self w2) "sinuosity" = Some sinuosity ∧
    self w2 !! "C0" = Some (VArr C0) ∧
    self w2 !! "C1" = Some (VArr C1) ∧
    self w2 !! "z_ext" = Some (VArr z_ext) ∧
    self w2 !! "dx_ext_2cell" = Some (VArr dx2) ∧
    self w2 !! "Q" = Some (VArr Q) ∧
    self w2 !! "B" = Some (VArr B) ∧
    length C0 = n ∧ length C1 = n ∧
    ∀ i, (i < n)%nat →
      nth i C0 0
      = C0_at k_Qs intermittency lambda_p sinuosity dt (nth i dx2 0) ∧
      nth i C1 0
      = C1_at (nth i C0 0) (nth (i + 2) z_ext 0) (nth i z_ext 0)
              (nth i dx2 0) (nth i Q 0) (nth i B 0).
Proof.
  intros Hc Hup' Hdown'. open_configured Hc.
  rewrite Hup in Hup'. injection Hup' as ->.
  rewrite Hdown in Hdown'. injection Hdown' as ->.
  destruct HS0 as [(S0 & HS0)|[_ Hnil]]; [|done].
  destruct (num_of_not_none _ _ _ HS0) as (vS0 & HvS0 & HnS0).
  eexists _, _, k_Qs, intermittency, lambda_p, sinuosity, _, _, _, dx2, Q, B.
  split; [unfold build_LHS_coeff_C0; run; reflexivity|].
  split.
  { unfold compute_coefficient_time_varying, update_z_ext_0.
    run. rewrite HnS0. run. reflexivity. }
  do 4 (split; [num_solve|]).
  do 6 (split; [lookup_solve|]).
  split; [len_solve|]. split; [len_solve|].
  intros i Hi. split.
  - rewrite nth_map_lt by lia. done.
  - repeat first [ rewrite nth_zip_with_lt by len_solve
                 | rewrite nth_map_lt by len_solve ].
    rewrite nth_diff2 by len_solve. done.
Qed.


(** ** C5: the assembled system *)

Lemma nth_map_seq {A} (f : nat → A) n i d :
  (i < n)%nat → nth i (map f (seq 0 n)) d = f i.
Proof.
  intros Hi. rewrite nth_lookup, list_lookup_fmap, lookup_seq_lt by done.
  done.
Qed.

Lemma band_entry_diagonal l c r i :
  band_entry [l; c; r] [(-1)%Z; 0%Z; 1%Z] i i = nth i c 0.
Proof.
  unfold band_entry. cbn [zip zip_with foldr]. rewrite Z.sub_diag. done.
Qed.

Lemma spdiags_diagonal l c r n i :
  (i < n)%nat →
  nth i (nth i (spdiags [l; c; r] [(-1)%Z; 0%Z; 1%Z] n n) []) 0 = nth i c 0.
Proof.
  intros Hi. unfold spdiags.
  rewrite (nth_map_seq _ n i []) by done.
  rewrite (nth_map_seq _ n i 0) by done.
  apply band_entry_diagonal.
Qed.

Lemma length_spdiags d o m n : length (spdiags d o m n) = m.
Proof. unfold spdiags. by rewrite length_map, length_seq. Qed.

Lemma np_vstack3_run a b c :
  length a = length b → length b = length c →
  np_vstack3 a b c = Ok [a; b; c].
Proof.
  intros E1 E2. unfold np_vstack3. by rewrite E1, E2, !Nat.eqb_refl.
Qed.

(** One run of build_matrices on a prepared segment: what it assigns, and
    the shapes and the diagonal of what it leaves. *)
Lemma build_matrices_run n w :
  prepared n (self w) →
  ∃ w' C1 dxe center A rhs,
    build_matrices w = Ok (tt, w') ∧
    modifies scratch w w' ∧
    trace w' = trace w ∧
    has_arr (self w') "z_ext" (n + 2) ∧
    self w' !! "C1" = Some (VArr C1) ∧
    self w' !! "dx_ext" = Some (VArr dxe) ∧
    self w' !! "center" = Some (VArr center) ∧
    self w' !! "LHSmatrix" = Some (VMat A) ∧
    self w' !! "RHS" = Some (VArr rhs) ∧
    length C1 = n ∧ length center = n ∧ length A = n ∧ length rhs = n ∧
    (∀ i, (i < n)%nat →
       nth i center 0
       = - nth i C1 0 * (5 / 3 * (-1 / nth i dxe 0 - 1 / nth (i + 1) dxe 0))
         + 1) ∧
    (∀ i, (i < n)%nat → nth i (nth i A []) 0 = nth i center 0).
Proof.
  intros (Hc & (C0 & HC0 & LC0) & (dt & Hdt)). open_configured Hc.
  unfold build_matrices, compute_coefficient_time_varying, update_z_ext_0,
    set_bcl_Neumann_LHS, set_bcl_Neumann_RHS, set_bcr_Dirichlet.
  destruct HS0 as [(S0 & HS0)|[HS0 Hnil]];
    [destruct (num_of_not_none _ _ _ HS0) as (vS0 & HvS0 & HnS0)|];
    destruct up as [|u up]; try done;
    destruct down as [|d down].
  all: do 6 eexists.
  all: split; [run; rewrite ?HnS0; run;
               try (rewrite np_vstack3_run by len_solve; run);
               reflexivity|].
  all: split; [unfold scratch; modifies_solve|].
  all: split; [reflexivity|].
  all: split; [has_arr_solve|].
  all: do 5 (split; [lookup_solve|]).
  all: do 3 (split; [rewrite ?length_spdiags; len_solve|]).
  all: split; [len_solve|].
  all: split;
    [ intros i Hi;
      repeat first [ rewrite nth_zip_with_lt by len_solve
                   | rewrite nth_map_lt by len_solve ];
      rewrite nth_drop, nth_drop_last by len_solve;
      rewrite (Nat.add_comm 1 i); reflexivity
    | intros i Hi; apply spdiags_diagonal; len_solve ].
Qed.


(** C5. On every prepared segment, with or without neighbours, build_matrices
    returns normally and the main diagonal it assembles is, at every interior
    node i, 1 + C1[i] * (5/3) * (1/dx_ext[i] + 1/dx_ext[i+1]): this holds of
    the array [center] and of the entry (i, i) of the matrix LHSmatrix built
    after the boundary rows have been adjusted. *)
Theorem build_matrices_main_diagonal (n : nat) (w : world) :
  prepared n (self w) →
  ∃ w' C1 dx_ext center A,
    build_matrices w = Ok (tt, w') ∧
    self w' !! "C1" = Some (VArr C1) ∧
    self w' !! "dx_ext" = Some (VArr dx_ext) ∧
    self w' !! "center" = Some (VArr center) ∧
    self w' !! "LHSmatrix" = Some (VMat A) ∧
    length center = n ∧ length A = n ∧
    ∀ i, (i < n)%nat →
      nth i center 0
      = 1 + nth i C1 0 * (5 / 3)
            * (1 / nth i dx_ext 0 + 1 / nth (i + 1) dx_ext 0) ∧
      nth i (nth i A []) 0
      = 1 + nth i C1 0 * (5 / 3)
            * (1 / nth i dx_ext 0 + 1 / nth (i + 1) dx_ext 0).
Proof.
  intros Hp.
  destruct (build_matrices_run n w Hp)
    as (w' & C1 & dxe & center & A & rhs & Hrun & _ & _ & _ & HC1 & Hdxe
        & Hcen & HA & _ & _ & Lc & LA & _ & Hdiag & Hmat).
  exists w', C1, dxe, center, A. do 7 (split; [done|]).
  intros i Hi.
  assert (nth i center 0
          = 1 + nth i C1 0 * (5 / 3)
                * (1 / nth i dxe 0 + 1 / nth (i + 1) dxe 0)) as E.
  { rewrite Hdiag by done. unfold Rdiv. ring. }
  split; [done|]. by rewrite Hmat.
Qed.

(** ** C6, C8: time stepping *)

Lemma assign_interior_run a v :
  length v = length (interior a) →
  assign_interior a v = Ok (take 1 a ++ v ++ drop (1 + length v) a).
Proof.
  intros E. unfold assign_interior. by rewrite <- E, Nat.eqb_refl.
Qed.

Lemma prepared_z_ext n m : prepared n m → has_arr m "z_ext" (n + 2).
Proof. by intros ([] & _). Qed.

Lemma sweep_run n w :
  prepared n (self w) →
  ∃ w', sweep w = Ok (tt, w') ∧
        modifies scratch w w' ∧
        trace w' = trace w ++ [SpSolve] ∧
        prepared n (self w').
Proof.
  intros Hp.
  destruct (build_matrices_run n w Hp)
    as (w1 & C1 & dxe & center & A & rhs & Hrun & Hmod & Htr & (ze & Hze & Lze)
        & _ & _ & _ & HA & Hrhs & _ & _ & LA & Lrhs & _ & _).
  unfold sweep.
  rewrite (bind_run _ _ _ _ _ Hrun).
  eexists. run. cbn [as_mat]. run.
  rewrite LA, Lrhs, Nat.eqb_refl. run.
  rewrite assign_interior_run
    by (rewrite spsolve_length, length_interior; lia).
  run. rewrite Htr.
  split; [reflexivity|].
  assert (modifies scratch w
    (World (<["z_ext" := VArr (take 1 ze ++ spsolve A rhs ++
               drop (1 + length (spsolve A rhs)) ze)]> (self w1))
           (trace w ++ [SpSolve]))) as Hmod'.
  { intros k Hk. cbn [self]. rewrite lookup_insert_ne; [by apply Hmod|].
    intros <-. apply Hk. list_decide. }
  split; [exact Hmod'|]. split; [reflexivity|].
  eapply prepared_frame; [exact Hmod'|by vm_compute| |exact Hp].
  eexists. split; [lookup_solve|].
  rewrite !length_app, length_take, length_drop, spsolve_length. lia.
Qed.

Lemma inner_loop_run n k w :
  prepared n (self w) →
  ∃ w', repeat_m k sweep w = Ok (tt, w') ∧
        modifies scratch w w' ∧
        trace w' = trace w ++ replicate k SpSolve ∧
        prepared n (self w').
Proof.
  revert w. induction k as [|k IH]; intros w Hp.
  - exists w. split; [done|]. split; [apply modifies_refl|].
    split; [by rewrite app_nil_r|done].
  - destruct (sweep_run n w Hp) as (w1 & Hs & Hm1 & Ht1 & Hp1).
    destruct (IH w1 Hp1) as (w2 & Hr & Hm2 & Ht2 & Hp2).
    exists w2. cbn [repeat_m].
    rewrite (bind_run _ _ _ _ _ Hs). split; [done|].
    split; [by eapply modifies_trans|]. split; [|done].
    by rewrite Ht2, Ht1, <- app_assoc.
Qed.

Lemma interior_assign (ze x : list R) :
  (2 ≤ length ze)%nat → length x = (length ze - 2)%nat →
  interior (take 1 ze ++ x ++ drop (1 + length x) ze) = x.
Proof.
  intros Lze Lx. unfold interior.
  rewrite !length_app, length_take, length_drop.
  destruct ze as [|z0 ze]; [simpl in Lze; lia|].
  change (take 1 (z0 :: ze)) with [z0].
  match goal with
  | |- drop 1 (take ?k _) = _ =>
      replace k with (S (length x)) by (cbn [length] in *; lia)
  end.
  cbn [app take drop]. rewrite drop_0. by rewrite take_app_length.
Qed.

(** One sweep is one assembly followed by one solve of the system just
    assembled, whose solution is written to the interior of z_ext. *)
Lemma sweep_solves n w :
  prepared n (self w) →
  ∃ w1 A b ze,
    build_matrices w = Ok (tt, w1) ∧
    self w1 !! "LHSmatrix" = Some (VMat A) ∧
    self w1 !! "RHS" = Some (VArr b) ∧
    self w1 !! "z_ext" = Some (VArr ze) ∧
    length ze = (n + 2)%nat ∧ length b = n ∧
    sweep w
    = Ok (tt, World (<["z_ext" := VArr (take 1 ze ++ spsolve A b
                                          ++ drop (n + 1) ze)]> (self w1))
                    (trace w ++ [SpSolve])).
Proof.
  intros Hp.
  destruct (build_matrices_run n w Hp)
    as (w1 & C1 & dxe & center & A & rhs & Hrun & Hmod & Htr & (ze & Hze & Lze)
        & _ & _ & _ & HA & Hrhs & _ & _ & LA & Lrhs & _ & _).
  exists w1, A, rhs, ze. do 6 (split; [done|]).
  unfold sweep.
  rewrite (bind_run _ _ _ _ _ Hrun).
  run. cbn [as_mat]. run.
  rewrite LA, Lrhs, Nat.eqb_refl. run.
  rewrite assign_interior_run
    by (rewrite spsolve_length, length_interior; lia).
  run. rewrite Htr, spsolve_length, Lrhs, (Nat.add_comm 1 n). reflexivity.
Qed.

Lemma repeat_m_snoc k (m : M unit) w :
  repeat_m (S k) m w = (repeat_m k m;; m) w.
Proof.
  revert w. induction k as [|k IH]; intros w.
  - cbn [repeat_m]. rewrite bind_ret. unfold mbind, M_bind, bind, ret.
    destruct (m w) as [[[] w1]|]; reflexivity.
  - change (repeat_m (S (S k)) m w) with ((m;; repeat_m (S k) m) w).
    change ((repeat_m (S k) m;; m) w) with (((m;; repeat_m k m);; m) w).
    rewrite bind_assoc.
    destruct (m w) as [[[] w1]|e] eqn:E.
    + rewrite !(bind_run _ _ _ _ _ E). apply IH.
    + unfold mbind, M_bind, bind. by rewrite E.
Qed.

(** After at least one sweep the interior of z_ext is the solution of the
    system held in LHSmatrix and RHS. *)
Lemma inner_loop_solves n k w :
  prepared n (self w) → (0 < k)%nat →
  ∃ w' A b ze,
    repeat_m k sweep w = Ok (tt, w') ∧
    self w' !! "LHSmatrix" = Some (VMat A) ∧
    self w' !! "RHS" = Some (VArr b) ∧
    self w' !! "z_ext" = Some (VArr ze) ∧
    interior ze = spsolve A b.
Proof.
  intros Hp Hk. destruct k as [|k]; [lia|].
  destruct (inner_loop_run n k w Hp) as (w1 & Hl & _ & _ & Hp1).
  destruct (sweep_solves n w1 Hp1)
    as (w2 & A & b & ze & _ & HA & Hb & Hze & Lze & Lb & Hs).
  eexists _, A, b, _. split.
  { rewrite repeat_m_snoc, (bind_run _ _ _ _ _ Hl). exact Hs. }
  split; [lookup_solve|]. split; [lookup_solve|]. split; [lookup_solve|].
  replace (n + 1)%nat with (1 + length (spsolve A b))%nat
    by (rewrite spsolve_length; lia).
  apply interior_assign; rewrite ?spsolve_length; lia.
Qed.


Lemma modifies_num_of ks w w' k :
  modifies ks w w' → k ∉ ks → num_of (self w') k = num_of (self w) k.
Proof. intros Hm Hk. unfold num_of. by rewrite Hm. Qed.

(** Re-establishing [configured] after an assignment. *)
Ltac field_solve :=
  match goal with
  | Hx : has_arr ?m ?k _ |- has_arr _ ?k _ =>
      destruct Hx as (? & ? & ?); has_arr_solve
  | Hx : has_num ?m ?k |- has_num _ ?k =>
      destruct Hx as (? & ?); eexists; num_solve
  | Hx : ∃ v, ?m !! ?k = Some _ |- ∃ v, _ !! ?k = Some _ =>
      destruct Hx as (? & ?); eexists; lookup_solve
  end.

Lemma configured_insert_num n m k r :
  k = "t" ∨ k = "z_bl" →
  configured n m → configured n (<[k := VNum r]> m).
Proof.
  intros Hk [? ? (z & Hz & Lz) ? ? ? ? ? ? ? ? ? ? ? ? ? ? ? ? ? ? ? HS0].
  destruct Hk as [-> | ->].
  all: split; try assumption; try field_solve.
  all: try (eexists; num_solve).
  all: try (exists z; split; [z_is_solve|assumption]).
  all: destruct HS0 as [(S0 & HS0)|[HS0 Hnil]];
    [ left; eexists; num_solve
    | right; rewrite !lookup_insert_ne by done; done ].
Qed.

Lemma configured_insert_z n m a :
  length a = n → configured n m → configured n (<["z" := VArr a]> m).
Proof.
  intros La [? ? (z & Hz & Lz) ? ? ? ? ? ? ? ? ? ? ? ? ? ? ? ? ? ? ? HS0].
  split; try assumption; try field_solve.
  - exists a. split; [z_is_solve|assumption].
  - destruct HS0 as [(S0 & HS0)|[HS0 Hnil]];
      [ left; eexists; num_solve
      | right; rewrite !lookup_insert_ne by done; done ].
Qed.

Lemma configured_insert_other n m k v :
  k ∉ "z_ext" :: config_keys →
  configured n m → configured n (<[k := v]> m).
Proof.
  intros Hk Hc. eapply configured_frame; [| |exact Hc].
  - intros k' Hin. rewrite lookup_insert_ne; [done|].
    intros ->. apply Hk. by right.
  - destruct Hc as [_ (ze & Hze & Lze)]. exists ze.
    rewrite lookup_insert_ne; [done|]. intros ->. apply Hk. by left.
Qed.

Lemma configured_insert_z_ext n m a :
  length a = (n + 2)%nat →
  configured n m → configured n (<["z_ext" := VArr a]> m).
Proof.
  intros La Hc. eapply configured_frame; [| |exact Hc].
  - intros k' Hin. rewrite lookup_insert_ne; [done|].
    intros <-. revert Hin. apply (bool_decide_unpack _). by vm_compute.
  - exists a. by rewrite lookup_insert_eq.
Qed.

Lemma prepared_insert n m k v :
  k ≠ "C0" → k ≠ "dt" →
  configured n (<[k := v]> m) → prepared n m → prepared n (<[k := v]> m).
Proof.
  intros H1 H2 Hc (_ & (C0 & HC0 & LC0) & (dt & Hdt)).
  split; [done|]. split.
  - exists C0. by rewrite lookup_insert_ne.
  - exists dt. by rewrite num_of_insert_ne.
Qed.

(** One outer step on a prepared segment. *)
Lemma outer_step_solves n w niter t dt lambda_p Q_s_0 B z_prev :
  prepared n (self w) →
  self w !! "niter" = Some (VInt niter) →
  num_of (self w) "t" = Some t →
  num_of (self w) "dt" = Some dt →
  num_of (self w) "lambda_p" = Some lambda_p →
  num_of (self w) "Q_s_0" = Some Q_s_0 →
  self w !! "B" = Some (VArr B) →
  z_is (self w) z_prev →
  ∃ w' z_ext',
    outer_step w = Ok (tt, w') ∧
    trace w' = trace w ++ replicate (Z.to_nat niter) SpSolve ∧
    modifies step_keys w w' ∧
    prepared n (self w') ∧
    num_of (self w') "t" = Some (t + dt) ∧
    self w' !! "z_ext" = Some (VArr z_ext') ∧
    self w' !! "z" = Some (VArr (interior z_ext')) ∧
    self w' !! "zold" = Some (VArr z_prev) ∧
    self w' !! "dz_dt"
      = Some (VArr (map (λ v, v / dt)
                      (zip_with Rminus (interior z_ext') z_prev))) ∧
    self w' !! "Qs_internal"
      = Some (VArr (map (λ v, v + Q_s_0)
                (zip_with Rmult
                   (map (Rmult (1 / (1 - lambda_p)))
                      (np_cumsum (map (λ v, v / dt)
                         (zip_with Rminus (interior z_ext') z_prev))))
                   B))) ∧
    ((0 < Z.to_nat niter)%nat →
     ∃ A b, self w' !! "LHSmatrix" = Some (VMat A) ∧
            self w' !! "RHS" = Some (VArr b) ∧
            interior z_ext' = spsolve A b).
Proof.
  intros Hp Hni Ht Hdt Hlam HQs HB Hz.
  assert (length z_prev = n ∧ length B = n) as [Lz LB].
  { destruct Hp as ([_ (ze & Hze & Lze) (z & Hz' & Lz) _ (B' & HB' & LB')] & _).
    split.
    - destruct Hz as [Hz|(Hz & ze1 & Hze1 & ->)];
        destruct Hz' as [Hz'|(Hz' & ze2 & Hze2 & ->)]; congruence.
    - congruence. }
  set (w0 := World (<["zold" := VArr z_prev]> (self w)) (trace w)).
  assert (prepared n (self w0)) as Hp0.
  { apply prepared_insert; [done|done| |done].
    apply configured_insert_other; [list_decide|apply Hp]. }
  destruct (inner_loop_run n (Z.to_nat niter) w0 Hp0)
    as (w2 & Hloop & Hm2 & Htr2 & Hp2).
  assert (∀ k, k ∉ "zold" :: scratch → self w2 !! k = self w !! k) as Hfr.
  { intros k Hk. rewrite Hm2 by (intros ?; apply Hk; by right).
    cbn [w0 self]. rewrite lookup_insert_ne; [done|].
    intros <-. apply Hk. by left. }
  assert (self w2 !! "zold" = Some (VArr z_prev)) as Hzold.
  { rewrite Hm2 by list_decide. cbn [w0 self]. by rewrite lookup_insert_eq. }
  assert (∀ k, k ∉ "zold" :: scratch →
               num_of (self w2) k = num_of (self w) k) as Hfrn.
  { intros k Hk. unfold num_of. by rewrite Hfr. }
  pose proof Hni as Hni_w.
  rewrite <- Hfr in Hni, HB by list_decide.
  rewrite <- Hfrn in Ht, Hdt, Hlam, HQs by list_decide.
  pose proof Hp2 as Hp2'.
  destruct Hp2' as (Hc2 & _).
  destruct Hc2 as [Hn (ze & Hze & Lze) _ _ _ _ _ (dxe & Hdxe & Ldxe)
                   _ _ _ _ _ _ _ _ _ _ _ _ _ _ HS0].
  assert (∃ vS0, self w2 !! "S0" = Some vS0 ∧
            (is_none vS0 = true ∨ ∃ S0, num_of (self w2) "S0" = Some S0))
    as (vS0 & HvS0 & HS0').
  { destruct HS0 as [(S0 & HS0)|[HS0 _]].
    - destruct (num_of_not_none _ _ _ HS0) as (v & Hv & _). eauto.
    - exists VNone. split; [done|]. by left. }
  assert ((0 < Z.to_nat niter)%nat →
          ∃ A b, self w2 !! "LHSmatrix" = Some (VMat A) ∧
                 self w2 !! "RHS" = Some (VArr b) ∧
                 interior ze = spsolve A b) as Hsol.
  { intros Hk.
    destruct (inner_loop_solves n _ w0 Hp0 Hk)
      as (w2' & A & b & ze' & Hl' & HA & Hb & Hze' & Hs).
    rewrite Hloop in Hl'. injection Hl' as <-.
    rewrite Hze in Hze'. injection Hze' as <-. eauto. }
  unfold outer_step.
  assert (modifies step_keys w w2) as Hmw.
  { intros k Hk. apply Hfr. intros Hin. apply Hk. unfold step_keys.
    rewrite elem_of_app. apply elem_of_cons in Hin as [->|Hin].
    - right. list_decide.
    - by left. }
  destruct HS0' as [Hnone|(S0 & HS0')].
  - (* no upstream boundary slope: the ghost node is left alone *)
    exists (World
      (<["Qs_internal" := VArr (map (λ v, v + Q_s_0)
          (zip_with Rmult (map (Rmult (1 / (1 - lambda_p)))
             (np_cumsum (map (λ v, v / dt)
                (zip_with Rminus (interior ze) z_prev)))) B))]>
       (<["dz_dt" := VArr (map (λ v, v / dt)
             (zip_with Rminus (interior ze) z_prev))]>
        (<["z" := VArr (interior ze)]>
         (<["t" := VNum (t + dt)]> (self w2)))))
      (trace w2)), ze.
    split.
    { run. fold w0. rewrite (bind_run _ _ _ _ _ Hloop). run.
      rewrite Hnone. run. reflexivity. }
    split; [by rewrite Htr2|].
    split.
    { intros k Hk. cbn [self].
      rewrite !lookup_insert_ne
        by (intros <-; apply Hk; unfold step_keys; list_decide).
      by apply Hmw. }
    split.
    { cbn [self].
      apply prepared_insert; [done|done| |].
      { repeat first
          [ apply configured_insert_other; [list_decide|]
          | apply configured_insert_z; [len_solve|]
          | apply configured_insert_num; [by left|] ].
        apply Hp2. }
      apply prepared_insert; [done|done| |].
      { repeat first
          [ apply configured_insert_other; [list_decide|]
          | apply configured_insert_z; [len_solve|]
          | apply configured_insert_num; [by left|] ].
        apply Hp2. }
      apply prepared_insert; [done|done| |].
      { repeat first
          [ apply configured_insert_other; [list_decide|]
          | apply configured_insert_z; [len_solve|]
          | apply configured_insert_num; [by left|] ].
        apply Hp2. }
      apply prepared_insert; [done|done| |done].
      apply configured_insert_num; [by left|]. apply Hp2. }
    split; [num_solve|].
    do 5 (split; [lookup_solve|]).
    intros Hk. destruct (Hsol Hk) as (A & b & HA & Hb & Hs).
    exists A, b. split; [lookup_solve|]. split; [lookup_solve|done].
  - (* the upstream ghost node is refreshed from S0 *)
    exists (World
      (<["z_ext" := VArr (<[0%nat := nth 0 (interior ze) 0
                                       - S0 * nth 0 dxe 0]> ze)]>
       (<["Qs_internal" := VArr (map (λ v, v + Q_s_0)
           (zip_with Rmult (map (Rmult (1 / (1 - lambda_p)))
              (np_cumsum (map (λ v, v / dt)
                 (zip_with Rminus (interior ze) z_prev)))) B))]>
        (<["dz_dt" := VArr (map (λ v, v / dt)
              (zip_with Rminus (interior ze) z_prev))]>
         (<["z" := VArr (interior ze)]>
          (<["t" := VNum (t + dt)]> (self w2))))))
      (trace w2)), (<[0%nat := nth 0 (interior ze) 0 - S0 * nth 0 dxe 0]> ze).
    destruct (num_of_not_none _ _ _ HS0') as (v' & Hv' & Hnn).
    rewrite HvS0 in Hv'. injection Hv' as <-.
    split.
    { run. fold w0. rewrite (bind_run _ _ _ _ _ Hloop). run.
      rewrite Hnn. unfold update_z_ext_0. run. reflexivity. }
    split; [by rewrite Htr2|].
    split.
    { intros k Hk. cbn [self].
      rewrite !lookup_insert_ne
        by (intros <-; apply Hk; unfold step_keys; list_decide).
      by apply Hmw. }
    split.
    { cbn [self].
      apply prepared_insert; [done|done| |].
      { repeat first
          [ apply configured_insert_other; [list_decide|]
          | apply configured_insert_z_ext; [len_solve|]
          | apply configured_insert_z; [len_solve|]
          | apply configured_insert_num; [by left|] ].
        apply Hp2. }
      apply prepared_insert; [done|done| |].
      { repeat first
          [ apply configured_insert_other; [list_decide|]
          | apply configured_insert_z; [len_solve|]
          | apply configured_insert_num; [by left|] ].
        apply Hp2. }
      apply prepared_insert; [done|done| |].
      { repeat first
          [ apply configured_insert_other; [list_decide|]
          | apply configured_insert_z; [len_solve|]
          | apply configured_insert_num; [by left|] ].
        apply Hp2. }
      apply prepared_insert; [done|done| |].
      { repeat first
          [ apply configured_insert_other; [list_decide|]
          | apply configured_insert_z; [len_solve|]
          | apply configured_insert_num; [by left|] ].
        apply Hp2. }
      apply prepared_insert; [done|done| |done].
      apply configured_insert_num; [by left|]. apply Hp2. }
    split; [num_solve|].
    rewrite interior_insert_0.
    do 5 (split; [lookup_solve|]).
    intros Hk. destruct (Hsol Hk) as (A & b & HA & Hb & Hs).
    exists A, b. split; [lookup_solve|]. split; [lookup_solve|done].
Qed.

Lemma outer_step_run n w niter t dt lambda_p Q_s_0 B z_prev :
  prepared n (self w) →
  self w !! "niter" = Some (VInt niter) →
  num_of (self w) "t" = Some t →
  num_of (self w) "dt" = Some dt →
  num_of (self w) "lambda_p" = Some lambda_p →
  num_of (self w) "Q_s_0" = Some Q_s_0 →
  self w !! "B" = Some (VArr B) →
  z_is (self w) z_prev →
  ∃ w' z_ext',
    outer_step w = Ok (tt, w') ∧
    trace w' = trace w ++ replicate (Z.to_nat niter) SpSolve ∧
    modifies step_keys w w' ∧
    prepared n (self w') ∧
    num_of (self w') "t" = Some (t + dt) ∧
    self w' !! "z_ext" = Some (VArr z_ext') ∧
    self w' !! "z" = Some (VArr (interior z_ext')) ∧
    self w' !! "zold" = Some (VArr z_prev) ∧
    self w' !! "dz_dt"
      = Some (VArr (map (λ v, v / dt)
                      (zip_with Rminus (interior z_ext') z_prev))) ∧
    self w' !! "Qs_internal"
      = Some (VArr (map (λ v, v + Q_s_0)
                (zip_with Rmult
                   (map (Rmult (1 / (1 - lambda_p)))
                      (np_cumsum (map (λ v, v / dt)
                         (zip_with Rminus (interior z_ext') z_prev))))
                   B))).
Proof.
  intros Hp Hni Ht Hdt Hlam HQs HB Hz.
  destruct (outer_step_solves n w niter t dt lambda_p Q_s_0 B z_prev
              Hp Hni Ht Hdt Hlam HQs HB Hz)
    as (w' & ze & H1 & H2 & H3 & H4 & H5 & H6 & H7 & H8 & H9 & H10 & _).
  exists w', ze. repeat (split; [assumption|]). assumption.
Qed.


Lemma prepared_reads n m :
  prepared n m →
  ∃ niter t dt lambda_p Q_s_0 B z,
    m !! "niter" = Some (VInt niter) ∧ num_of m "t" = Some t ∧
    num_of m "dt" = Some dt ∧ num_of m "lambda_p" = Some lambda_p ∧
    num_of m "Q_s_0" = Some Q_s_0 ∧ m !! "B" = Some (VArr B) ∧ z_is m z.
Proof.
  intros (Hc & _ & (dt & Hdt)). open_configured Hc.
  by exists niter, t, dt, lambda_p, Q_s_0, B, z.
Qed.

(** The outer loop: [k] steps from a prepared segment. *)
Lemma outer_loop_run n k w niter t dt :
  prepared n (self w) →
  self w !! "niter" = Some (VInt niter) →
  num_of (self w) "t" = Some t →
  num_of (self w) "dt" = Some dt →
  ∃ w', repeat_m k outer_step w = Ok (tt, w') ∧
        trace w' = trace w ++ replicate (k * Z.to_nat niter) SpSolve ∧
        num_of (self w') "t" = Some (t + INR k * dt) ∧
        prepared n (self w').
Proof.
  revert w t. induction k as [|k IH]; intros w t Hp Hni Ht Hdt.
  - exists w. split; [done|]. split; [by rewrite app_nil_r|].
    split; [|done]. rewrite Ht. f_equal. simpl. lra.
  - destruct (prepared_reads _ _ Hp)
      as (ni & t0 & dt0 & lam & Qs & B & z & Hni' & Ht' & Hdt' & Hlam & HQs
          & HB & Hz).
    rewrite Hni in Hni'. injection Hni' as <-.
    rewrite Ht in Ht'. injection Ht' as <-.
    rewrite Hdt in Hdt'. injection Hdt' as <-.
    destruct (outer_step_run n w niter t dt lam Qs B z Hp Hni Ht Hdt Hlam
                HQs HB Hz)
      as (w1 & ze1 & Hstep & Htr1 & Hm1 & Hp1 & Ht1 & _).
    assert (self w1 !! "niter" = Some (VInt niter)) as Hni1.
    { rewrite Hm1 by (unfold step_keys; list_decide). done. }
    assert (num_of (self w1) "dt" = Some dt) as Hdt1.
    { rewrite (modifies_num_of _ _ _ _ Hm1)
        by (unfold step_keys; list_decide). done. }
    destruct (IH w1 (t + dt) Hp1 Hni1 Ht1 Hdt1)
      as (w2 & Hrest & Htr2 & Ht2 & Hp2).
    exists w2. cbn [repeat_m]. rewrite (bind_run _ _ _ _ _ Hstep).
    split; [done|]. split; [|split; [|done]].
    + rewrite Htr2, Htr1, <- app_assoc, <- replicate_add. done.
    + rewrite Ht2. f_equal. rewrite S_INR. lra.
Qed.

Lemma evolve_run n w nt dt up down niter t :
  configured n (self w) →
  self w !! "upstream_segment_IDs" = Some (VIds up) →
  self w !! "downstream_segment_IDs" = Some (VIds down) →
  self w !! "niter" = Some (VInt niter) →
  num_of (self w) "t" = Some t →
  ∃ w', evolve_threshold_width_river nt dt w = Ok (tt, w') ∧
        trace w' = trace w ++ evolve_events up down nt niter ∧
        num_of (self w') "t" = Some (t + INR (Z.to_nat nt) * dt) ∧
        prepared n (self w').
Proof.
  intros Hc Hup Hdown Hni Ht.
  assert (has_num (self w) "z_bl") as (z_bl & Hzbl) by apply Hc.
  set (tr := match up, down with
             | [], [] => trace w
             | _, _ => trace w ++ [Warn unset_boundary_warning]
             end).
  set (w0 := World (<["nt" := VInt nt]> (self w)) tr).
  assert (configured n (self w0)) as Hc0.
  { apply configured_insert_other; [list_decide|done]. }
  destruct (build_LHS_coeff_C0_ok n w0 dt Hc0)
    as (w1 & Hb & Hm1 & Hp1 & Hdt1 & Htr1).
  assert (∀ k, k ∉ ["nt"; "dt"; "C0"] → self w1 !! k = self w !! k) as Hfr.
  { intros k Hk. rewrite Hm1.
    - cbn [w0 self]. rewrite lookup_insert_ne; [done|].
      intros <-. apply Hk. list_decide.
    - intros Hin. apply Hk. by right. }
  assert (num_of (self w1) "z_bl" = Some z_bl) as Hzbl1.
  { unfold num_of in *. by rewrite Hfr by list_decide. }
  assert (self w1 !! "nt" = Some (VInt nt)) as Hnt1.
  { rewrite Hm1 by list_decide. cbn [w0 self]. by rewrite lookup_insert_eq. }
  destruct (prepared_z_ext _ _ Hp1) as (ze & Hze & Lze).
  set (w2 := World (<["z_ext" := VArr (<[(length ze - 1)%nat := z_bl]> ze)]>
                      (<["z_bl" := VNum z_bl]> (self w1))) (trace w1)).
  assert (prepared n (self w2)) as Hp2.
  { cbn [w2 self].
    apply prepared_insert; [done|done| |].
    { apply configured_insert_z_ext; [len_solve|].
      apply configured_insert_num; [by right|]. apply Hp1. }
    apply prepared_insert; [done|done| |done].
    apply configured_insert_num; [by right|]. apply Hp1. }
  assert (self w2 !! "niter" = Some (VInt niter)) as Hni2.
  { cbn [w2 self]. rewrite !lookup_insert_ne by done.
    by rewrite Hfr by list_decide. }
  assert (num_of (self w2) "t" = Some t) as Ht2.
  { cbn [w2 self]. rewrite !num_of_insert_ne by done.
    unfold num_of in *. by rewrite Hfr by list_decide. }
  assert (num_of (self w2) "dt" = Some dt) as Hdt2.
  { cbn [w2 self]. by rewrite !num_of_insert_ne by done. }
  destruct (outer_loop_run n (Z.to_nat nt) w2 niter t dt Hp2 Hni2 Ht2 Hdt2)
    as (w3 & Hloop & Htr3 & Ht3 & Hp3).
  destruct (num_of_value _ _ _ Hzbl1) as (vbl & Hvbl & Nvbl & Avbl).
  exists w3. split.
  { unfold evolve_threshold_width_river, set_z_bl.
    destruct up as [|u up], down as [|d down]; run; unfold warn; run;
      rewrite (bind_run _ _ _ _ _ Hb); run;
      rewrite Nvbl; run; rewrite Avbl; run;
      exact Hloop. }
  split; [|done].
  rewrite Htr3. cbn [w2 trace]. rewrite Htr1. cbn [w0 trace].
  unfold tr, evolve_events.
  destruct up as [|u up], down as [|d down]; by rewrite <- ?app_assoc.
Qed.


Lemma nth_cumsum_from acc a i :
  (i < length a)%nat →
  nth i (cumsum_from acc a) 0 = acc + Rsum (take (S i) a).
Proof.
  revert acc i. induction a as [|x a IH]; intros acc i Hi; [simpl in Hi; lia|].
  destruct i as [|i]; cbn [cumsum_from nth take Rsum foldr].
  - rewrite take_0. simpl. lra.
  - rewrite IH by (simpl in Hi; lia). unfold Rsum. simpl. lra.
Qed.

Lemma nth_np_cumsum a i :
  (i < length a)%nat → nth i (np_cumsum a) 0 = Rsum (take (S i) a).
Proof.
  intros Hi. destruct a as [|x a]; [simpl in Hi; lia|].
  destruct i as [|i]; cbn [np_cumsum nth take Rsum foldr].
  - rewrite take_0. simpl. lra.
  - rewrite nth_cumsum_from by (simpl in Hi; lia). unfold Rsum. simpl. lra.
Qed.

Lemma solver_calls_app a b :
  solver_calls (a ++ b) = (solver_calls a + solver_calls b)%nat.
Proof. unfold solver_calls. by rewrite List.filter_app, length_app. Qed.

Lemma solver_calls_replicate k : solver_calls (replicate k SpSolve) = k.
Proof.
  unfold solver_calls. induction k as [|k IH]; [done|]. simpl. by rewrite IH.
Qed.

(** C6. A sweep of the inner loop is one run of build_matrices followed by
    one call of the solver on the LHSmatrix and RHS just assembled, whose
    solution spsolve(LHSmatrix, RHS) replaces z_ext[1:-1], the two ghost
    nodes being kept.  Each outer step of evolve_threshold_width_river runs
    exactly niter such sweeps, then commits z = z_ext[1:-1] as an array of
    its own (for niter > 0 the solution of the system that the last sweep
    left in LHSmatrix and RHS), advances t by dt, sets
    dz_dt = (z - zold) / dt with zold the elevation held when the step began,
    and sets Qs_internal = 1/(1 - lambda_p) * cumsum(dz_dt) * B + Q_s_0;
    a whole call with nt >= 0 steps returns normally, has called the solver
    nt * niter times and has advanced t by nt * dt. *)
Theorem evolve_outer_steps (n : nat) (w : world) (nt niter : Z) (t dt : R)
    (up down : list Z) :
  configured n (self w) →
  self w !! "upstream_segment_IDs" = Some (VIds up) →
  self w !! "downstream_segment_IDs" = Some (VIds down) →
  self w !! "niter" = Some (VInt niter) →
  num_of (self w) "t" = Some t →
  (0 ≤ nt)%Z →
  (∀ w0, prepared n (self w0) →
     ∃ w1 A b z_ext,
       build_matrices w0 = Ok (tt, w1) ∧
       self w1 !! "LHSmatrix" = Some (VMat A) ∧
       self w1 !! "RHS" = Some (VArr b) ∧
       self w1 !! "z_ext" = Some (VArr z_ext) ∧
       length z_ext = (n + 2)%nat ∧ length b = n ∧
       sweep w0
       = Ok (tt, World (<["z_ext" := VArr (take 1 z_ext ++ spsolve A b
                                             ++ drop (n + 1) z_ext)]>
                          (self w1))
                       (trace w0 ++ [SpSolve]))) ∧
  (∀ w0 t0 dt0 lambda_p Q_s_0 B z_prev,
     prepared n (self w0) →
     self w0 !! "niter" = Some (VInt niter) →
     num_of (self w0) "t" = Some t0 →
     num_of (self w0) "dt" = Some dt0 →
     num_of (self w0) "lambda_p" = Some lambda_p →
     num_of (self w0) "Q_s_0" = Some Q_s_0 →
     self w0 !! "B" = Some (VArr B) →
     z_is (self w0) z_prev →
     ∃ w1 z_ext z dz_dt Qs_internal,
       outer_step w0 = Ok (tt, w1) ∧
       trace w1 = trace w0 ++ replicate (Z.to_nat niter) SpSolve ∧
       self w1 !! "z_ext" = Some (VArr z_ext) ∧
       self w1 !! "z" = Some (VArr z) ∧ z = interior z_ext ∧
       ((0 < niter)%Z →
        ∃ A b, self w1 !! "LHSmatrix" = Some (VMat A) ∧
               self w1 !! "RHS" = Some (VArr b) ∧
               z = spsolve A b) ∧
       num_of (self w1) "t" = Some (t0 + dt0) ∧
       self w1 !! "zold" = Some (VArr z_prev) ∧
       self w1 !! "dz_dt" = Some (VArr dz_dt) ∧
       self w1 !! "Qs_internal" = Some (VArr Qs_internal) ∧
       length z = n ∧ length dz_dt = n ∧ length Qs_internal = n ∧
       ∀ i, (i < n)%nat →
         nth i dz_dt 0 = (nth i z 0 - nth i z_prev 0) / dt0 ∧
         nth i (np_cumsum dz_dt) 0 = Rsum (take (S i) dz_dt) ∧
         nth i Qs_internal 0
         = 1 / (1 - lambda_p) * nth i (np_cumsum dz_dt) 0 * nth i B 0
           + Q_s_0) ∧
  ∃ w',
    evolve_threshold_width_river nt dt w = Ok (tt, w') ∧
    trace w' = trace w ++ evolve_events up down nt niter ∧
    solver_calls (evolve_events up down nt niter)
    = (Z.to_nat nt * Z.to_nat niter)%nat ∧
    num_of (self w') "t" = Some (t + IZR nt * dt).
Proof.
  intros Hc Hup Hdown Hni Ht Hnt. split; [|split].
  - intros w0 Hp0. apply sweep_solves, Hp0.
  - intros w0 t0 dt0 lambda_p Q_s_0 B z_prev Hp0 Hni0 Ht0 Hdt0 Hlam HQs HB Hz.
    destruct (outer_step_solves n w0 niter t0 dt0 lambda_p Q_s_0 B z_prev
                Hp0 Hni0 Ht0 Hdt0 Hlam HQs HB Hz)
      as (w1 & ze & Hrun & Htr & _ & Hp1 & Ht1 & Hze & Hz1 & Hzold & Hdz & HQ
          & Hsol).
    assert (length ze = (n + 2)%nat ∧ length B = n ∧ length z_prev = n)
      as (Lze & LB & Lz).
    { destruct Hp1 as ([_ (ze' & Hze' & Lze') _ _ (B' & HB' & LB')] & _).
      destruct Hp0 as ([_ (ze0 & Hze0 & Lze0) (z0 & Hz0 & Lz0) _
                        (B0 & HB0 & LB0)] & _).
      split; [congruence|]. split; [congruence|].
      destruct Hz as [Hz|(Hz & zea & Hzea & ->)];
        destruct Hz0 as [Hz0|(Hz0 & zeb & Hzeb & ->)]; congruence. }
    eexists w1, ze, (interior ze), _, _.
    do 4 (split; [done|]). split; [done|].
    split; [intros Hk; apply Hsol; lia|].
    do 4 (split; [done|]).
    split; [len_solve|]. split; [len_solve|]. split; [len_solve|].
    intros i Hi. split; [|split].
    + rewrite nth_map_lt, nth_zip_with_lt by len_solve. done.
    + apply nth_np_cumsum. len_solve.
    + rewrite nth_map_lt, nth_zip_with_lt, nth_map_lt by len_solve. done.
  - destruct (evolve_run n w nt dt up down niter t Hc Hup Hdown Hni Ht)
      as (w' & Hrun & Htr & Ht' & _).
    exists w'. split; [done|]. split; [done|]. split.
    + unfold evolve_events.
      rewrite solver_calls_app, solver_calls_replicate.
      by destruct up, down.
    + rewrite Ht'. rewrite INR_IZR_INZ, Z2Nat.id by done. done.
Qed.



(** ** Which exceptions, which attributes *)

Lemma bind_ok_inv {A B} (m : M A) (f : A → M B) w r :
  (m ≫= f) w = Ok r → ∃ a w1, m w = Ok (a, w1) ∧ f a w1 = Ok r.
Proof.
  unfold mbind, M_bind, bind. destruct (m w) as [[a w1]|e]; [|done]. eauto.
Qed.

Lemma no_exit_bind {A B} (m : M A) (f : A → M B) :
  no_exit m → (∀ a, no_exit (f a)) → no_exit (m ≫= f).
Proof.
  intros Hm Hf w msg. unfold mbind, M_bind, bind.
  destruct (m w) as [[a w1]|e] eqn:E; [apply Hf|].
  intros [= ->]. by apply (Hm w msg).
Qed.

Lemma no_exit_ret {A} (a : A) : no_exit (mret a).
Proof. by intros w msg. Qed.

Lemma no_exit_raise {A} e : (∀ msg, e ≠ SystemExit msg) → no_exit (@raise A e).
Proof. intros He w msg [= ->]. by apply (He msg). Qed.

Lemma no_exit_lift {A} (r : result A) :
  (∀ msg, r ≠ Raise (SystemExit msg)) → no_exit (lift r).
Proof. intros Hr w msg. destruct r; [done|]. cbn. intros [= ->]. by eapply Hr. Qed.

Lemma no_exit_getattr k : no_exit (getattr k).
Proof. intros w msg. unfold getattr. by destruct (self w !! k). Qed.

Lemma no_exit_setattr k v : no_exit (setattr k v).
Proof. by intros w msg. Qed.

Lemma no_exit_emit e : no_exit (emit e).
Proof. by intros w msg. Qed.

Lemma item_no_exit a i msg : item a i ≠ Raise (SystemExit msg).
Proof. unfold item. by destruct (a !! i). Qed.

Lemma item_back_no_exit a i msg : item_back a i ≠ Raise (SystemExit msg).
Proof. unfold item_back. destruct (_ <=? _)%nat; [apply item_no_exit|done]. Qed.

Lemma np_ones_no_exit n msg : np_ones n ≠ Raise (SystemExit msg).
Proof. unfold np_ones. by destruct (_ <? _)%Z. Qed.

Lemma as_int_no_exit v msg : as_int v ≠ Raise (SystemExit msg).
Proof. by destruct v. Qed.

Lemma no_exit_get_arr_or e k :
  (∀ msg, e ≠ SystemExit msg) → no_exit (get_arr_or e k).
Proof.
  intros He. unfold get_arr_or. apply no_exit_bind; [apply no_exit_getattr|].
  intros [| | | |b| |]; try (apply no_exit_raise; done); try apply no_exit_ret.
  apply no_exit_bind; [apply no_exit_getattr|].
  intros []; try (apply no_exit_raise; done); apply no_exit_ret.
Qed.

Lemma no_exit_get_item k i : no_exit (get_item k i).
Proof.
  unfold get_item, get_arr.
  apply no_exit_bind; [by apply no_exit_get_arr_or|].
  intros a. apply no_exit_lift. intros. apply item_no_exit.
Qed.

Lemma no_exit_get_item_back k i : no_exit (get_item_back k i).
Proof.
  unfold get_item_back, get_arr.
  apply no_exit_bind; [by apply no_exit_get_arr_or|].
  intros a. apply no_exit_lift. intros. apply item_back_no_exit.
Qed.

Lemma no_exit_get_int k : no_exit (get_int k).
Proof.
  unfold get_int. apply no_exit_bind; [apply no_exit_getattr|].
  intros v. apply no_exit_lift. intros. apply as_int_no_exit.
Qed.

Ltac no_exit_solve :=
  repeat first
    [ apply no_exit_ret | apply no_exit_setattr | apply no_exit_getattr
    | apply no_exit_emit | apply no_exit_get_item | apply no_exit_get_item_back
    | apply no_exit_get_int
    | apply no_exit_get_arr_or; done
    | apply no_exit_raise; done
    | apply no_exit_lift; intros; apply np_ones_no_exit
    | apply no_exit_bind; [|intros ?] ].

(** ** C2, C3: the grid *)

(** What set_x runs after its branch: nx, the domain length, the check of a
    supplied nx. *)
Lemma set_x_tail_no_exit (nx : option Z) :
  no_exit
    (xs ← get_arr "x";
     setattr "nx" (VInt (Z.of_nat (length xs)));;
     hi ← get_item_back "x_ext" 1;
     lo ← get_item "x_ext" 0;
     setattr "L" (VNum (hi - lo));;
     match nx with
     | Some nx =>
         self_nx ← get_int "nx";
         if (nx =? self_nx)%Z then mret tt
         else warn "Choosing x length instead of supplied nx"
     | None => mret tt
     end).
Proof.
  unfold get_arr, warn. no_exit_solve. destruct nx as [nx|]; no_exit_solve.
  destruct (_ =? _)%Z; no_exit_solve.
Qed.

Lemma set_x_exit_only_without_grid x x_ext dx nx x0 w msg :
  set_x x x_ext dx nx x0 w = Raise (SystemExit msg) →
  x = None ∧ x_ext = None ∧ (dx = None ∨ nx = None ∨ x0 = None).
Proof.
  intros Hx.
  destruct x as [x|].
  { exfalso. revert Hx. unfold set_x.
    apply no_exit_bind; [no_exit_solve|].
    intros _. apply set_x_tail_no_exit. }
  destruct x_ext as [[l|xe]|].
  { exfalso. revert Hx. unfold set_x.
    apply no_exit_bind; [no_exit_solve|].
    intros _. apply set_x_tail_no_exit. }
  { exfalso. revert Hx. unfold set_x.
    apply no_exit_bind; [no_exit_solve|].
    intros _. apply set_x_tail_no_exit. }
  destruct dx as [dx|]; [|by auto].
  destruct nx as [nx|]; [|by auto].
  destruct x0 as [x0|]; [|by auto].
  exfalso. revert Hx. unfold set_x.
  apply no_exit_bind; [|intros _; apply (set_x_tail_no_exit (Some nx))].
  destruct (np_arange x0 _ dx); [|no_exit_solve].
  apply no_exit_bind; [no_exit_solve|]. intros _.
  destruct (np_arange (x0 - dx) _ dx); no_exit_solve.
Qed.

Lemma set_x_without_grid dx nx x0 w :
  dx = None ∨ nx = None ∨ x0 = None →
  set_x None None dx nx x0 w
  = Raise (SystemExit "Need x OR x_ext OR (dx, nx, x0)").
Proof.
  intros Hn. unfold set_x.
  destruct dx, nx, x0; try done; destruct Hn as [?|[?|?]]; done.
Qed.

(** set_x(x_ext=...) with a non-empty ndarray, whatever else is passed. *)
Lemma set_x_ext_run xe dx nx x0 w :
  (0 < length xe)%nat →
  ∃ w',
    set_x None (Some (NdArray xe)) dx nx x0 w = Ok (tt, w') ∧
    self w' !! "x_ext" = Some (VArr xe) ∧
    self w' !! "x" = Some (VArr (interior xe)) ∧
    self w' !! "dx" = Some (VArr (np_diff (interior xe))) ∧
    self w' !! "dx_ext" = Some (VArr (np_diff xe)) ∧
    self w' !! "dx_2cell" = Some (VArr (diff2 (interior xe))) ∧
    self w' !! "dx_ext_2cell" = Some (VArr (diff2 xe)) ∧
    self w' !! "nx" = Some (VInt (Z.of_nat (length (interior xe)))) ∧
    self w' !! "L"
      = Some (VNum (nth (length xe - 1) xe 0 - nth 0 xe 0)) ∧
    trace w'
      = trace w ++
        match nx with
        | Some nx =>
            if (nx =? Z.of_nat (length (interior xe)))%Z then []
            else [Warn "Choosing x length instead of supplied nx"]
        | None => []
        end.
Proof.
  intros Lxe. unfold set_x.
  destruct nx as [nx|].
  - destruct (nx =? Z.of_nat (length (interior xe)))%Z eqn:E.
    + eexists. split; [run; rewrite E; run; reflexivity|].
      do 8 (split; [lookup_solve|]). cbn [trace]. by rewrite app_nil_r.
    + eexists. split; [run; rewrite E; unfold warn; run; reflexivity|].
      do 8 (split; [lookup_solve|]). done.
  - eexists. split; [run; reflexivity|].
    do 8 (split; [lookup_solve|]). cbn [trace]. by rewrite app_nil_r.
Qed.

(** set_x(x_ext=...) with a list. *)
Lemma set_x_ext_list_raises l dx nx x0 w :
  set_x None (Some (PyList l)) dx nx x0 w = Raise TypeError.
Proof. unfold set_x. by run. Qed.

(** set_x(x=...) on an object that holds a non-empty x_ext. *)
Lemma set_x_given_x_run xv x_ext dx nx x0 w xe0 :
  self w !! "x_ext" = Some (VArr xe0) → (0 < length xe0)%nat →
  ∃ w',
    set_x (Some xv) x_ext dx nx x0 w = Ok (tt, w') ∧
    self w' !! "x" = Some (VArr xv) ∧
    self w' !! "dx" = Some (VArr (np_diff xv)) ∧
    self w' !! "dx_2cell" = Some (VArr (diff2 xv)) ∧
    self w' !! "x_ext" = Some (VArr xe0) ∧
    self w' !! "nx" = Some (VInt (Z.of_nat (length xv))) ∧
    self w' !! "L"
      = Some (VNum (nth (length xe0 - 1) xe0 0 - nth 0 xe0 0)) ∧
    trace w'
      = trace w ++
        match nx with
        | Some nx =>
            if (nx =? Z.of_nat (length xv))%Z then []
            else [Warn "Choosing x length instead of supplied nx"]
        | None => []
        end.
Proof.
  intros Hxe Lxe. unfold set_x.
  destruct nx as [nx|].
  - destruct (nx =? Z.of_nat (length xv))%Z eqn:E.
    + eexists. split; [run; rewrite E; run; reflexivity|].
      do 6 (split; [lookup_solve|]). cbn [trace]. by rewrite app_nil_r.
    + eexists. split; [run; rewrite E; unfold warn; run; reflexivity|].
      do 6 (split; [lookup_solve|]). done.
  - eexists. split; [run; reflexivity|].
    do 6 (split; [lookup_solve|]). cbn [trace]. by rewrite app_nil_r.
Qed.

(** C2 (as amended). set_x called with none of the three grid
    specifications exits with the configuration error
    "Need x OR x_ext OR (dx, nx, x0)", and that is the only way set_x ends in
    a configuration error.  Conflicting specifications are not detected.
    x takes precedence over x_ext and over (dx, nx, x0): with x given the
    call is the call with x alone (nx only serves the length warning), and
    on an object that holds a non-empty x_ext it returns with x, dx and
    dx_2cell computed from the argument x, the stored x_ext left as it was.
    x_ext takes precedence over (dx, nx, x0): without x the call is the call
    with x_ext alone; in particular
    set_x(x_ext=..., dx=..., nx=..., x0=...) with a non-empty ndarray x_ext
    returns normally with the grid of x_ext alone, and issues the warning
    "Choosing x length instead of supplied nx" when nx is not the number of
    interior nodes.  (A list passed as x_ext ends in the TypeError of
    self.x[2:] - self.x[:-2], which is no configuration error.) *)
Theorem set_x_configuration_errors
    (x : option (list R)) (x_ext : option array_like) (dx : option R)
    (nx : option Z) (x0 : option R) (w : world) :
  (x = None → x_ext = None → dx = None ∨ nx = None ∨ x0 = None →
   set_x x x_ext dx nx x0 w
   = Raise (SystemExit "Need x OR x_ext OR (dx, nx, x0)")) ∧
  (∀ msg, set_x x x_ext dx nx x0 w = Raise (SystemExit msg) →
   x = None ∧ x_ext = None ∧ (dx = None ∨ nx = None ∨ x0 = None)) ∧
  (* x before x_ext and (dx, nx, x0) *)
  (∀ xv, x = Some xv →
   set_x x x_ext dx nx x0 w = set_x (Some xv) None None nx None w ∧
   ∀ xe0, self w !! "x_ext" = Some (VArr xe0) → (0 < length xe0)%nat →
     ∃ w',
       set_x x x_ext dx nx x0 w = Ok (tt, w') ∧
       self w' !! "x" = Some (VArr xv) ∧
       self w' !! "dx" = Some (VArr (np_diff xv)) ∧
       self w' !! "dx_2cell" = Some (VArr (diff2 xv)) ∧
       self w' !! "x_ext" = Some (VArr xe0) ∧
       self w' !! "nx" = Some (VInt (Z.of_nat (length xv)))) ∧
  (* x_ext before (dx, nx, x0) *)
  (∀ xe, x = None → x_ext = Some xe →
   set_x x x_ext dx nx x0 w = set_x None (Some xe) None nx None w) ∧
  (∀ xe, x = None → x_ext = Some (NdArray xe) → (0 < length xe)%nat →
   ∃ w',
     set_x x x_ext dx nx x0 w = Ok (tt, w') ∧
     self w' !! "x_ext" = Some (VArr xe) ∧
     self w' !! "x" = Some (VArr (interior xe)) ∧
     self w' !! "dx_ext" = Some (VArr (np_diff xe)) ∧
     self w' !! "dx_ext_2cell" = Some (VArr (diff2 xe)) ∧
     self w' !! "nx" = Some (VInt (Z.of_nat (length (interior xe)))) ∧
     trace w'
       = trace w ++
         match nx with
         | Some nx =>
             if (nx =? Z.of_nat (length (interior xe)))%Z then []
             else [Warn "Choosing x length instead of supplied nx"]
         | None => []
         end) ∧
  (∀ l, x = None → x_ext = Some (PyList l) →
   set_x x x_ext dx nx x0 w = Raise TypeError).
Proof.
  split; [|split; [|split; [|split; [|split]]]].
  - intros -> -> Hn. by apply set_x_without_grid.
  - intros msg. apply set_x_exit_only_without_grid.
  - intros xv ->. split; [done|]. intros xe0 Hxe Lxe.
    destruct (set_x_given_x_run xv x_ext dx nx x0 w xe0 Hxe Lxe)
      as (w' & Hrun & H1 & H2 & H3 & H4 & H5 & _).
    exists w'. by repeat split.
  - intros xe -> ->. by destruct xe.
  - intros xe -> -> Lxe.
    destruct (set_x_ext_run xe dx nx x0 w Lxe)
      as (w' & Hrun & H1 & H2 & _ & H3 & _ & H4 & H5 & _ & Htr).
    exists w'. by repeat split.
  - intros l -> ->. apply set_x_ext_list_raises.
Qed.

Lemma bind_raise {A B} (m : M A) (f : A → M B) w e :
  m w = Raise e → (m ≫= f) w = Raise e.
Proof. unfold mbind, M_bind, bind. by intros ->. Qed.

Lemma getattr_absent k w :
  self w !! k = None → getattr k w = Raise AttributeError.
Proof. unfold getattr. by intros ->. Qed.

(** set_x(x=...) on an object that has no attribute x_ext. *)
Lemma set_x_alone_raises x dx nx x0 w :
  self w !! "x_ext" = None →
  set_x (Some x) None dx nx x0 w = Raise AttributeError.
Proof.
  intros Hx. unfold set_x. run.
  apply bind_raise. unfold get_item_back, get_arr, get_arr_or.
  do 2 apply bind_raise. apply getattr_absent. lookup_solve.
Qed.


(** ** C10: set_Q and the sediment supply *)

Lemma assigns_bind ks {A B} (m : M A) (f : A → M B) :
  assigns ks m → (∀ a, assigns ks (f a)) → assigns ks (m ≫= f).
Proof.
  intros Hm Hf w b w' Hrun.
  apply bind_ok_inv in Hrun as (a & w1 & Hm1 & Hf1).
  eapply modifies_trans; [by eapply Hm|by eapply Hf].
Qed.

Lemma assigns_ret ks {A} (a : A) : assigns ks (mret a).
Proof. intros w b w' [= _ <-]. apply modifies_refl. Qed.

Lemma assigns_raise ks {A} e : assigns ks (@raise A e).
Proof. by intros w b w'. Qed.

Lemma assigns_lift ks {A} (r : result A) : assigns ks (lift r).
Proof. intros w b w'. destruct r; [|done]. intros [= _ <-]. apply modifies_refl. Qed.

Lemma assigns_getattr ks k : assigns ks (getattr k).
Proof.
  intros w b w'. unfold getattr. destruct (self w !! k); [|done].
  intros [= _ <-]. apply modifies_refl.
Qed.

Lemma assigns_setattr ks k v : k ∈ ks → assigns ks (setattr k v).
Proof.
  intros Hk w b w' [= _ <-] k' Hk'. cbn [self].
  rewrite lookup_insert_ne; [done|]. by intros <-.
Qed.

Lemma assigns_get_arr_or ks e k : assigns ks (get_arr_or e k).
Proof.
  unfold get_arr_or. apply assigns_bind; [apply assigns_getattr|].
  intros [| | | |b| |]; try apply assigns_raise; try apply assigns_ret.
  apply assigns_bind; [apply assigns_getattr|].
  intros []; try apply assigns_raise; apply assigns_ret.
Qed.

Lemma assigns_get_num ks k : assigns ks (get_num k).
Proof.
  unfold get_num. apply assigns_bind; [apply assigns_getattr|].
  intros v. apply assigns_lift.
Qed.

Lemma assigns_grid_any ks : assigns ks grid_any.
Proof.
  unfold grid_any, get_arr_obj.
  apply assigns_bind; [apply assigns_get_arr_or|]. intros x.
  destruct (np_any x); [|apply assigns_ret].
  apply assigns_bind; [apply assigns_get_arr_or|]. intros xe.
  apply assigns_ret.
Qed.

Ltac assigns_solve :=
  repeat first
    [ apply assigns_ret | apply assigns_raise | apply assigns_lift
    | apply assigns_getattr | apply assigns_get_arr_or | apply assigns_get_num
    | apply assigns_grid_any
    | apply assigns_setattr; list_decide
    | apply assigns_bind; [|intros ?] ].

Lemma bind_ext_on {A B} (m : M A) (f g : A → M B) w :
  (∀ a w1, m w = Ok (a, w1) → f a w1 = g a w1) →
  (m ≫= f) w = (m ≫= g) w.
Proof.
  intros Hfg. unfold mbind, M_bind, bind.
  destruct (m w) as [[a w1]|e]; [by apply Hfg|done].
Qed.

Lemma set_Q_fields_assigns Q Q_ext q_R A_R P_AQ k_xQ P_xQ :
  assigns ["k_xQ"; "Q"; "P_AQ"]
    (set_Q_fields Q Q_ext q_R A_R P_AQ k_xQ P_xQ).
Proof.
  unfold set_Q_fields, get_arr, get_arr_obj.
  apply assigns_bind; [destruct k_xQ; assigns_solve|]. intros _.
  destruct Q as [[q|a]|]; [assigns_solve..|].
  destruct Q_ext as [Qe|]; [assigns_solve|].
  destruct (given_nonzero q_R && given_nonzero A_R).
  - apply assigns_bind; [|intros _; assigns_solve].
    destruct P_AQ as [p|]; [destruct (truthy p)|]; assigns_solve.
  - assigns_solve. destruct (_ && _); assigns_solve.
Qed.

Lemma Q_s_0_set_false w :
  self w !! "Q_s_0" = Some VNone ∨ num_of (self w) "Q_s_0" = Some 0 →
  Q_s_0_set w = Ok (false, w).
Proof.
  intros HQ. unfold Q_s_0_set, getattr, mbind, M_bind, bind.
  destruct HQ as [->|HQ]; [done|]. unfold num_of in HQ.
  destruct (self w !! "Q_s_0") as [[|k|r| | | |]|]; try done.
  - injection HQ as HQ. apply eq_IZR_R0 in HQ as ->. done.
  - injection HQ as ->. unfold truthy.
    destruct (Req_dec_T 0 0); [done|lra].
Qed.

Lemma Q_s_0_set_true w q :
  self w !! "Q_s_0" = Some (VNum q) → q ≠ 0 →
  Q_s_0_set w = Ok (true, w).
Proof.
  intros HQ Hq. unfold Q_s_0_set, getattr, mbind, M_bind, bind.
  rewrite HQ. unfold truthy. by destruct (Req_dec_T q 0).
Qed.

(** C10. When Q_s_0 is None or is exactly 0, a call of set_Q that returns,
    default update_Qs_input=True included, leaves S0, Q_s_0 and the whole of
    z_ext as they were: set_Q assigns only k_xQ, Q, P_AQ and dQ.  The
    upstream sediment-supply condition is re-derived exactly when
    update_Qs_input is set and Q_s_0 holds a nonzero number q: then set_Q is
    set_Q without the update followed by set_Qs_input_upstream(q). *)
Theorem set_Q_keeps_boundary_without_supply
    (Q : option scalar_or_array) (Q_ext : option (list R))
    (q_R A_R P_AQ k_xQ P_xQ : option R) (update_Qs_input : bool)
    (w w' : world) :
  self w !! "Q_s_0" = Some VNone ∨ num_of (self w) "Q_s_0" = Some 0 →
  set_Q Q Q_ext q_R A_R P_AQ k_xQ P_xQ update_Qs_input w = Ok (tt, w') →
  self w' !! "S0" = self w !! "S0" ∧
  self w' !! "z_ext" = self w !! "z_ext" ∧
  self w' !! "Q_s_0" = self w !! "Q_s_0" ∧
  modifies ["k_xQ"; "Q"; "P_AQ"; "dQ"] w w' ∧
  (∀ q w0, self w0 !! "Q_s_0" = Some (VNum q) → q ≠ 0 →
     set_Q Q Q_ext q_R A_R P_AQ k_xQ P_xQ true w0
     = (set_Q Q Q_ext q_R A_R P_AQ k_xQ P_xQ false
        ≫= λ _, set_Qs_input_upstream q) w0).
Proof.
  intros HQs Hrun.
  assert (modifies ["k_xQ"; "Q"; "P_AQ"; "dQ"] w w') as Hm.
  { unfold set_Q in Hrun.
    apply bind_ok_inv in Hrun as (Qe & w1 & Hf & Hrun).
    apply set_Q_fields_assigns in Hf.
    rewrite bind_setattr in Hrun.
    set (w2 := World _ _) in Hrun.
    assert (modifies ["k_xQ"; "Q"; "P_AQ"; "dQ"] w w2) as Hm2.
    { intros k Hk. cbn [w2 self]. rewrite lookup_insert_ne.
      - apply Hf. intros Hin. apply Hk. revert Hin.
        rewrite !elem_of_cons. tauto.
      - intros <-. apply Hk. list_decide. }
    destruct update_Qs_input.
    - assert (self w2 !! "Q_s_0" = Some VNone ∨
              num_of (self w2) "Q_s_0" = Some 0) as HQs2.
      { unfold num_of. rewrite Hm2 by list_decide. done. }
      rewrite (bind_run _ _ _ _ _ (Q_s_0_set_false w2 HQs2)) in Hrun.
      injection Hrun as <-. done.
    - injection Hrun as <-. done. }
  split; [apply Hm; list_decide|]. split; [apply Hm; list_decide|].
  split; [apply Hm; list_decide|]. split; [done|].
  intros q w0 Hq Hq0. unfold set_Q. rewrite bind_assoc.
  apply bind_ext_on. intros Qe w1 Hf.
  apply set_Q_fields_assigns in Hf.
  rewrite bind_assoc, !bind_setattr.
  set (w2 := World _ _).
  assert (self w2 !! "Q_s_0" = Some (VNum q)) as Hq2.
  { cbn [w2 self]. rewrite lookup_insert_ne by done.
    rewrite Hf by list_decide. done. }
  rewrite (bind_run _ _ _ _ _ (Q_s_0_set_true w2 q Hq2 Hq0)).
  rewrite (bind_run _ _ _ _ _ (get_num_run _ _ _ (num_of_num _ _ _ Hq2))).
  by rewrite bind_ret.
Qed.


(** ** C7: ghost-padded arrays *)

Lemma pad_ghosts_run a :
  (2 ≤ length a)%nat → pad_ghosts a = Ok (extrapolated a).
Proof.
  intros La. unfold pad_ghosts.
  rewrite !item_run, !item_back_run by lia. done.
Qed.

Lemma interior_extrapolated a : interior (extrapolated a) = a.
Proof.
  unfold extrapolated, interior. cbn [app].
  rewrite length_cons, length_app. cbn [length].
  replace (S (length a + 1) - 1)%nat with (S (length a)) by lia.
  cbn [take drop]. by rewrite take_app_length.
Qed.

Lemma interior_map (f : R → R) a : interior (map f a) = map f (interior a).
Proof.
  unfold interior. by rewrite length_map, <- fmap_take, <- fmap_drop.
Qed.

Lemma grid_any_run w x xe :
  self w !! "x" = Some (VArr x) → self w !! "x_ext" = Some (VArr xe) →
  np_any x = true → np_any xe = true →
  grid_any w = Ok (true, w).
Proof.
  intros Hx Hxe Ax Axe. unfold grid_any. run. rewrite Ax. run.
  by rewrite Axe.
Qed.

Lemma set_z_interior_run z z_ext S0 z1 w :
  (2 ≤ length z)%nat →
  ∃ w', set_z (Some z) z_ext S0 z1 w = Ok (tt, w') ∧
        self w' !! "z" = Some (VArr z) ∧
        self w' !! "z_ext" = Some (VArr (extrapolated z)).
Proof.
  intros Lz. unfold set_z. eexists.
  split; [run; rewrite pad_ghosts_run by done; run; reflexivity|].
  split; lookup_solve.
Qed.

Lemma set_z_padded_run ze S0 z1 w :
  ∃ w', set_z None (Some ze) S0 z1 w = Ok (tt, w') ∧
        self w' !! "z" = Some (VView "z_ext") ∧
        self w' !! "z_ext" = Some (VArr ze) ∧
        modifies ["z_ext"; "z"] w w'.
Proof.
  unfold set_z. eexists. split; [run; reflexivity|].
  split; [lookup_solve|]. split; [lookup_solve|modifies_solve].
Qed.

Lemma set_z_slope_run S0 z1 w x xe :
  self w !! "x" = Some (VArr x) → self w !! "x_ext" = Some (VArr xe) →
  np_any x = true → np_any xe = true → (0 < length x)%nat →
  let line := λ xi, xi * S0 + (z1 - nth (length x - 1) x 0 * S0) in
  ∃ w', set_z None None (Some S0) z1 w = Ok (tt, w') ∧
        self w' !! "z" = Some (VArr (map line x)) ∧
        self w' !! "z_ext" = Some (VArr (map line xe)).
Proof.
  intros Hx Hxe Ax Axe Lx line. unfold set_z. eexists. split.
  { rewrite (bind_run _ _ _ _ _ (grid_any_run w x xe Hx Hxe Ax Axe)).
    run. reflexivity. }
  split; lookup_solve.
Qed.

Lemma set_A_interior_run A A_ext k_xA P_xA w :
  (2 ≤ length A)%nat →
  ∃ w', set_A (Some A) A_ext k_xA P_xA w = Ok (tt, w') ∧
        self w' !! "A" = Some (VArr A) ∧
        self w' !! "A_ext" = Some (VArr (extrapolated A)).
Proof.
  intros LA. unfold set_A. eexists.
  split; [run; rewrite pad_ghosts_run by done; run; reflexivity|].
  split; lookup_solve.
Qed.

Lemma set_A_padded_run Ae k_xA P_xA w :
  ∃ w', set_A None (Some Ae) k_xA P_xA w = Ok (tt, w') ∧
        self w' !! "A" = Some (VView "A_ext") ∧
        self w' !! "A_ext" = Some (VArr Ae).
Proof.
  unfold set_A. eexists. split; [run; reflexivity|]. split; lookup_solve.
Qed.

Lemma set_Q_fields_interior_run q Q_ext q_R A_R P_AQ k_xQ P_xQ w :
  (2 ≤ length q)%nat →
  ∃ w', set_Q_fields (Some (Array q)) Q_ext q_R A_R P_AQ k_xQ P_xQ w
        = Ok (extrapolated q, w') ∧
        self w' !! "Q" = Some (VArr q).
Proof.
  intros Lq. unfold set_Q_fields.
  destruct k_xQ; eexists;
    (split; [run; rewrite pad_ghosts_run by done; reflexivity|lookup_solve]).
Qed.

Lemma set_Q_fields_scalar_run q0 Q_ext q_R A_R P_AQ k_xQ P_xQ w x :
  self w !! "x" = Some (VArr x) → (2 ≤ length x)%nat →
  let q := map (Rmult q0) (replicate (length x) 1) in
  ∃ w', set_Q_fields (Some (Scalar q0)) Q_ext q_R A_R P_AQ k_xQ P_xQ w
        = Ok (extrapolated q, w') ∧
        self w' !! "Q" = Some (VArr q).
Proof.
  intros Hx Lx q. unfold set_Q_fields.
  destruct k_xQ; eexists;
    (split; [run; rewrite pad_ghosts_run by len_solve; reflexivity
            |lookup_solve]).
Qed.

Lemma set_Q_fields_padded_run Qe q_R A_R P_AQ k_xQ P_xQ w :
  ∃ w', set_Q_fields None (Some Qe) q_R A_R P_AQ k_xQ P_xQ w = Ok (Qe, w') ∧
        self w' !! "Q" = Some (VArr (interior Qe)).
Proof.
  unfold set_Q_fields.
  destruct k_xQ; eexists; (split; [run; reflexivity|lookup_solve]).
Qed.

Lemma set_Q_array_run q w :
  (2 ≤ length q)%nat → self w !! "Q_s_0" = Some VNone →
  ∃ w', set_Q (Some (Array q)) None None None None None None true w
        = Ok (tt, w').
Proof.
  intros Lq HQs. unfold set_Q, set_Q_fields. eexists. run.
  rewrite pad_ghosts_run by done. run.
  erewrite (bind_run Q_s_0_set)
    by (apply Q_s_0_set_false; left; lookup_solve).
  run. reflexivity.
Qed.

(** C7 (as amended). After set_z, set_A and set_Q on valid inputs and after
    every outer step, the interior slice of the ghost-padded array is the
    interior array: z_ext[1:-1] == z, A_ext[1:-1] == A, Q_ext[1:-1] == Q.
    The two ghost entries are the linear extrapolations 2*a[0] - a[1] and
    2*a[-1] - a[-2] when the interior array is what was passed (z, A or Q);
    when the ghost-padded array is passed (z_ext, A_ext or Q_ext) it is kept
    as given, ghost entries included; with a slope S0 both arrays are the
    same line x*S0 + (z1 - x[-1]*S0) evaluated on x and on x_ext. *)
Theorem ghost_consistency (w : world) :
  (* set_z(z=...) *)
  (∀ z z_ext S0 z1, (2 ≤ length z)%nat →
     ∃ w' ze, set_z (Some z) z_ext S0 z1 w = Ok (tt, w') ∧
       arr_of (self w') "z" = Some z ∧
       self w' !! "z_ext" = Some (VArr ze) ∧ interior ze = z ∧
       nth 0 ze 0 = 2 * nth 0 z 0 - nth 1 z 0 ∧
       nth (length ze - 1) ze 0
       = 2 * nth (length z - 1) z 0 - nth (length z - 2) z 0) ∧
  (* set_z(z_ext=...) *)
  (∀ ze S0 z1,
     ∃ w', set_z None (Some ze) S0 z1 w = Ok (tt, w') ∧
       arr_of (self w') "z" = Some (interior ze) ∧
       self w' !! "z_ext" = Some (VArr ze)) ∧
  (* set_z(S0=..., z1=...) on a grid with x_ext[1:-1] == x *)
  (∀ S0 z1 x xe,
     self w !! "x" = Some (VArr x) → self w !! "x_ext" = Some (VArr xe) →
     interior xe = x → np_any x = true → np_any xe = true →
     (0 < length x)%nat →
     ∃ w' z ze, set_z None None (Some S0) z1 w = Ok (tt, w') ∧
       arr_of (self w') "z" = Some z ∧
       self w' !! "z_ext" = Some (VArr ze) ∧ interior ze = z ∧
       ze = map (λ xi, xi * S0 + (z1 - nth (length x - 1) x 0 * S0)) xe) ∧
  (* set_A(A=...) *)
  (∀ A A_ext k_xA P_xA, (2 ≤ length A)%nat →
     ∃ w' Ae, set_A (Some A) A_ext k_xA P_xA w = Ok (tt, w') ∧
       arr_of (self w') "A" = Some A ∧
       self w' !! "A_ext" = Some (VArr Ae) ∧ interior Ae = A ∧
       nth 0 Ae 0 = 2 * nth 0 A 0 - nth 1 A 0 ∧
       nth (length Ae - 1) Ae 0
       = 2 * nth (length A - 1) A 0 - nth (length A - 2) A 0) ∧
  (* set_A(A_ext=...) *)
  (∀ Ae k_xA P_xA,
     ∃ w', set_A None (Some Ae) k_xA P_xA w = Ok (tt, w') ∧
       arr_of (self w') "A" = Some (interior Ae) ∧
       self w' !! "A_ext" = Some (VArr Ae)) ∧
  (* set_Q(Q=...) with an array: Q_ext is the local array of the method *)
  (∀ q Q_ext q_R A_R P_AQ k_xQ P_xQ, (2 ≤ length q)%nat →
     ∃ w' Qe,
       set_Q_fields (Some (Array q)) Q_ext q_R A_R P_AQ k_xQ P_xQ w
       = Ok (Qe, w') ∧
       arr_of (self w') "Q" = Some q ∧ interior Qe = q ∧
       nth 0 Qe 0 = 2 * nth 0 q 0 - nth 1 q 0 ∧
       nth (length Qe - 1) Qe 0
       = 2 * nth (length q - 1) q 0 - nth (length q - 2) q 0) ∧
  (* set_Q(Q=...) with a scalar, on a grid of at least two nodes *)
  (∀ q0 Q_ext q_R A_R P_AQ k_xQ P_xQ x,
     self w !! "x" = Some (VArr x) → (2 ≤ length x)%nat →
     ∃ w' q Qe,
       set_Q_fields (Some (Scalar q0)) Q_ext q_R A_R P_AQ k_xQ P_xQ w
       = Ok (Qe, w') ∧
       arr_of (self w') "Q" = Some q ∧ interior Qe = q ∧
       length q = length x ∧ (∀ i, (i < length x)%nat → nth i q 0 = q0 * 1) ∧
       nth 0 Qe 0 = 2 * nth 0 q 0 - nth 1 q 0 ∧
       nth (length Qe - 1) Qe 0
       = 2 * nth (length q - 1) q 0 - nth (length q - 2) q 0) ∧
  (* set_Q(Q_ext=...) *)
  (∀ Qe q_R A_R P_AQ k_xQ P_xQ,
     ∃ w', set_Q_fields None (Some Qe) q_R A_R P_AQ k_xQ P_xQ w
           = Ok (Qe, w') ∧
       arr_of (self w') "Q" = Some (interior Qe)) ∧
  (* every outer step of evolve_threshold_width_river *)
  (∀ n, prepared n (self w) →
     ∃ w' z ze, outer_step w = Ok (tt, w') ∧
       arr_of (self w') "z" = Some z ∧
       self w' !! "z_ext" = Some (VArr ze) ∧ interior ze = z).
Proof.
  assert (Hends : ∀ a, (2 ≤ length a)%nat →
    nth 0 (extrapolated a) 0 = 2 * nth 0 a 0 - nth 1 a 0 ∧
    nth (length (extrapolated a) - 1) (extrapolated a) 0
    = 2 * nth (length a - 1) a 0 - nth (length a - 2) a 0).
  { intros a La. split; [done|]. unfold extrapolated.
    cbn [app length]. rewrite length_app. cbn [length].
    replace (S (length a + 1) - 1)%nat with (S (length a)) by lia.
    cbn [nth]. rewrite List.app_nth2 by lia. by rewrite Nat.sub_diag. }
  repeat split.
  - intros z z_ext S0 z1 Lz.
    destruct (set_z_interior_run z z_ext S0 z1 w Lz) as (w' & Hr & Hz & Hze).
    exists w', (extrapolated z). destruct (Hends z Lz).
    split; [done|]. split; [by apply arr_of_arr|]. split; [done|].
    split; [apply interior_extrapolated|done].
  - intros ze S0 z1.
    destruct (set_z_padded_run ze S0 z1 w) as (w' & Hr & Hz & Hze & _).
    exists w'. split; [done|]. split; [by eapply arr_of_view|done].
  - intros S0 z1 x xe Hx Hxe Hgrid Ax Axe Lx.
    destruct (set_z_slope_run S0 z1 w x xe Hx Hxe Ax Axe Lx)
      as (w' & Hr & Hz & Hze).
    eexists w', _, _. split; [done|]. split; [by apply arr_of_arr|].
    split; [done|]. split; [|done]. by rewrite interior_map, Hgrid.
  - intros A A_ext k_xA P_xA LA.
    destruct (set_A_interior_run A A_ext k_xA P_xA w LA)
      as (w' & Hr & HA & HAe).
    exists w', (extrapolated A). destruct (Hends A LA).
    split; [done|]. split; [by apply arr_of_arr|]. split; [done|].
    split; [apply interior_extrapolated|done].
  - intros Ae k_xA P_xA.
    destruct (set_A_padded_run Ae k_xA P_xA w) as (w' & Hr & HA & HAe).
    exists w'. split; [done|]. split; [by eapply arr_of_view|done].
  - intros q Q_ext q_R A_R P_AQ k_xQ P_xQ Lq.
    destruct (set_Q_fields_interior_run q Q_ext q_R A_R P_AQ k_xQ P_xQ w Lq)
      as (w' & Hr & HQ).
    exists w', (extrapolated q). destruct (Hends q Lq).
    split; [done|]. split; [by apply arr_of_arr|].
    split; [apply interior_extrapolated|done].
  - intros q0 Q_ext q_R A_R P_AQ k_xQ P_xQ x Hx Lx.
    destruct (set_Q_fields_scalar_run q0 Q_ext q_R A_R P_AQ k_xQ P_xQ w x
                Hx Lx) as (w' & Hr & HQ).
    eexists w', _, _.
    destruct (Hends (map (Rmult q0) (replicate (length x) 1)))
      as [He1 He2]; [len_solve|].
    split; [done|]. split; [by apply arr_of_arr|].
    split; [apply interior_extrapolated|]. split; [len_solve|].
    split; [|done].
    intros i Hi. rewrite nth_map_lt by len_solve.
    by rewrite nth_lookup, lookup_replicate_2.
  - intros Qe q_R A_R P_AQ k_xQ P_xQ.
    destruct (set_Q_fields_padded_run Qe q_R A_R P_AQ k_xQ P_xQ w)
      as (w' & Hr & HQ).
    exists w'. split; [done|]. by apply arr_of_arr.
  - intros n Hp.
    destruct (prepared_reads _ _ Hp)
      as (ni & t0 & dt0 & lam & Qs & B & z & Hni & Ht & Hdt & Hlam & HQs
          & HB & Hz).
    destruct (outer_step_run n w ni t0 dt0 lam Qs B z Hp Hni Ht Hdt Hlam
                HQs HB Hz)
      as (w' & ze & Hstep & _ & _ & _ & _ & Hze & Hz' & _).
    exists w', (interior ze), ze. split; [done|].
    split; [by apply arr_of_arr|done].
Qed.


(** * Further properties of the methods *)

(** ** The upstream condition, repeated *)

(** X1. Repeating set_Qs_input_upstream with the same supply changes nothing
    that was read back after the first call: S0, Q_s_0, z_ext and every other
    attribute are as after the first call. *)
Theorem set_Qs_input_upstream_idempotent
    (w : world) (Qs_in k_Qs sinuosity intermittency : R)
    (Q z z_ext dx_ext : list R) :
  self w !! "Q" = Some (VArr Q) →
  z_is (self w) z →
  self w !! "z_ext" = Some (VArr z_ext) →
  self w !! "dx_ext" = Some (VArr dx_ext) →
  num_of (self w) "k_Qs" = Some k_Qs →
  num_of (self w) "sinuosity" = Some sinuosity →
  num_of (self w) "intermittency" = Some intermittency →
  (0 < length Q)%nat → (0 < length z)%nat →
  (0 < length z_ext)%nat → (0 < length dx_ext)%nat →
  ∃ w1 w2,
    set_Qs_input_upstream Qs_in w = Ok (tt, w1) ∧
    set_Qs_input_upstream Qs_in w1 = Ok (tt, w2) ∧
    num_of (self w2) "S0" = num_of (self w1) "S0" ∧
    num_of (self w2) "Q_s_0" = num_of (self w1) "Q_s_0" ∧
    ∀ k, k ≠ "Q_s_0" → k ≠ "S0" → self w2 !! k = self w1 !! k.
Proof.
  intros HQ Hz Hze Hdx Hk Hsn HI LQ Lz Lze Ldx.
  destruct (set_Qs_input_upstream_run w Qs_in k_Qs sinuosity intermittency
              Q z z_ext dx_ext)
    as (w1 & Hr1 & Hm1 & _ & HQs1 & HS1 & Hze1 & Hz1); try done.
  assert (∀ k, k ∉ ["Q_s_0"; "S0"; "z_ext"] →
               num_of (self w1) k = num_of (self w) k) as Hn1.
  { intros k Hk1. unfold num_of. by rewrite Hm1. }
  edestruct (set_Qs_input_upstream_run w1 Qs_in k_Qs sinuosity intermittency
              Q z)
    as (w2 & Hr2 & Hm2 & _ & HQs2 & HS2 & Hze2 & _);
    [rewrite Hm1 by list_decide; exact HQ | exact Hz1 | exact Hze1
    |rewrite Hm1 by list_decide; exact Hdx
    |rewrite Hn1 by list_decide; exact Hk
    |rewrite Hn1 by list_decide; exact Hsn
    |rewrite Hn1 by list_decide; exact HI
    |done|done|by rewrite length_insert|done|].
  exists w1, w2. split; [done|]. split; [done|].
  split; [by rewrite HS1, HS2|]. split; [by rewrite HQs1, HQs2|].
  intros k K1 K2. destruct (decide (k = "z_ext")) as [->|K3].
  - rewrite Hze2, Hze1. by rewrite list_insert_insert_eq.
  - apply Hm2. rewrite !elem_of_cons, elem_of_nil. tauto.
Qed.


(** ** The downstream base level *)

Lemma set_z_bl_run (w : world) (v : R) (z_ext : list R) :
  self w !! "z_ext" = Some (VArr z_ext) →
  (0 < length z_ext)%nat →
  set_z_bl v w
    = Ok (tt, World (<["z_ext" := VArr (<[(length z_ext - 1)%nat := v]> z_ext)]>
                       (<["z_bl" := VNum v]> (self w))) (trace w)).
Proof.
  intros Hze Lze. unfold set_z_bl. run. reflexivity.
Qed.

(** X2. set_z_bl(z_bl) on a segment whose z_ext is a nonempty array returns
    and writes only the last entry of z_ext and the attribute z_bl: the last
    entry reads back as z_bl, every other entry of z_ext is unchanged, and z
    is unchanged. *)
Theorem set_z_bl_writes_downstream_ghost
    (w : world) (v : R) (z z_ext : list R) :
  self w !! "z_ext" = Some (VArr z_ext) →
  z_is (self w) z →
  (0 < length z_ext)%nat →
  ∃ w' z_ext',
    set_z_bl v w = Ok (tt, w') ∧
    modifies ["z_bl"; "z_ext"] w w' ∧
    trace w' = trace w ∧
    num_of (self w') "z_bl" = Some v ∧
    self w' !! "z_ext" = Some (VArr z_ext') ∧
    length z_ext' = length z_ext ∧
    nth (length z_ext - 1) z_ext' 0 = v ∧
    (∀ i, (i < length z_ext - 1)%nat → nth i z_ext' 0 = nth i z_ext 0) ∧
    z_is (self w') z.
Proof.
  intros Hze Hz Lze. eexists _, _.
  split; [by apply set_z_bl_run|].
  split; [modifies_solve|]. split; [reflexivity|].
  split; [num_solve|]. split; [lookup_solve|].
  split; [by rewrite length_insert|].
  split; [|split].
  - apply nth_lookup_Some. rewrite list_lookup_insert_eq; [done|lia].
  - intros i Hi. apply nth_lookup_Some.
    rewrite list_lookup_insert_ne by lia.
    destruct (lookup_lt_is_Some_2 z_ext i) as [x Hx]; [lia|].
    rewrite Hx. f_equal. symmetry. by apply nth_lookup_Some.
  - z_is_solve.
Qed.

(** X3. set_z_bl needs z_ext: on an object that has no z_ext attribute (as
    right after construction) it raises AttributeError, and on an empty z_ext
    it raises IndexError. *)
Theorem set_z_bl_needs_z_ext (v : R) :
  set_z_bl v fresh = Raise AttributeError ∧
  (∀ w, self w !! "z_ext" = None → set_z_bl v w = Raise AttributeError) ∧
  (∀ w, self w !! "z_ext" = Some (VArr []) → set_z_bl v w = Raise IndexError).
Proof.
  assert (∀ w, self w !! "z_ext" = None → set_z_bl v w = Raise AttributeError)
    as Hnone.
  { intros w Hw. unfold set_z_bl. run. unfold store_item_back.
    erewrite bind_raise; [done|]. apply getattr_absent. lookup_solve. }
  split; [|split; [done|]].
  - apply Hnone. reflexivity.
  - intros w Hw. unfold set_z_bl. run. unfold store_item_back. run.
    reflexivity.
Qed.

(** X4. The two boundary setters commute: on a segment with at least two
    entries in z_ext, set_z_bl followed by set_Qs_input_upstream leaves the
    object in the same state as set_Qs_input_upstream followed by set_z_bl. *)
Theorem set_z_bl_commutes_with_set_Qs_input_upstream
    (w : world) (v Qs_in k_Qs sinuosity intermittency : R)
    (Q z z_ext dx_ext : list R) :
  self w !! "Q" = Some (VArr Q) →
  z_is (self w) z →
  self w !! "z_ext" = Some (VArr z_ext) →
  self w !! "dx_ext" = Some (VArr dx_ext) →
  num_of (self w) "k_Qs" = Some k_Qs →
  num_of (self w) "sinuosity" = Some sinuosity →
  num_of (self w) "intermittency" = Some intermittency →
  (0 < length Q)%nat → (0 < length z)%nat →
  (2 ≤ length z_ext)%nat → (0 < length dx_ext)%nat →
  ∃ w',
    (set_z_bl v;; set_Qs_input_upstream Qs_in) w = Ok (tt, w') ∧
    (set_Qs_input_upstream Qs_in;; set_z_bl v) w = Ok (tt, w').
Proof.
  intros HQ Hz Hze Hdx Hk Hsn HI LQ Lz Lze Ldx.
  eexists. split.
  - unfold set_z_bl, set_Qs_input_upstream. run. reflexivity.
  - unfold set_z_bl, set_Qs_input_upstream. run. f_equal. f_equal. f_equal.
    apply map_eq. intros k.
    rewrite !lookup_insert. repeat case_decide; subst; try done.
    rewrite length_insert. by rewrite list_insert_insert_ne by lia.
Qed.


(** ** The field setters: what they reject *)

Lemma pad_ghosts_short a : (length a < 2)%nat → pad_ghosts a = Raise IndexError.
Proof.
  intros La. destruct a as [|a0 [|a1 a]]; [done|done|].
  cbn [length] in La. lia.
Qed.

(** X5. An interior array of fewer than two entries cannot be ghost-padded:
    set_z(z=a), set_A(A=a) and set_Q(Q=a) raise IndexError, and so does
    set_Q with a scalar on a grid of fewer than two nodes. *)
Theorem setters_reject_short_arrays (w : world) (a : list R) :
  (length a < 2)%nat →
  (∀ z_ext S0 z1, set_z (Some a) z_ext S0 z1 w = Raise IndexError) ∧
  (∀ A_ext k_xA P_xA, set_A (Some a) A_ext k_xA P_xA w = Raise IndexError) ∧
  (∀ Q_ext q_R A_R P_AQ k_xQ P_xQ b,
     set_Q (Some (Array a)) Q_ext q_R A_R P_AQ k_xQ P_xQ b w
     = Raise IndexError) ∧
  (self w !! "x" = Some (VArr a) →
   ∀ q Q_ext q_R A_R P_AQ k_xQ P_xQ b,
     set_Q (Some (Scalar q)) Q_ext q_R A_R P_AQ k_xQ P_xQ b w
     = Raise IndexError).
Proof.
  intros La. split; [|split; [|split]].
  - intros. unfold set_z. run. by rewrite pad_ghosts_short.
  - intros. unfold set_A. run. by rewrite pad_ghosts_short.
  - intros. unfold set_Q, set_Q_fields.
    destruct k_xQ; run; by rewrite pad_ghosts_short.
  - intros Hx. intros. unfold set_Q, set_Q_fields.
    destruct k_xQ; run; by rewrite pad_ghosts_short by len_solve.
Qed.

Lemma grid_any_zero w x :
  self w !! "x" = Some (VArr x) → np_any x = false →
  grid_any w = Ok (false, w).
Proof. intros Hx Ax. unfold grid_any. run. by rewrite Ax. Qed.

Lemma grid_any_none w :
  self w !! "x" = Some VNone → grid_any w = Raise AttributeError.
Proof.
  intros Hx. unfold grid_any, get_arr_obj, get_arr_or. run. reflexivity.
Qed.

(** X6. The grid test of the calculating branches is x.any(): a grid whose
    coordinates are all zero counts as no grid.  With neither array given,
    set_z, set_A and set_Q then exit with "Error defining variable" even when
    the slope or the power-law parameters are passed, and set_B with k_xB
    returns without setting anything. *)
Theorem all_zero_grid_counts_as_missing (w : world) (x : list R) :
  self w !! "x" = Some (VArr x) →
  np_any x = false →
  (∀ S0 z1, set_z None None S0 z1 w
            = Raise (SystemExit "Error defining variable")) ∧
  (∀ k_xA P_xA, set_A None None k_xA P_xA w
                = Raise (SystemExit "Error defining variable")) ∧
  (∀ k_xQ P_xQ P_AQ b, set_Q None None None None P_AQ k_xQ P_xQ b w
                = Raise (SystemExit "Error defining variable")) ∧
  (∀ k_xB P_xB, set_B None k_xB P_xB w = Ok (tt, w)).
Proof.
  intros Hx Ax. split; [|split; [|split]].
  - intros. unfold set_z.
    rewrite (bind_run _ _ _ _ _ (grid_any_zero w x Hx Ax)). reflexivity.
  - intros. unfold set_A.
    rewrite (bind_run _ _ _ _ _ (grid_any_zero w x Hx Ax)). reflexivity.
  - intros. unfold set_Q, set_Q_fields. cbn [given_nonzero andb].
    destruct k_xQ; run.
    + erewrite (bind_run grid_any) by (eapply grid_any_zero; [lookup_solve|done]).
      reflexivity.
    + erewrite (bind_run grid_any) by (eapply grid_any_zero; [lookup_solve|done]).
      reflexivity.
  - intros. unfold set_B. destruct (given_nonzero k_xB); [|done].
    rewrite (bind_run _ _ _ _ _ (grid_any_zero w x Hx Ax)). reflexivity.
Qed.

(** X7. The calculating branches before any grid is set: while x is still
    None (as after construction), set_z, set_A and set_Q called without
    arrays, set_B called with a nonzero k_xB and set_Q or set_B called with a
    scalar raise AttributeError; none of them reaches its own sys.exit. *)
Theorem calculated_fields_need_grid (w : world) :
  self w !! "x" = Some VNone →
  (∀ S0 z1, set_z None None S0 z1 w = Raise AttributeError) ∧
  (∀ k_xA P_xA, set_A None None k_xA P_xA w = Raise AttributeError) ∧
  (∀ k_xQ P_xQ P_AQ b,
     set_Q None None None None P_AQ k_xQ P_xQ b w = Raise AttributeError) ∧
  (∀ q Q_ext q_R A_R P_AQ k_xQ P_xQ b,
     set_Q (Some (Scalar q)) Q_ext q_R A_R P_AQ k_xQ P_xQ b w
     = Raise AttributeError) ∧
  (∀ k_xB P_xB, given_nonzero k_xB = true →
     set_B None k_xB P_xB w = Raise AttributeError) ∧
  (∀ b k_xB P_xB, set_B (Some (Scalar b)) k_xB P_xB w = Raise AttributeError).
Proof.
  intros Hx. repeat split.
  - intros. unfold set_z.
    by rewrite (bind_raise _ _ _ _ (grid_any_none w Hx)).
  - intros. unfold set_A.
    by rewrite (bind_raise _ _ _ _ (grid_any_none w Hx)).
  - intros. unfold set_Q, set_Q_fields. cbn [given_nonzero andb].
    destruct k_xQ; run; unfold grid_any, get_arr_obj, get_arr_or; run;
      reflexivity.
  - intros. unfold set_Q, set_Q_fields.
    destruct k_xQ; run; unfold get_arr_or; run; reflexivity.
  - intros k_xB P_xB Hk. unfold set_B. rewrite Hk.
    by rewrite (bind_raise _ _ _ _ (grid_any_none w Hx)).
  - intros. unfold set_B, get_arr_obj, get_arr_or. run. reflexivity.
Qed.

Lemma no_exit_grid_any : no_exit grid_any.
Proof.
  unfold grid_any, get_arr_obj. no_exit_solve.
  destruct (np_any _); no_exit_solve.
Qed.

(** X8. set_B has no failing branch of its own: whatever its arguments it
    never exits the interpreter, and called with nothing usable (no B, and
    k_xB absent or zero) it returns and leaves the object as it was. *)
Theorem set_B_never_exits :
  (∀ B k_xB P_xB, no_exit (set_B B k_xB P_xB)) ∧
  (∀ k_xB P_xB w, given_nonzero k_xB = false →
     set_B None k_xB P_xB w = Ok (tt, w)).
Proof.
  split.
  - intros B k_xB P_xB. unfold set_B, get_arr_obj, get_arr.
    destruct B as [[b|a]|]; [no_exit_solve..|].
    destruct (given_nonzero k_xB); [|no_exit_solve].
    apply no_exit_bind; [apply no_exit_grid_any|]. intros [|]; [|no_exit_solve].
    destruct P_xB; no_exit_solve.
  - intros k_xB P_xB w Hk. unfold set_B. by rewrite Hk.
Qed.


(** ** The discharge increment dQ *)

Lemma nth_extrapolated a :
  nth 0 (extrapolated a) 0 = 2 * nth 0 a 0 - nth 1 a 0 ∧
  (∀ i, (i < length a)%nat → nth (S i) (extrapolated a) 0 = nth i a 0) ∧
  nth (S (length a)) (extrapolated a) 0
  = 2 * nth (length a - 1) a 0 - nth (length a - 2) a 0.
Proof.
  unfold extrapolated. cbn [app nth]. split; [done|]. split.
  - intros i Hi. by rewrite app_nth1.
  - rewrite app_nth2 by lia. by rewrite Nat.sub_diag.
Qed.

Lemma length_extrapolated a : length (extrapolated a) = (length a + 2)%nat.
Proof. unfold extrapolated. cbn [app length]. rewrite length_app. simpl. lia. Qed.

Lemma diff2_extrapolated a :
  (2 ≤ length a)%nat →
  length (diff2 (extrapolated a)) = length a ∧
  nth 0 (diff2 (extrapolated a)) 0 = 2 * (nth 1 a 0 - nth 0 a 0) ∧
  nth (length a - 1) (diff2 (extrapolated a)) 0
  = 2 * (nth (length a - 1) a 0 - nth (length a - 2) a 0) ∧
  ∀ i, (0 < i)%nat → (i + 1 < length a)%nat →
       nth i (diff2 (extrapolated a)) 0 = nth (i + 1) a 0 - nth (i - 1) a 0.
Proof.
  intros La. destruct (nth_extrapolated a) as (E0 & Ei & En).
  split; [rewrite length_diff2, length_extrapolated; lia|].
  split; [|split].
  - rewrite nth_diff2 by (rewrite length_extrapolated; lia).
    change (0 + 2)%nat with (S 1). rewrite E0, Ei by lia. ring.
  - rewrite nth_diff2 by (rewrite length_extrapolated; lia).
    replace (length a - 1 + 2)%nat with (S (length a)) by lia.
    rewrite En.
    assert (nth (length a - 1) (extrapolated a) 0 = nth (length a - 2) a 0)
      as ->; [|ring].
    rewrite <- Ei by lia. f_equal. lia.
  - intros i H0 Hi. rewrite nth_diff2 by (rewrite length_extrapolated; lia).
    replace (i + 2)%nat with (S (i + 1)) by lia.
    rewrite Ei by lia. f_equal.
    rewrite <- Ei by lia. f_equal. lia.
Qed.

Lemma set_Q_run Q q Q_ext q_R A_R P_AQ k_xQ P_xQ b w :
  (∃ w', set_Q_fields (Some Q) Q_ext q_R A_R P_AQ k_xQ P_xQ w
         = Ok (extrapolated q, w') ∧ self w' !! "Q" = Some (VArr q)) →
  self w !! "Q_s_0" = Some VNone →
  ∃ w', set_Q (Some Q) Q_ext q_R A_R P_AQ k_xQ P_xQ b w = Ok (tt, w') ∧
        self w' !! "Q" = Some (VArr q) ∧
        self w' !! "dQ" = Some (VArr (diff2 (extrapolated q))).
Proof.
  intros (w1 & Hr & HQ) HQs.
  assert (self w1 !! "Q_s_0" = Some VNone) as HQs1.
  { rewrite (set_Q_fields_assigns _ _ _ _ _ _ _ _ _ _ Hr); [done|list_decide]. }
  unfold set_Q. rewrite (bind_run _ _ _ _ _ Hr). destruct b.
  - eexists. split.
    { run. erewrite (bind_run Q_s_0_set)
        by (apply Q_s_0_set_false; left; lookup_solve).
      run. reflexivity. }
    split; lookup_solve.
  - eexists. split; [run; reflexivity|]. split; lookup_solve.
Qed.

(** X9. set_Q with an array Q of at least two entries, on a segment without
    sediment supply yet (Q_s_0 is None), stores Q and the increment dQ over
    two cells, of the length of Q: dQ[i] = Q[i+1] - Q[i-1] between the ends,
    and at the two ends, where a ghost value is extrapolated, twice the
    one-cell difference: dQ[0] = 2*(Q[1] - Q[0]) and
    dQ[-1] = 2*(Q[-1] - Q[-2]). *)
Theorem set_Q_array_increment
    (w : world) (q : list R) (Q_ext : option (list R))
    (q_R A_R P_AQ k_xQ P_xQ : option R) (b : bool) :
  (2 ≤ length q)%nat →
  self w !! "Q_s_0" = Some VNone →
  ∃ w' dQ,
    set_Q (Some (Array q)) Q_ext q_R A_R P_AQ k_xQ P_xQ b w = Ok (tt, w') ∧
    self w' !! "Q" = Some (VArr q) ∧
    self w' !! "dQ" = Some (VArr dQ) ∧
    length dQ = length q ∧
    nth 0 dQ 0 = 2 * (nth 1 q 0 - nth 0 q 0) ∧
    nth (length q - 1) dQ 0
    = 2 * (nth (length q - 1) q 0 - nth (length q - 2) q 0) ∧
    ∀ i, (0 < i)%nat → (i + 1 < length q)%nat →
         nth i dQ 0 = nth (i + 1) q 0 - nth (i - 1) q 0.
Proof.
  intros Lq HQs.
  destruct (set_Q_run (Array q) q Q_ext q_R A_R P_AQ k_xQ P_xQ b w)
    as (w' & Hr & HQ & HdQ); [|done|].
  { by apply set_Q_fields_interior_run. }
  exists w', (diff2 (extrapolated q)).
  split; [done|]. split; [done|]. split; [done|].
  by apply diff2_extrapolated.
Qed.

(** X10. set_Q with a scalar discharge, on a grid of at least two nodes and
    without sediment supply yet, stores the constant array Q of the length of
    x and an increment dQ that is zero at every node, the two ends
    included. *)
Theorem set_Q_scalar_has_zero_increment
    (w : world) (q0 : R) (x : list R) (Q_ext : option (list R))
    (q_R A_R P_AQ k_xQ P_xQ : option R) (b : bool) :
  self w !! "x" = Some (VArr x) →
  (2 ≤ length x)%nat →
  self w !! "Q_s_0" = Some VNone →
  ∃ w' Q dQ,
    set_Q (Some (Scalar q0)) Q_ext q_R A_R P_AQ k_xQ P_xQ b w = Ok (tt, w') ∧
    self w' !! "Q" = Some (VArr Q) ∧
    self w' !! "dQ" = Some (VArr dQ) ∧
    length Q = length x ∧ length dQ = length x ∧
    ∀ i, (i < length x)%nat → nth i Q 0 = q0 * 1 ∧ nth i dQ 0 = 0.
Proof.
  intros Hx Lx HQs.
  set (q := map (Rmult q0) (replicate (length x) 1)).
  assert (length q = length x) as Lq by (unfold q; len_solve).
  assert (∀ i, (i < length x)%nat → nth i q 0 = q0 * 1) as Hq.
  { intros i Hi. unfold q. rewrite nth_map_lt by len_solve. f_equal.
    apply nth_lookup_Some. by apply lookup_replicate_2. }
  destruct (set_Q_run (Scalar q0) q Q_ext q_R A_R P_AQ k_xQ P_xQ b w)
    as (w' & Hr & HQ & HdQ); [|done|].
  { by apply set_Q_fields_scalar_run. }
  destruct (diff2_extrapolated q) as (Ld & D0 & Dn & Di); [lia|].
  exists w', q, (diff2 (extrapolated q)).
  split; [done|]. split; [done|]. split; [done|].
  split; [done|]. split; [lia|].
  intros i Hi. split; [by apply Hq|].
  destruct (decide (i = 0%nat)) as [->|Hi0].
  { rewrite D0, !Hq by lia. ring. }
  destruct (decide (i = (length q - 1)%nat)) as [->|Hin].
  { rewrite Dn, !Hq by lia. ring. }
  rewrite Di, !Hq by lia. ring.
Qed.


(** ** The grid *)

Lemma nth_np_diff a i :
  (i + 1 < length a)%nat → nth i (np_diff a) 0 = nth (i + 1) a 0 - nth i a 0.
Proof.
  intros Hi. unfold np_diff.
  rewrite nth_zip_with_lt by (rewrite ?length_drop; lia).
  rewrite nth_drop. by rewrite Nat.add_comm.
Qed.

Lemma Rsum_np_diff a0 a :
  foldr Rplus 0 (np_diff (a0 :: a)) = nth (length a) (a0 :: a) 0 - a0.
Proof.
  revert a0. induction a as [|a1 a IH]; intros a0.
  - simpl. lra.
  - change (np_diff (a0 :: a1 :: a)) with ((a1 - a0) :: np_diff (a1 :: a)).
    cbn [foldr length]. rewrite IH.
    change (nth (S (length a)) (a0 :: a1 :: a) 0)
      with (nth (length a) (a1 :: a) 0).
    lra.
Qed.

(** X11. set_x(x_ext=...) with an ndarray of at least one node derives a
    consistent geometry: x is the interior of x_ext, dx_ext has one entry per cell
    (dx_ext[i] = x_ext[i+1] - x_ext[i]) and dx_ext_2cell one entry per
    interior node, the sum of the two cells around it
    (dx_ext_2cell[i] = dx_ext[i] + dx_ext[i+1]); the domain length L is the
    sum of all cell widths; and a strictly increasing x_ext gives strictly
    positive dx_ext and dx_ext_2cell.  (With a list instead of an ndarray
    the call raises TypeError: set_x slices the argument itself and then
    subtracts two slices of the list self.x.) *)
Theorem set_x_ext_geometry
    (w : world) (xe : list R) (dx : option R) (nx : option Z)
    (x0 : option R) :
  (0 < length xe)%nat →
  set_x None (Some (PyList xe)) dx nx x0 w = Raise TypeError ∧
  ∃ w' x dx_ext dx_ext_2cell L,
    set_x None (Some (NdArray xe)) dx nx x0 w = Ok (tt, w') ∧
    self w' !! "x" = Some (VArr x) ∧
    self w' !! "dx_ext" = Some (VArr dx_ext) ∧
    self w' !! "dx_ext_2cell" = Some (VArr dx_ext_2cell) ∧
    self w' !! "nx" = Some (VInt (Z.of_nat (length x))) ∧
    num_of (self w') "L" = Some L ∧
    length x = (length xe - 2)%nat ∧
    length dx_ext = (length xe - 1)%nat ∧
    length dx_ext_2cell = length x ∧
    (∀ i, (i < length x)%nat → nth i x 0 = nth (i + 1) xe 0) ∧
    (∀ i, (i < length dx_ext)%nat →
          nth i dx_ext 0 = nth (i + 1) xe 0 - nth i xe 0) ∧
    (∀ i, (i < length x)%nat →
          nth i dx_ext_2cell 0 = nth i dx_ext 0 + nth (i + 1) dx_ext 0) ∧
    L = Rsum dx_ext ∧
    ((∀ i, (i + 1 < length xe)%nat → nth i xe 0 < nth (i + 1) xe 0) →
     (∀ i, (i < length dx_ext)%nat → 0 < nth i dx_ext 0) ∧
     (∀ i, (i < length x)%nat → 0 < nth i dx_ext_2cell 0)).
Proof.
  intros Lxe. split; [apply set_x_ext_list_raises|].
  destruct (set_x_ext_run xe dx nx x0 w Lxe)
    as (w' & Hrun & _ & Hx & _ & Hdxe & _ & Hdx2 & Hnx & HL & _).
  exists w', (interior xe), (np_diff xe), (diff2 xe),
    (nth (length xe - 1) xe 0 - nth 0 xe 0).
  rewrite length_interior, length_np_diff, length_diff2.
  assert (∀ i, (i < length xe - 2)%nat →
     nth i (diff2 xe) 0 = nth i (np_diff xe) 0 + nth (i + 1) (np_diff xe) 0)
    as H2.
  { intros i Hi. rewrite nth_diff2, !nth_np_diff by lia.
    replace (i + 1 + 1)%nat with (i + 2)%nat by lia. ring. }
  split; [done|]. split; [done|]. split; [done|]. split; [done|].
  split; [by rewrite <- (length_interior xe)|].
  split; [by apply num_of_num|].
  split; [done|]. split; [done|]. split; [done|].
  split. { intros i Hi. rewrite nth_interior by done. f_equal. lia. }
  split. { intros i Hi. apply nth_np_diff. lia. }
  split; [done|].
  split.
  { destruct xe as [|a0 a]; [simpl in Lxe; lia|]. unfold Rsum.
    rewrite Rsum_np_diff.
    replace (length (a0 :: a) - 1)%nat with (length a) by (simpl; lia).
    done. }
  intros Hinc.
  assert (∀ i, (i < length xe - 1)%nat → 0 < nth i (np_diff xe) 0) as Hpos.
  { intros i Hi. rewrite nth_np_diff by lia.
    specialize (Hinc i ltac:(lia)). lra. }
  split; [done|].
  intros i Hi. rewrite H2 by done.
  specialize (Hpos i ltac:(lia)) as P1.
  specialize (Hpos (i + 1)%nat ltac:(lia)) as P2. lra.
Qed.

Lemma np_ones_run n : (0 ≤ n)%Z → np_ones n = Ok (replicate (Z.to_nat n) 1).
Proof. intros Hn. unfold np_ones. destruct (Z.ltb_spec n 0); [lia|done]. Qed.

Lemma map_replicate (f : R → R) n x : map f (replicate n x) = replicate n (f x).
Proof. induction n as [|n IH]; simpl; [done|by rewrite IH]. Qed.

(** X12. set_x(dx=, nx=, x0=) when np.arange delivers the nodes xs (at least
    one) and the padded nodes xe (at least one): the call returns; dx has
    len(xs) - 1 and dx_ext len(xs) + 1 entries, all equal to dx * 1;
    dx_2cell is an array of ones (not of 2*dx); nx is set to len(xs), and the
    warning "Choosing x length instead of supplied nx" is issued exactly when
    that differs from the nx passed. *)
Theorem set_x_uniform_grid
    (w : world) (dx : R) (nx : Z) (x0 : R) (xs xe : list R) :
  np_arange x0 (x0 + dx * IZR nx) dx = Some xs →
  np_arange (x0 - dx) (x0 + dx * IZR (nx + 1)) dx = Some xe →
  (0 < length xs)%nat → (0 < length xe)%nat →
  ∃ w',
    set_x None None (Some dx) (Some nx) (Some x0) w = Ok (tt, w') ∧
    self w' !! "x" = Some (VArr xs) ∧
    self w' !! "x_ext" = Some (VArr xe) ∧
    self w' !! "dx" = Some (VArr (replicate (length xs - 1) (dx * 1))) ∧
    self w' !! "dx_ext" = Some (VArr (replicate (length xs + 1) (dx * 1))) ∧
    self w' !! "dx_2cell" = Some (VArr (replicate (length xs - 1) 1)) ∧
    self w' !! "dx_ext_2cell" = Some (VArr (diff2 xe)) ∧
    self w' !! "nx" = Some (VInt (Z.of_nat (length xs))) ∧
    num_of (self w') "L" = Some (nth (length xe - 1) xe 0 - nth 0 xe 0) ∧
    trace w'
    = trace w ++
      (if (nx =? Z.of_nat (length xs))%Z then []
       else [Warn "Choosing x length instead of supplied nx"]).
Proof.
  intros Hxs Hxe Lxs Lxe. unfold set_x. rewrite Hxs.
  assert (Z.to_nat (Z.of_nat (length xs) - 1) = (length xs - 1)%nat) as E1
    by lia.
  assert (Z.to_nat (Z.of_nat (length xs) + 1) = (length xs + 1)%nat) as E2
    by lia.
  destruct (nx =? Z.of_nat (length xs))%Z eqn:E.
  - eexists. split.
    { run. rewrite Hxe. run. rewrite !np_ones_run by lia. run.
      rewrite E. run. reflexivity. }
    rewrite E1, E2, !map_replicate.
    do 7 (split; [lookup_solve|]). split; [num_solve|].
    cbn [trace]. by rewrite app_nil_r.
  - eexists. split.
    { run. rewrite Hxe. run. rewrite !np_ones_run by lia. run.
      rewrite E. unfold warn. run. reflexivity. }
    rewrite E1, E2, !map_replicate.
    do 7 (split; [lookup_solve|]). split; [num_solve|]. done.
Qed.

(** X13. set_x(dx=, nx=, x0=) when np.arange delivers no node (as for
    nx = 0): the spacing array dx would need the shape len(x) - 1 = -1, and
    the call raises ValueError. *)
Theorem set_x_uniform_grid_empty
    (w : world) (dx : R) (nx : Z) (x0 : R) :
  np_arange x0 (x0 + dx * IZR nx) dx = Some [] →
  set_x None None (Some dx) (Some nx) (Some x0) w = Raise ValueError.
Proof.
  intros Hx. unfold set_x. rewrite Hx.
  destruct (np_arange (x0 - dx) (x0 + dx * IZR (nx + 1)) dx) as [xe|] eqn:E2.
  2: { by run. }
  run. reflexivity.
Qed.


(** ** Constants *)


Lemma py_pow_negative (x y : R) : x < 0 → py_pow x y = Raise OutsideReals.
Proof. intros. unfold py_pow. by destruct (Rlt_dec x 0). Qed.




(** X16. set_hydrologic_constants tests P_xQ for truth, not for None:
    P_xQ = 0.0 is treated like an omitted P_xQ, so that P_xQ is set to
    P_xA * P_AQ without a warning; any other value is stored as given, with
    the warning "P_xQ may be inconsistent with P_xA and P_AQ". *)
Theorem set_hydrologic_constants_P_xQ (w : world) (P_xA P_AQ : R) :
  (∀ P_xQ, P_xQ = None ∨ P_xQ = Some 0 →
     ∃ w', set_hydrologic_constants P_xA P_AQ P_xQ w = Ok (tt, w') ∧
       num_of (self w') "P_xQ" = Some (P_xA * P_AQ) ∧
       num_of (self w') "P_xA" = Some P_xA ∧
       num_of (self w') "P_AQ" = Some P_AQ ∧
       trace w' = trace w) ∧
  (∀ p, p ≠ 0 →
     ∃ w', set_hydrologic_constants P_xA P_AQ (Some p) w = Ok (tt, w') ∧
       num_of (self w') "P_xQ" = Some p ∧
       num_of (self w') "P_xA" = Some P_xA ∧
       num_of (self w') "P_AQ" = Some P_AQ ∧
       trace w'
       = trace w ++ [Warn "P_xQ may be inconsistent with P_xA and P_AQ"]).
Proof.
  split.
  - intros P_xQ HP.
    assert (given_nonzero P_xQ = false) as E.
    { destruct HP as [->| ->]; [done|]. unfold given_nonzero, truthy.
      destruct (Req_dec_T 0 0); [done|lra]. }
    unfold set_hydrologic_constants. rewrite E. eexists.
    split; [run; reflexivity|]. do 3 (split; [num_solve|]). reflexivity.
  - intros p Hp.
    assert (given_nonzero (Some p) = true) as E.
    { unfold given_nonzero, truthy. by destruct (Req_dec_T p 0). }
    unfold set_hydrologic_constants. rewrite E. unfold warn. eexists.
    split; [run; reflexivity|]. do 3 (split; [num_solve|]). reflexivity.
Qed.


(** ** Diagnostics *)

(** X17. compute_Q_s on a segment with n interior nodes (z_ext of n + 2
    entries, dx_ext_2cell and Q of n) returns and assigns only S and Q_s,
    both of length n: S[i] = |z_ext[i+2] - z_ext[i]| / dx_ext_2cell[i]
    / sinuosity in absolute value, and
    Q_s[i] = -sign(z_ext[i+2] - z_ext[i]) * k_Qs * intermittency * Q[i]
             * S[i]^(5/6).
    So the flux is zero at a node whose two neighbours are level, and
    k_Qs * intermittency * Q[i] * S[i]^(5/6) where the bed falls
    downstream. *)
Theorem compute_Q_s_formula
    (w : world) (n : nat) (ze dx2 Q : list R)
    (k_Qs intermittency sinuosity : R) :
  self w !! "z_ext" = Some (VArr ze) →
  self w !! "dx_ext_2cell" = Some (VArr dx2) →
  self w !! "Q" = Some (VArr Q) →
  num_of (self w) "k_Qs" = Some k_Qs →
  num_of (self w) "intermittency" = Some intermittency →
  num_of (self w) "sinuosity" = Some sinuosity →
  length ze = (n + 2)%nat → length dx2 = n → length Q = n →
  ∃ w' S Q_s,
    compute_Q_s w = Ok (tt, w') ∧
    modifies ["S"; "Q_s"] w w' ∧ trace w' = trace w ∧
    self w' !! "S" = Some (VArr S) ∧
    self w' !! "Q_s" = Some (VArr Q_s) ∧
    length S = n ∧ length Q_s = n ∧
    ∀ i, (i < n)%nat →
      let dz := nth (i + 2) ze 0 - nth i ze 0 in
      nth i S 0 = Rabs (dz / nth i dx2 0) / sinuosity ∧
      nth i Q_s 0
      = - np_sign dz * k_Qs * intermittency * nth i Q 0
        * float_power (nth i S 0) (5/6) ∧
      (dz = 0 → nth i Q_s 0 = 0) ∧
      (dz < 0 → nth i Q_s 0
                = k_Qs * intermittency * nth i Q 0
                  * float_power (nth i S 0) (5/6)).
Proof.
  intros Hze Hdx2 HQ Hk HI Hsn Lze Ldx2 LQ.
  unfold compute_Q_s. eexists _, _, _.
  split; [run; reflexivity|].
  split; [modifies_solve|]. split; [reflexivity|].
  split; [lookup_solve|]. split; [lookup_solve|].
  split; [len_solve|]. split; [len_solve|].
  intros i Hi. set (dz := nth (i + 2) ze 0 - nth i ze 0).
  assert (nth i (map (λ s, Rabs s / sinuosity) (zip_with Rdiv (diff2 ze) dx2)) 0
          = Rabs (dz / nth i dx2 0) / sinuosity) as ES.
  { rewrite nth_map_lt by len_solve.
    rewrite nth_zip_with_lt by len_solve.
    by rewrite nth_diff2 by lia. }
  assert (nth i
            (zip_with Rmult
               (zip_with Rmult
                  (map (λ d, - np_sign d * k_Qs * intermittency) (diff2 ze)) Q)
               (map (λ s, float_power s (5/6))
                  (map (λ s, Rabs s / sinuosity)
                     (zip_with Rdiv (diff2 ze) dx2)))) 0
          = - np_sign dz * k_Qs * intermittency * nth i Q 0
            * float_power (Rabs (dz / nth i dx2 0) / sinuosity) (5/6)) as EQ.
  { rewrite nth_zip_with_lt by len_solve.
    rewrite nth_zip_with_lt by len_solve.
    rewrite !nth_map_lt by len_solve.
    rewrite nth_zip_with_lt by len_solve.
    by rewrite nth_diff2 by lia. }
  rewrite ES, EQ. split; [done|]. split; [done|]. split.
  - intros ->. unfold np_sign.
    destruct (Rlt_dec 0 0); [lra|]. ring.
  - intros Hdz. rewrite np_sign_neg by done. ring.
Qed.

(** X18. compute_flow_depth checks the grain size first: with D = None it
    raises ValueError whatever else is set or missing.  With D set it needs
    the slope S that compute_Q_s leaves behind and raises AttributeError
    without it; after compute_Q_s it returns and stores
    h[i] = (rho_s - rho)/rho * (1 + epsilon) * tau_star_c * D / S[i], one
    entry per entry of S, leaving everything else as it was. *)
Theorem compute_flow_depth_needs_grain_size_and_slope (w : world) :
  (self w !! "D" = Some VNone → compute_flow_depth w = Raise ValueError) ∧
  (∀ D rho_s rho epsilon tau_star_c,
     self w !! "D" = Some (VNum D) →
     num_of (self w) "rho_s" = Some rho_s →
     num_of (self w) "rho" = Some rho →
     num_of (self w) "epsilon" = Some epsilon →
     num_of (self w) "tau_star_c" = Some tau_star_c →
     (self w !! "S" = None → compute_flow_depth w = Raise AttributeError) ∧
     (∀ S, self w !! "S" = Some (VArr S) →
        ∃ w' h,
          compute_flow_depth w = Ok (tt, w') ∧
          modifies ["h"] w w' ∧
          self w' !! "h" = Some (VArr h) ∧
          length h = length S ∧
          ∀ i, (i < length S)%nat →
            nth i h 0
            = (rho_s - rho) / rho * (1 + epsilon) * tau_star_c * D
              / nth i S 0)).
Proof.
  split.
  - intros HD. unfold compute_flow_depth. run. reflexivity.
  - intros D rho_s rho epsilon tau_star_c HD Hrs Hr He Ht. split.
    + intros HS. unfold compute_flow_depth. run.
      unfold get_arr_or. apply bind_raise, bind_raise.
      by apply getattr_absent.
    + intros S HS. unfold compute_flow_depth. eexists _, _.
      split; [run; reflexivity|]. split; [modifies_solve|].
      split; [lookup_solve|]. split; [len_solve|].
      intros i Hi. by rewrite nth_map_lt.
Qed.

(** ** The analytical profile *)

(** X19. analytical_threshold_width with its default arguments, on a
    segment with x, z and P_xQ set, returns a profile with one value per
    node that passes through the two end points of z: the first value is
    z[0] and the last is z[-1], provided x[-1]^P_a differs from x[0]^P_a
    for P_a = 1 - 6*P_xQ/5.  z itself is not changed. *)
Theorem analytical_threshold_width_interpolates
    (w : world) (x z : list R) (P_xQ : R) :
  self w !! "x" = Some (VArr x) →
  z_is (self w) z →
  num_of (self w) "P_xQ" = Some P_xQ →
  (0 < length x)%nat → (0 < length z)%nat →
  float_power (nth (length x - 1) x 0) (1 - 6 * P_xQ / 5)
  ≠ float_power (nth 0 x 0) (1 - 6 * P_xQ / 5) →
  ∃ w' za,
    analytical_threshold_width None None None None None w = Ok (za, w') ∧
    self w' !! "zanalytical" = Some (VArr za) ∧
    num_of (self w') "P_a" = Some (1 - 6 * P_xQ / 5) ∧
    length za = length x ∧
    nth 0 za 0 = nth 0 z 0 ∧
    nth (length x - 1) za 0 = nth (length z - 1) z 0 ∧
    z_is (self w') z ∧
    modifies ["P_a"; "k_a"; "c_a"; "zanalytical"] w w'.
Proof.
  intros Hx Hz HP Lx Lz Hne.
  unfold analytical_threshold_width, or_else. eexists _, _.
  split; [run; erewrite get_arr_or_run by arr_solve; reflexivity|].
  split; [lookup_solve|]. split; [num_solve|]. split; [len_solve|].
  split; [|split; [|split; [z_is_solve|modifies_solve]]].
  - rewrite nth_map_lt by lia. field. lra.
  - rewrite nth_map_lt by lia. field. lra.
Qed.


(** ** The assembled system: off-diagonal bands and right-hand side *)

Lemma band_entry_bands l c r i j :
  band_entry [l; c; r] [(-1)%Z; 0%Z; 1%Z] i j
  = if decide (j + 1 = i)%nat then nth j l 0
    else if decide (j = i) then nth j c 0
    else if decide (j = i + 1)%nat then nth j r 0
    else 0.
Proof.
  unfold band_entry. cbn [zip zip_with foldr].
  destruct (Z.eqb_spec (-1) (Z.of_nat j - Z.of_nat i)),
    (Z.eqb_spec 0 (Z.of_nat j - Z.of_nat i)),
    (Z.eqb_spec 1 (Z.of_nat j - Z.of_nat i));
    repeat case_decide; try lia; done.
Qed.

Lemma nth_spdiags l c r n i j :
  (i < n)%nat → (j < n)%nat →
  nth j (nth i (spdiags [l; c; r] [(-1)%Z; 0%Z; 1%Z] n n) []) 0
  = band_entry [l; c; r] [(-1)%Z; 0%Z; 1%Z] i j.
Proof.
  intros Hi Hj. unfold spdiags.
  rewrite (nth_map_seq _ n i []) by done.
  by rewrite (nth_map_seq _ n j 0) by done.
Qed.

Lemma nth_roll_back a j :
  (j + 1 < length a)%nat → nth j (roll_back a) 0 = nth (j + 1) a 0.
Proof.
  intros Hj. unfold roll_back.
  rewrite app_nth1 by (rewrite length_drop; lia).
  rewrite nth_drop. f_equal. lia.
Qed.

Lemma nth_roll_fwd a j :
  (0 < j)%nat → (j < length a)%nat → nth j (roll_fwd a) 0 = nth (j - 1) a 0.
Proof.
  intros H0 Hj. unfold roll_fwd.
  rewrite app_nth2 by (rewrite length_drop; lia).
  rewrite length_drop.
  replace (length a - (length a - 1))%nat with 1%nat by lia.
  rewrite !nth_lookup, lookup_take_lt by lia. done.
Qed.

Lemma nth_insert_eq (a : list R) i v :
  (i < length a)%nat → nth i (<[i := v]> a) 0 = v.
Proof. intros Hi. apply nth_lookup_Some. by rewrite list_lookup_insert_eq. Qed.

Lemma nth_insert_ne (a : list R) i j v :
  i ≠ j → nth j (<[i := v]> a) 0 = nth j a 0.
Proof. intros Hi. by rewrite !nth_lookup, list_lookup_insert_ne. Qed.

Lemma rhs_entry (bcl z0 bcr z' : R) (z : list R) n i :
  length z = n → (2 ≤ n)%nat → (i < n)%nat →
  z0 = nth 0 z 0 → z' = nth (n - 1) z 0 →
  nth i ([bcl + z0] ++ interior z ++ [bcr + z']) 0
  = (if decide (i = 0%nat) then bcl else 0)
    + (if decide (i = (n - 1)%nat) then bcr else 0) + nth i z 0.
Proof.
  intros Lz Hn Hi -> ->. destruct i as [|i].
  - cbn [app nth]. repeat case_decide; try lia. ring.
  - cbn [app nth]. case_decide; [lia|].
    destruct (decide (S i = (n - 1)%nat)) as [E|E].
    + rewrite app_nth2 by (rewrite length_interior; lia).
      rewrite length_interior.
      replace (i - (length z - 2))%nat with 0%nat by lia.
      cbn [nth]. rewrite E. ring.
    + rewrite app_nth1 by (rewrite length_interior; lia).
      rewrite nth_interior by lia. ring.
Qed.

(** The shape of a run of build_matrices on a segment without upstream
    neighbours: the stored arrays and the matrix that is made of them. *)
Lemma build_matrices_head_run n w :
  prepared n (self w) →
  self w !! "upstream_segment_IDs" = Some (VIds []) →
  ∃ w' C1 dxe dx2 dQ Q l c r,
    build_matrices w = Ok (tt, w') ∧
    self w' !! "C1" = Some (VArr C1) ∧
    self w' !! "dx_ext" = Some (VArr dxe) ∧
    self w' !! "dx_ext_2cell" = Some (VArr dx2) ∧
    self w' !! "dQ" = Some (VArr dQ) ∧
    self w' !! "Q" = Some (VArr Q) ∧
    self w' !! "LHSmatrix"
      = Some (VMat (spdiags [roll_back l; c; roll_fwd r]
                      [(-1)%Z; 0%Z; 1%Z] n n)) ∧
    length l = n ∧ length c = n ∧ length r = n ∧
    (∀ i, (i < n)%nat →
       nth i l 0 = - nth i C1 0 * (5 / 3 / nth i dxe 0
                     - nth i dQ 0 / nth i Q 0 / nth i dx2 0)) ∧
    (∀ i, (i < n)%nat →
       nth i c 0
       = - nth i C1 0 * (5 / 3 * (-1 / nth i dxe 0 - 1 / nth (i + 1) dxe 0))
         + 1) ∧
    (∀ i, (0 < i)%nat → (i < n)%nat →
       nth i r 0 = - nth i C1 0 * (5 / 3 / nth (i + 1) dxe 0
                     + nth i dQ 0 / nth i Q 0 / nth i dx2 0)) ∧
    nth 0 r 0 = - nth 0 C1 0 * 5 / 3 * (1 / nth 0 dxe 0 + 1 / nth 1 dxe 0) ∧
    (∃ z S0 bcl bcr ssd dt dfse U z_bl rhs,
       z_is (self w) z ∧ z_is (self w') z ∧ length z = n ∧
       num_of (self w') "S0" = Some S0 ∧
       num_of (self w') "bcl" = Some bcl ∧
       num_of (self w') "bcr" = Some bcr ∧
       num_of (self w') "ssd" = Some ssd ∧
       num_of (self w') "dt" = Some dt ∧
       num_of (self w') "downstream_fining_subsidence_equivalent"
         = Some dfse ∧
       num_of (self w') "U" = Some U ∧
       num_of (self w') "z_bl" = Some z_bl ∧
       self w' !! "RHS" = Some (VArr rhs) ∧
       length rhs = n ∧
       bcl = nth 0 dx2 0 * S0 * - nth 0 C1 0
             * (5 / 3 / nth 0 dxe 0 - nth 0 dQ 0 / nth 0 Q 0 / nth 0 dx2 0) ∧
       (self w !! "downstream_segment_IDs" = Some (VIds []) →
        bcr = z_bl * (nth (n - 1) C1 0 * 5 / 3
                      * (1 / nth (n - 1) dxe 0 + 1 / nth n dxe 0) / 2
                      + nth (n - 1) dQ 0 / nth (n - 1) Q 0)) ∧
       (self w !! "downstream_segment_IDs" ≠ Some (VIds []) → bcr = 0) ∧
       ∀ i, (i < n)%nat →
         nth i rhs 0
         = (if decide (i = 0%nat) then bcl else 0)
           + (if decide (i = (n - 1)%nat) then bcr else 0)
           + nth i z 0 + ssd * dt + dfse * dt + U * dt).
Proof.
  intros (Hc & (C0 & HC0 & LC0) & (dt & Hdt)) Hup'. open_configured Hc.
  rewrite Hup in Hup'. injection Hup' as ->.
  unfold build_matrices, compute_coefficient_time_varying, update_z_ext_0,
    set_bcl_Neumann_LHS, set_bcl_Neumann_RHS, set_bcr_Dirichlet.
  destruct HS0 as [(S0 & HS0)|[HS0 Hnil]]; [|done].
  destruct (num_of_not_none _ _ _ HS0) as (vS0 & HvS0 & HnS0).
  destruct down as [|d down].
  all: do 9 eexists.
  all: split; [run; rewrite ?HnS0; run;
               try (rewrite np_vstack3_run by len_solve; run);
               reflexivity|].
  all: do 5 (split; [lookup_solve|]).
  all: split; [cbn [self]; rewrite !lookup_insert_ne by done;
               rewrite lookup_insert_eq; do 3 f_equal; len_solve|].
  all: do 3 (split; [len_solve|]).
  all: split;
    [ intros i Hi;
      repeat first [ rewrite nth_zip_with_lt by len_solve
                   | rewrite nth_map_lt by len_solve ];
      rewrite nth_drop_last by len_solve; reflexivity |].
  all: split;
    [ intros i Hi;
      repeat first [ rewrite nth_zip_with_lt by len_solve
                   | rewrite nth_map_lt by len_solve ];
      rewrite nth_drop, nth_drop_last by len_solve;
      rewrite (Nat.add_comm 1 i); reflexivity |].
  all: split;
    [ intros i H0 Hi; rewrite nth_insert_ne by lia;
      repeat first [ rewrite nth_zip_with_lt by len_solve
                   | rewrite nth_map_lt by len_solve ];
      rewrite nth_drop by len_solve;
      rewrite (Nat.add_comm 1 i); reflexivity
    | split; [rewrite nth_insert_eq by len_solve; reflexivity|] ].
  all: exists z; do 9 eexists.
  all: split; [exact Hz|]. all: split; [z_is_solve|]. all: split; [done|].
  all: do 8 (split; [num_solve|]).
  all: split; [lookup_solve|]. all: split; [len_solve|].
  all: split; [reflexivity|].
  all: split;
    [ first [ intros E; rewrite Hdown in E; done
            | intros _;
              repeat match goal with
                | |- context [nth (length ?a - ?j)%nat _ 0] =>
                    first
                      [ replace (length a - j)%nat with (n - 1)%nat
                          by len_solve
                      | replace (length a - j)%nat with n by len_solve ]
                end;
              reflexivity ] |].
  all: split;
    [ first [ intros E; by rewrite Hdown in E | intros _; reflexivity ] |].
  all: intros i Hi; rewrite nth_map_lt by len_solve;
    rewrite (rhs_entry _ _ _ _ _ n) by (rewrite ?Lz; first [lia | reflexivity]);
    repeat case_decide; try lia; ring.
Qed.


(** X20. On a prepared segment without upstream neighbours build_matrices
    assembles a tridiagonal matrix: entries more than one column off the
    diagonal are zero; below the diagonal row i holds
    -C1[i] * (5/3/dx_ext[i] - dQ[i]/Q[i]/dx_ext_2cell[i]); above the diagonal
    it holds -C1[i] * (5/3/dx_ext[i+1] + dQ[i]/Q[i]/dx_ext_2cell[i]), except
    in row 0, where the upstream (Neumann) condition puts
    -C1[0] * 5/3 * (1/dx_ext[0] + 1/dx_ext[1]). *)
Theorem build_matrices_tridiagonal (n : nat) (w : world) :
  prepared n (self w) →
  self w !! "upstream_segment_IDs" = Some (VIds []) →
  ∃ w' A C1 dx_ext dx_ext_2cell dQ Q,
    build_matrices w = Ok (tt, w') ∧
    self w' !! "LHSmatrix" = Some (VMat A) ∧
    self w' !! "C1" = Some (VArr C1) ∧
    self w' !! "dx_ext" = Some (VArr dx_ext) ∧
    self w' !! "dx_ext_2cell" = Some (VArr dx_ext_2cell) ∧
    self w' !! "dQ" = Some (VArr dQ) ∧
    self w' !! "Q" = Some (VArr Q) ∧
    length A = n ∧
    (∀ i j, (i < n)%nat → (j < n)%nat → (j + 1 < i ∨ i + 1 < j)%nat →
       nth j (nth i A []) 0 = 0) ∧
    (∀ i, (0 < i)%nat → (i < n)%nat →
       nth (i - 1) (nth i A []) 0
       = - nth i C1 0 * (5 / 3 / nth i dx_ext 0
           - nth i dQ 0 / nth i Q 0 / nth i dx_ext_2cell 0)) ∧
    (∀ i, (0 < i)%nat → (i + 1 < n)%nat →
       nth (i + 1) (nth i A []) 0
       = - nth i C1 0 * (5 / 3 / nth (i + 1) dx_ext 0
           + nth i dQ 0 / nth i Q 0 / nth i dx_ext_2cell 0)) ∧
    nth 1 (nth 0 A []) 0
    = - nth 0 C1 0 * 5 / 3 * (1 / nth 0 dx_ext 0 + 1 / nth 1 dx_ext 0).
Proof.
  intros Hp Hup.
  destruct (build_matrices_head_run n w Hp Hup)
    as (w' & C1 & dxe & dx2 & dQ & Q & l & c & r & Hrun & HC1 & Hdxe & Hdx2
        & HdQ & HQ & HA & Ll & Lc & Lr & Hl & Hc & Hr & Hr0 & _).
  assert (2 ≤ n)%nat as Hn by apply Hp.
  eexists w', _, C1, dxe, dx2, dQ, Q.
  do 7 (split; [done|]). split; [by rewrite length_spdiags|].
  split; [|split; [|split]].
  - intros i j Hi Hj Hij. rewrite nth_spdiags, band_entry_bands by done.
    repeat case_decide; try lia. done.
  - intros i H0 Hi. rewrite nth_spdiags, band_entry_bands by lia.
    case_decide; [|lia]. rewrite nth_roll_back by lia.
    replace (i - 1 + 1)%nat with i by lia. by apply Hl.
  - intros i H0 Hi. rewrite nth_spdiags, band_entry_bands by lia.
    repeat case_decide; try lia. rewrite nth_roll_fwd by lia.
    replace (i + 1 - 1)%nat with i by lia. apply Hr; lia.
  - rewrite nth_spdiags, band_entry_bands by lia.
    repeat case_decide; try lia. rewrite nth_roll_fwd by lia. exact Hr0.
Qed.

(** X21. The rows of that matrix sum to one, the last row apart: in row 0
    the diagonal and the entry right of it sum to 1 (the upstream ghost node
    is folded into the row), and in every row between the first and the last
    the three entries sum to 1.  A constant profile is therefore a fixed
    point of those rows. *)
Theorem build_matrices_rows_sum_to_one (n : nat) (w : world) :
  prepared n (self w) →
  self w !! "upstream_segment_IDs" = Some (VIds []) →
  ∃ w' A,
    build_matrices w = Ok (tt, w') ∧
    self w' !! "LHSmatrix" = Some (VMat A) ∧
    length A = n ∧
    nth 0 (nth 0 A []) 0 + nth 1 (nth 0 A []) 0 = 1 ∧
    ∀ i, (0 < i)%nat → (i + 1 < n)%nat →
      nth (i - 1) (nth i A []) 0 + nth i (nth i A []) 0
      + nth (i + 1) (nth i A []) 0 = 1.
Proof.
  intros Hp Hup.
  destruct (build_matrices_head_run n w Hp Hup)
    as (w' & C1 & dxe & dx2 & dQ & Q & l & c & r & Hrun & HC1 & Hdxe & Hdx2
        & HdQ & HQ & HA & Ll & Lc & Lr & Hl & Hc & Hr & Hr0 & _).
  assert (2 ≤ n)%nat as Hn by apply Hp.
  eexists w', _. split; [done|]. split; [done|].
  split; [by rewrite length_spdiags|]. split.
  - rewrite !nth_spdiags, !band_entry_bands by lia.
    repeat case_decide; try lia. rewrite nth_roll_fwd by lia.
    change (1 - 1)%nat with 0%nat. rewrite Hc, Hr0 by lia.
    change (0 + 1)%nat with 1%nat. unfold Rdiv. ring.
  - intros i H0 Hi. rewrite !nth_spdiags, !band_entry_bands by lia.
    repeat case_decide; try lia.
    rewrite nth_roll_back, nth_roll_fwd by lia.
    replace (i - 1 + 1)%nat with i by lia.
    replace (i + 1 - 1)%nat with i by lia.
    rewrite Hl, Hc, Hr by lia. unfold Rdiv. ring.
Qed.

(** X22. On a prepared segment that stands alone (no upstream and no
    downstream neighbours) build_matrices leaves the right-hand side
    RHS[i] = z[i] + ssd*dt + downstream_fining_subsidence_equivalent*dt
             + U*dt,
    to which bcl is added at the first node and bcr at the last, with
    bcl = dx_ext_2cell[0] * S0 * -C1[0]
          * (5/3/dx_ext[0] - dQ[0]/Q[0]/dx_ext_2cell[0]) and
    bcr = z_bl * (C1[-1] * 5/3 * (1/dx_ext[-2] + 1/dx_ext[-1])/2
                  + dQ[-1]/Q[-1]);
    z itself is not changed. *)
Theorem build_matrices_right_hand_side (n : nat) (w : world) (z : list R) :
  prepared n (self w) →
  self w !! "upstream_segment_IDs" = Some (VIds []) →
  self w !! "downstream_segment_IDs" = Some (VIds []) →
  z_is (self w) z →
  ∃ w' rhs bcl bcr S0 z_bl ssd dt dfse U C1 dx_ext dx_ext_2cell dQ Q,
    build_matrices w = Ok (tt, w') ∧
    self w' !! "RHS" = Some (VArr rhs) ∧
    num_of (self w') "bcl" = Some bcl ∧
    num_of (self w') "bcr" = Some bcr ∧
    num_of (self w') "S0" = Some S0 ∧
    num_of (self w') "z_bl" = Some z_bl ∧
    num_of (self w') "ssd" = Some ssd ∧
    num_of (self w') "dt" = Some dt ∧
    num_of (self w') "downstream_fining_subsidence_equivalent" = Some dfse ∧
    num_of (self w') "U" = Some U ∧
    self w' !! "C1" = Some (VArr C1) ∧
    self w' !! "dx_ext" = Some (VArr dx_ext) ∧
    self w' !! "dx_ext_2cell" = Some (VArr dx_ext_2cell) ∧
    self w' !! "dQ" = Some (VArr dQ) ∧
    self w' !! "Q" = Some (VArr Q) ∧
    z_is (self w') z ∧
    length rhs = n ∧
    bcl = nth 0 dx_ext_2cell 0 * S0 * - nth 0 C1 0
          * (5 / 3 / nth 0 dx_ext 0
             - nth 0 dQ 0 / nth 0 Q 0 / nth 0 dx_ext_2cell 0) ∧
    bcr = z_bl * (nth (n - 1) C1 0 * 5 / 3
                  * (1 / nth (n - 1) dx_ext 0 + 1 / nth n dx_ext 0) / 2
                  + nth (n - 1) dQ 0 / nth (n - 1) Q 0) ∧
    nth 0 rhs 0 = bcl + nth 0 z 0 + ssd * dt + dfse * dt + U * dt ∧
    nth (n - 1) rhs 0
    = bcr + nth (n - 1) z 0 + ssd * dt + dfse * dt + U * dt ∧
    ∀ i, (0 < i)%nat → (i + 1 < n)%nat →
      nth i rhs 0 = nth i z 0 + ssd * dt + dfse * dt + U * dt.
Proof.
  intros Hp Hup Hdown Hz.
  destruct (build_matrices_head_run n w Hp Hup)
    as (w' & C1 & dxe & dx2 & dQ & Q & l & c & r & Hrun & HC1 & Hdxe & Hdx2
        & HdQ & HQ & _ & _ & _ & _ & _ & _ & _ & _
        & z' & S0 & bcl & bcr & ssd & dt & dfse & U & z_bl & rhs
        & Hz0 & Hz' & Lz & HS0 & Hbcl & Hbcr & Hssd & Hdt & Hdfse & HU
        & Hzbl & Hrhs & Lrhs & Ebcl & Ebcr & _ & Erhs).
  assert (2 ≤ n)%nat as Hn by apply Hp.
  assert (z' = z) as ->.
  { destruct Hz as [Hz|(Hz & ze1 & Hze1 & ->)];
      destruct Hz0 as [Hz0|(Hz0 & ze2 & Hze2 & ->)]; congruence. }
  exists w', rhs, bcl, bcr, S0, z_bl, ssd, dt, dfse, U, C1, dxe, dx2, dQ, Q.
  do 17 (split; [done|]). split; [done|]. split; [by apply Ebcr|].
  split; [|split].
  - rewrite Erhs by lia. repeat case_decide; try lia. ring.
  - rewrite Erhs by lia. repeat case_decide; try lia. ring.
  - intros i H0 Hi. rewrite Erhs by lia. repeat case_decide; try lia. ring.
Qed.


(** ** The coefficient C1 at junctions *)

(** X23. compute_coefficient_time_varying on a prepared segment inside a
    network: where the segment has a downstream neighbour the last entry of
    C1 is replaced by the one-sided value
    C0[-1] * (|z_ext[-2] - z_ext[-1]| / dx[-1])^(-1/6) * Q[-1] / B[-1], and
    where it has an upstream neighbour the first entry by
    C0[0] * (|z_ext[1] - z_ext[0]| / dx[0])^(-1/6) * Q[0] / B[0]; every other
    entry keeps the centred value
    C0[i] * |(z_ext[i+2] - z_ext[i]) / dx_ext_2cell[i]|^(-1/6) * Q[i] / B[i].
    Without a boundary slope (S0 is None) z_ext is not touched. *)
Theorem compute_coefficient_at_junctions
    (n : nat) (w : world) (ups downs : list Z) :
  prepared n (self w) →
  self w !! "upstream_segment_IDs" = Some (VIds ups) →
  self w !! "downstream_segment_IDs" = Some (VIds downs) →
  ∃ w' C0 C1 ze dx dx2 Q B,
    compute_coefficient_time_varying w = Ok (tt, w') ∧
    self w' !! "C0" = Some (VArr C0) ∧
    self w' !! "C1" = Some (VArr C1) ∧
    self w' !! "z_ext" = Some (VArr ze) ∧
    self w' !! "dx" = Some (VArr dx) ∧
    self w' !! "dx_ext_2cell" = Some (VArr dx2) ∧
    self w' !! "Q" = Some (VArr Q) ∧
    self w' !! "B" = Some (VArr B) ∧
    length C1 = n ∧ length ze = (n + 2)%nat ∧
    (ups ≠ [] →
     nth 0 C1 0
     = one_sided_C1 (nth 0 C0 0) (nth 1 ze 0) (nth 0 ze 0) (nth 0 dx 0)
         (nth 0 Q 0) (nth 0 B 0)) ∧
    (downs ≠ [] →
     nth (n - 1) C1 0
     = one_sided_C1 (nth (n - 1) C0 0) (nth n ze 0) (nth (n + 1) ze 0)
         (nth (n - 2) dx 0) (nth (n - 1) Q 0) (nth (n - 1) B 0)) ∧
    (∀ i, (i < n)%nat → (i = 0%nat → ups = []) →
       (i = (n - 1)%nat → downs = []) →
       nth i C1 0
       = C1_at (nth i C0 0) (nth (i + 2) ze 0) (nth i ze 0)
           (nth i dx2 0) (nth i Q 0) (nth i B 0)) ∧
    (self w !! "S0" = Some VNone → self w' !! "z_ext" = self w !! "z_ext").
Proof.
  intros (Hc & (C0 & HC0 & LC0) & (dt & Hdt)) Hup' Hdown'. open_configured Hc.
  rewrite Hup in Hup'. injection Hup' as <-.
  rewrite Hdown in Hdown'. injection Hdown' as <-.
  unfold compute_coefficient_time_varying, update_z_ext_0.
  destruct HS0 as [(S0 & HS0)|[HS0 Hnil]];
    [destruct (num_of_not_none _ _ _ HS0) as (vS0 & HvS0 & HnS0)|];
    destruct up as [|u up]; try done;
    destruct down as [|d down].
  all: eexists _, C0, _, _, dx, dx2, Q, B.
  all: split; [run; rewrite ?HnS0; run; reflexivity|].
  all: do 7 (split; [lookup_solve|]).
  all: split; [len_solve|]. all: split; [len_solve|].
  all: split;
    [ first [ done
            | intros _; rewrite nth_insert_eq by len_solve; reflexivity ] |].
  all: split;
    [ first [ done
            | intros _;
              repeat match goal with
                | |- context [(length ?a - ?j)%nat] =>
                    first
                      [ replace (length a - j)%nat with (n + 1)%nat
                          by len_solve
                      | replace (length a - j)%nat with n by len_solve
                      | replace (length a - j)%nat with (n - 1)%nat
                          by len_solve
                      | replace (length a - j)%nat with (n - 2)%nat
                          by len_solve ]
                end;
              rewrite ?nth_insert_ne by lia;
              rewrite nth_insert_eq by len_solve; reflexivity ] |].
  all: split;
    [ intros i Hi Hi0 Hin;
      repeat match goal with
        | |- context [(length ?a - ?j)%nat] =>
            replace (length a - j)%nat with (n - 1)%nat by len_solve
        end;
      rewrite ?nth_insert_ne
        by (intros <-; first [by specialize (Hi0 eq_refl)
                             | by specialize (Hin eq_refl)]);
      repeat first [ rewrite nth_zip_with_lt by len_solve
                   | rewrite nth_map_lt by len_solve ];
      rewrite nth_diff2 by len_solve; reflexivity |].
  all: first [ intros E; rewrite HvS0 in E; injection E as ->; done
             | intros _; lookup_solve ].
Qed.


(** ** Invariants of the time stepping *)

Lemma hoare_bind {A B} P (Q : A → gmap string value → Prop) R
    (m : M A) (f : A → M B) :
  hoare P m Q → (∀ a, hoare (Q a) (f a) R) → hoare P (m ≫= f) R.
Proof.
  intros Hm Hf w b w' Hrun HP.
  apply bind_ok_inv in Hrun as (a & w1 & Hm1 & Hf1).
  eapply Hf; [exact Hf1|]. by eapply Hm.
Qed.

Lemma keeps_bind {A B} P (m : M A) (f : A → M B) :
  keeps P m → (∀ a, keeps P (f a)) → keeps P (m ≫= f).
Proof. apply hoare_bind. Qed.

Lemma keeps_assigns ds ks P {A} (m : M A) :
  reads_only ds P → disjointb ds ks = true → assigns ks m → keeps P m.
Proof.
  intros Hread Hd Hm w a w' Hrun. apply Hread.
  intros k Hk. apply (Hm _ _ _ Hrun). by eapply disjointb_spec.
Qed.

Lemma keeps_repeat P k (m : M unit) : keeps P m → keeps P (repeat_m k m).
Proof.
  intros Hm. induction k as [|k IH].
  - intros w a w' Hrun HP. by injection Hrun as _ <-.
  - cbn [repeat_m]. apply keeps_bind; [done|]. by intros _.
Qed.

Lemma hoare_repeat_S P Q k (m : M unit) :
  hoare P m (λ _, Q) → (∀ x, Q x → P x) →
  hoare P (repeat_m (S k) m) (λ _, Q).
Proof.
  intros Hm HQP. cbn [repeat_m].
  eapply hoare_bind; [exact Hm|]. intros ?.
  apply keeps_repeat. intros w b w' Hrun HQ. eapply Hm; [exact Hrun|].
  by apply HQP.
Qed.

(** *** What the steps assign *)

Lemma assigns_emit ks e : assigns ks (emit e).
Proof. by intros w b w' [= _ <-] k Hk. Qed.

Lemma assigns_get_item ks k i : assigns ks (get_item k i).
Proof.
  unfold get_item, get_arr.
  apply assigns_bind; [apply assigns_get_arr_or|]. intros a.
  apply assigns_lift.
Qed.

Lemma assigns_get_item_back ks k i : assigns ks (get_item_back k i).
Proof.
  unfold get_item_back, get_arr.
  apply assigns_bind; [apply assigns_get_arr_or|]. intros a.
  apply assigns_lift.
Qed.

Lemma assigns_get_int ks k : assigns ks (get_int k).
Proof.
  unfold get_int. apply assigns_bind; [apply assigns_getattr|].
  intros v. apply assigns_lift.
Qed.

Lemma assigns_get_ids ks k : assigns ks (get_ids k).
Proof.
  unfold get_ids. apply assigns_bind; [apply assigns_getattr|].
  intros v. apply assigns_lift.
Qed.

Lemma assigns_has_neighbours ks k : assigns ks (has_neighbours k).
Proof.
  unfold has_neighbours, get_ids.
  apply assigns_bind; [|intros; apply assigns_ret].
  apply assigns_bind; [apply assigns_getattr|].
  intros v. apply assigns_lift.
Qed.

Lemma assigns_store_item ks k i v : k ∈ ks → assigns ks (store_item k i v).
Proof.
  intros Hk. unfold store_item.
  apply assigns_bind; [apply assigns_getattr|].
  intros []; try apply assigns_raise.
  apply assigns_bind; [apply assigns_lift|]. intros a'.
  by apply assigns_setattr.
Qed.

Lemma assigns_store_item_back ks k i v :
  k ∈ ks → assigns ks (store_item_back k i v).
Proof.
  intros Hk. unfold store_item_back.
  apply assigns_bind; [apply assigns_getattr|].
  intros []; try apply assigns_raise.
  apply assigns_bind; [apply assigns_lift|]. intros a'.
  by apply assigns_setattr.
Qed.

Ltac assigns_step_solve :=
  repeat first
    [ apply assigns_ret | apply assigns_raise | apply assigns_lift
    | apply assigns_emit
    | apply assigns_getattr | apply assigns_get_arr_or | apply assigns_get_num
    | apply assigns_get_item | apply assigns_get_item_back
    | apply assigns_get_int | apply assigns_get_ids
    | apply assigns_has_neighbours
    | apply assigns_store_item; list_decide
    | apply assigns_store_item_back; list_decide
    | apply assigns_setattr; list_decide
    | match goal with
      | |- assigns _ (if ?b then _ else _) => destruct b
      end
    | apply assigns_bind; [|intros ?] ].

(** The part of compute_coefficient_time_varying that follows the update
    of the upstream ghost node, and the part of build_matrices that follows
    compute_coefficient_time_varying, leave z_ext alone. *)
Lemma compute_coefficient_time_varying_assigns :
  assigns ("z_ext" :: step_scratch) compute_coefficient_time_varying.
Proof.
  unfold compute_coefficient_time_varying, update_z_ext_0, get_arr.
  assigns_step_solve.
Qed.

(** *** Inverting the primitives *)

Lemma getattr_inv k w v w' :
  getattr k w = Ok (v, w') → w' = w ∧ self w !! k = Some v.
Proof.
  unfold getattr. destruct (self w !! k); [|done]. by intros [= -> ->].
Qed.

Lemma lift_inv {A} (r : result A) w a w' :
  lift r w = Ok (a, w') → w' = w ∧ r = Ok a.
Proof. unfold lift. destruct r; [|done]. by intros [= -> ->]. Qed.

Lemma get_arr_or_inv e k w a w' :
  get_arr_or e k w = Ok (a, w') → w' = w ∧ arr_of (self w) k = Some a.
Proof.
  unfold get_arr_or, arr_of. intros Hrun.
  apply bind_ok_inv in Hrun as (v & w1 & Hg & Hrun).
  apply getattr_inv in Hg as (-> & Hv). rewrite Hv.
  destruct v; try done.
  - by injection Hrun as -> ->.
  - apply bind_ok_inv in Hrun as (b & w1 & Hg & Hrun).
    apply getattr_inv in Hg as (-> & Hb). rewrite Hb.
    destruct b; try done. by injection Hrun as -> ->.
Qed.

Lemma get_item_inv k i w v w' :
  get_item k i w = Ok (v, w') →
  w' = w ∧ ∃ a, arr_of (self w) k = Some a ∧ (i < length a)%nat ∧
                v = nth i a 0.
Proof.
  unfold get_item, get_arr. intros Hrun.
  apply bind_ok_inv in Hrun as (a & w1 & Hg & Hrun).
  apply get_arr_or_inv in Hg as (-> & Ha).
  apply lift_inv in Hrun as (-> & Hi). split; [done|]. exists a.
  split; [done|]. unfold item in Hi.
  destruct (a !! i) as [x|] eqn:E; [|done]. injection Hi as ->.
  split; [by eapply lookup_lt_Some|]. symmetry. by apply nth_lookup_Some.
Qed.

Lemma get_num_inv k w r w' :
  get_num k w = Ok (r, w') → w' = w ∧ num_of (self w) k = Some r.
Proof.
  unfold get_num, num_of. intros Hrun.
  apply bind_ok_inv in Hrun as (v & w1 & Hg & Hrun).
  apply getattr_inv in Hg as (-> & Hv). rewrite Hv.
  apply lift_inv in Hrun as (-> & Hr). split; [done|].
  destruct v; try done; by injection Hr as ->.
Qed.

Lemma store_item_inv k i v w a w' :
  store_item k i v w = Ok (a, w') →
  ∃ arr, self w !! k = Some (VArr arr) ∧ (i < length arr)%nat ∧
         w' = World (<[k := VArr (<[i := v]> arr)]> (self w)) (trace w).
Proof.
  unfold store_item. intros Hrun.
  apply bind_ok_inv in Hrun as (c & w1 & Hg & Hrun).
  apply getattr_inv in Hg as (-> & Hc).
  destruct c as [| | |arr| | |]; try done.
  apply bind_ok_inv in Hrun as (a' & w1 & Hl & Hrun).
  apply lift_inv in Hl as (-> & Hs). unfold set_item in Hs.
  destruct (Nat.ltb_spec i (length arr)); [|done]. injection Hs as <-.
  injection Hrun as _ <-. by exists arr.
Qed.

Lemma assign_interior_ends a v a' :
  assign_interior a v = Ok a' →
  length a' = length a ∧
  ((2 ≤ length a)%nat →
   nth (length a - 1) a' 0 = nth (length a - 1) a 0).
Proof.
  unfold assign_interior. rewrite length_interior.
  assert (∀ x : list R, length x = (length a - 2)%nat →
            length (take 1 a ++ x ++ drop (1 + (length a - 2)) a) = length a ∧
            ((2 ≤ length a)%nat →
             nth (length a - 1)
               (take 1 a ++ x ++ drop (1 + (length a - 2)) a) 0
             = nth (length a - 1) a 0)) as Hx.
  { intros x Lx. split.
    - rewrite !length_app, length_take, length_drop. lia.
    - intros La. rewrite app_nth2 by (rewrite length_take; lia).
      rewrite length_take.
      rewrite app_nth2 by lia. rewrite nth_drop. f_equal. lia. }
  destruct (Nat.eqb_spec (length v) (length a - 2)) as [E|E].
  - intros [= <-]. by apply Hx.
  - destruct v as [|c [|]]; try done. intros [= <-]. apply Hx.
    by rewrite length_replicate.
Qed.

(** *** Invariants that the steps keep *)

Section Invariant.
Variable P : gmap string value → Prop.
Hypothesis P_reads : reads_only boundary_keys P.
Hypothesis P_ghost : ∀ m ze ze',
  P m → m !! "z_ext" = Some (VArr ze) → length ze' = length ze →
  ((2 ≤ length ze)%nat →
   nth (length ze - 1) ze' 0 = nth (length ze - 1) ze 0) →
  P (<["z_ext" := VArr ze']> m).

Lemma keeps_scratch {A} (m : M A) : assigns step_scratch m → keeps P m.
Proof. apply (keeps_assigns boundary_keys); [exact P_reads|done]. Qed.

Lemma keeps_update_z_ext_0 : keeps P update_z_ext_0.
Proof.
  unfold update_z_ext_0.
  apply keeps_bind; [apply keeps_scratch, assigns_get_item|]. intros z0.
  apply keeps_bind; [apply keeps_scratch, assigns_get_num|]. intros S0.
  apply keeps_bind; [apply keeps_scratch, assigns_get_item|]. intros dx0.
  intros w r w' Hrun HP.
  apply store_item_inv in Hrun as (ze & Hze & Lze & ->). cbn [self].
  apply (P_ghost _ ze); [done|done|by rewrite length_insert|].
  intros L2. by rewrite nth_insert_ne by lia.
Qed.

Lemma keeps_compute_coefficient_time_varying :
  keeps P compute_coefficient_time_varying.
Proof.
  unfold compute_coefficient_time_varying.
  apply keeps_bind; [apply keeps_scratch, assigns_getattr|]. intros S0.
  apply keeps_bind.
  { destruct (is_none S0); [apply keeps_scratch, assigns_ret|].
    apply keeps_update_z_ext_0. }
  intros ?. apply keeps_scratch. unfold get_arr. assigns_step_solve.
Qed.

Lemma keeps_build_matrices : keeps P build_matrices.
Proof.
  unfold build_matrices.
  apply keeps_bind; [apply keeps_compute_coefficient_time_varying|].
  intros ?. apply keeps_scratch.
  unfold set_bcl_Neumann_LHS, set_bcl_Neumann_RHS, set_bcr_Dirichlet,
    get_arr.
  assigns_step_solve.
Qed.

Lemma keeps_sweep : keeps P sweep.
Proof.
  unfold sweep.
  apply keeps_bind; [apply keeps_build_matrices|]. intros ?.
  apply keeps_bind;
    [apply keeps_scratch; unfold get_arr; assigns_step_solve|]. intros A.
  apply keeps_bind;
    [apply keeps_scratch; unfold get_arr; assigns_step_solve|]. intros b.
  apply keeps_bind; [apply keeps_scratch; assigns_step_solve|]. intros ?.
  apply keeps_bind; [apply keeps_scratch; assigns_step_solve|]. intros ?.
  intros w r w' Hrun HP.
  apply bind_ok_inv in Hrun as (ze & w1 & Hg & Hrun).
  apply bind_ok_inv in Hg as (c & w2 & Hg & Hc).
  apply getattr_inv in Hg as (-> & Hze).
  destruct c as [| | |ze0| | |]; try done. injection Hc as -> ->.
  apply bind_ok_inv in Hrun as (ze' & w2 & Hl & Hrun).
  apply lift_inv in Hl as (-> & Ha). injection Hrun as _ <-. cbn [self].
  destruct (assign_interior_ends _ _ _ Ha) as (Hlen & Hlast).
  by apply (P_ghost _ ze).
Qed.

Lemma keeps_outer_step : keeps P outer_step.
Proof.
  unfold outer_step, get_arr_obj, get_arr.
  repeat first
    [ apply keeps_repeat, keeps_sweep
    | apply keeps_update_z_ext_0
    | match goal with
      | |- keeps _ (if ?b then _ else _) => destruct b
      end
    | apply keeps_scratch; solve [assigns_step_solve]
    | apply keeps_bind; [|intros ?] ].
Qed.

End Invariant.


Lemma downstream_ghost_reads v : reads_only boundary_keys (downstream_ghost v).
Proof.
  intros m m' Hk (ze & Hze & Hv & Lze & Hlast). exists ze.
  unfold num_of in *. rewrite !Hk by list_decide. done.
Qed.

Lemma downstream_ghost_store v m ze ze' :
  downstream_ghost v m → m !! "z_ext" = Some (VArr ze) →
  length ze' = length ze →
  ((2 ≤ length ze)%nat →
   nth (length ze - 1) ze' 0 = nth (length ze - 1) ze 0) →
  downstream_ghost v (<["z_ext" := VArr ze']> m).
Proof.
  intros (ze0 & Hze0 & Hv & Lze & Hlast) Hze Hlen Hkeep.
  rewrite Hze in Hze0. injection Hze0 as <-.
  exists ze'. rewrite lookup_insert_eq, num_of_insert_ne by done.
  split; [done|]. split; [done|]. split; [lia|].
  rewrite Hlen. by rewrite Hkeep.
Qed.

Lemma upstream_data_reads S0 dxe : reads_only boundary_keys (upstream_data S0 dxe).
Proof.
  intros m m' Hk ((ze & Hze) & HS0 & Hdx).
  unfold upstream_data, num_of in *. rewrite !Hk by list_decide. eauto.
Qed.

Lemma upstream_data_store S0 dxe m ze ze' :
  upstream_data S0 dxe m → m !! "z_ext" = Some (VArr ze) →
  length ze' = length ze →
  ((2 ≤ length ze)%nat →
   nth (length ze - 1) ze' 0 = nth (length ze - 1) ze 0) →
  upstream_data S0 dxe (<["z_ext" := VArr ze']> m).
Proof.
  intros (_ & HS0 & Hdx) _ _ _. unfold upstream_data.
  rewrite lookup_insert_eq, num_of_insert_ne, lookup_insert_ne by done.
  eauto.
Qed.

Lemma committed_reads S0 dxe ze :
  reads_only ["z_ext"; "z"; "S0"; "dx_ext"] (committed S0 dxe ze).
Proof.
  intros m m' Hk (Hze & Hz & HS0 & Hdx).
  unfold committed, num_of in *. rewrite !Hk by list_decide. done.
Qed.

(** One outer step on a segment with a boundary slope ends with the
    upstream ghost node re-derived from the committed profile. *)
Lemma outer_step_upstream_ghost S0 dxe :
  hoare (upstream_data S0 dxe) outer_step (λ _, upstream_ghost S0 dxe).
Proof.
  unfold outer_step, get_arr_obj.
  do 7 (eapply (hoare_bind _ (λ _, upstream_data S0 dxe));
        [ first [ apply keeps_repeat, keeps_sweep;
                    [apply upstream_data_reads|apply upstream_data_store]
                | apply (keeps_scratch _ (upstream_data_reads S0 dxe));
                  unfold get_arr; solve [assigns_step_solve] ]
        | intros ? ]).
  (* ze <- self.z_ext *)
  eapply (hoare_bind _ (λ ze m, upstream_data S0 dxe m ∧
                                m !! "z_ext" = Some (VArr ze))).
  { intros w ze w' Hrun Hd. apply get_arr_or_inv in Hrun as (-> & Ha).
    split; [done|]. destruct Hd as ((ze0 & Hze0) & _).
    unfold arr_of in Ha. rewrite Hze0 in Ha. by injection Ha as <-. }
  intros ze.
  (* self.z = ze[1:-1].copy() *)
  eapply (hoare_bind _ (λ _, committed S0 dxe ze)).
  { intros w r w' [= _ <-] ((_ & HS0 & Hdx) & Hze). unfold committed.
    cbn [self]. rewrite lookup_insert_eq, num_of_insert_ne by done.
    by rewrite !lookup_insert_ne by done. }
  intros ?.
  do 11 (eapply (hoare_bind _ (λ _, committed S0 dxe ze));
         [ apply (keeps_assigns _ ["dz_dt"; "Qs_internal"] _ _
                    (committed_reads S0 dxe ze)); [done|];
           unfold get_arr; solve [assigns_step_solve]
         | intros ? ]).
  (* if self.S0 is not None: self.update_z_ext_0() *)
  intros w r w' Hrun (Hze & Hz & HS0 & Hdx).
  destruct (num_of_not_none _ _ _ HS0) as (v & Hv & Hnn).
  rewrite (bind_run _ _ _ _ _ (getattr_run _ _ _ Hv)) in Hrun.
  rewrite Hnn in Hrun. unfold update_z_ext_0 in Hrun.
  apply bind_ok_inv in Hrun as (z0 & w1 & Hg & Hrun).
  apply get_item_inv in Hg as (-> & z & Ha & Lz & ->).
  unfold arr_of in Ha. rewrite Hz in Ha. injection Ha as <-.
  apply bind_ok_inv in Hrun as (S0' & w1 & Hg & Hrun).
  apply get_num_inv in Hg as (-> & HS0'). rewrite HS0 in HS0'.
  injection HS0' as <-.
  apply bind_ok_inv in Hrun as (dx0 & w1 & Hg & Hrun).
  apply get_item_inv in Hg as (-> & dxe' & Ha & Ldx & ->).
  unfold arr_of in Ha. rewrite Hdx in Ha. injection Ha as <-.
  apply store_item_inv in Hrun as (ze' & Hze' & Lze & ->).
  rewrite Hze in Hze'. injection Hze' as <-. cbn [self].
  eexists. split.
  - unfold committed.
    rewrite lookup_insert_eq, num_of_insert_ne by done.
    rewrite !lookup_insert_ne by done.
    split; [reflexivity|]. by rewrite interior_insert_0.
  - rewrite interior_insert_0. by rewrite nth_insert_eq.
Qed.

Lemma upstream_ghost_data S0 dxe m :
  upstream_ghost S0 dxe m → upstream_data S0 dxe m.
Proof. intros (ze & (Hze & _ & HS0 & Hdx) & _). unfold upstream_data. eauto. Qed.

(** evolve_threshold_width_river up to its loop: the warning, nt, the
    coefficient C0 for the step dt and the base level written to the
    downstream ghost node. *)
Lemma evolve_reaches_loop n w nt dt ups downs :
  configured n (self w) →
  self w !! "upstream_segment_IDs" = Some (VIds ups) →
  self w !! "downstream_segment_IDs" = Some (VIds downs) →
  ∃ w2 ze z_bl,
    evolve_threshold_width_river nt dt w
    = repeat_m (Z.to_nat nt) outer_step w2 ∧
    prepared n (self w2) ∧
    modifies ["nt"; "dt"; "C0"; "z_bl"; "z_ext"] w w2 ∧
    self w !! "z_ext" = Some (VArr ze) ∧ length ze = (n + 2)%nat ∧
    num_of (self w) "z_bl" = Some z_bl ∧
    self w2 !! "z_ext" = Some (VArr (<[(n + 1)%nat := z_bl]> ze)) ∧
    num_of (self w2) "z_bl" = Some z_bl ∧
    num_of (self w2) "dt" = Some dt ∧
    trace w2
    = trace w ++ match ups, downs with
                 | [], [] => []
                 | _, _ => [Warn unset_boundary_warning]
                 end.
Proof.
  intros Hc Hup Hdown.
  assert (has_num (self w) "z_bl") as (z_bl & Hzbl) by apply Hc.
  set (tr := match ups, downs with
             | [], [] => trace w
             | _, _ => trace w ++ [Warn unset_boundary_warning]
             end).
  set (w0 := World (<["nt" := VInt nt]> (self w)) tr).
  assert (configured n (self w0)) as Hc0.
  { apply configured_insert_other; [list_decide|done]. }
  destruct (build_LHS_coeff_C0_ok n w0 dt Hc0)
    as (w1 & Hb & Hm1 & Hp1 & Hdt1 & Htr1).
  assert (∀ k, k ∉ ["nt"; "dt"; "C0"] → self w1 !! k = self w !! k) as Hfr.
  { intros k Hk. rewrite Hm1.
    - cbn [w0 self]. rewrite lookup_insert_ne; [done|].
      intros <-. apply Hk. list_decide.
    - intros Hin. apply Hk. by right. }
  assert (num_of (self w1) "z_bl" = Some z_bl) as Hzbl1.
  { unfold num_of in *. by rewrite Hfr by list_decide. }
  assert (self w1 !! "nt" = Some (VInt nt)) as Hnt1.
  { rewrite Hm1 by list_decide. cbn [w0 self]. by rewrite lookup_insert_eq. }
  destruct (prepared_z_ext _ _ Hp1) as (ze & Hze & Lze).
  set (w2 := World (<["z_ext" := VArr (<[(length ze - 1)%nat := z_bl]> ze)]>
                      (<["z_bl" := VNum z_bl]> (self w1))) (trace w1)).
  assert (prepared n (self w2)) as Hp2.
  { cbn [w2 self].
    apply prepared_insert; [done|done| |].
    { apply configured_insert_z_ext; [len_solve|].
      apply configured_insert_num; [by right|]. apply Hp1. }
    apply prepared_insert; [done|done| |done].
    apply configured_insert_num; [by right|]. apply Hp1. }
  destruct (num_of_value _ _ _ Hzbl1) as (vbl & Hvbl & Nvbl & Avbl).
  exists w2, ze, z_bl. split.
  { unfold evolve_threshold_width_river, set_z_bl.
    destruct ups as [|u ups], downs as [|d downs]; run; unfold warn; run;
      rewrite (bind_run _ _ _ _ _ Hb); run;
      rewrite Nvbl; run; rewrite Avbl; run; reflexivity. }
  split; [done|]. split.
  { intros k Hk. cbn [w2 self].
    rewrite !lookup_insert_ne by (intros <-; apply Hk; list_decide).
    apply Hfr. intros Hin. apply Hk. revert Hin.
    rewrite !elem_of_cons, !elem_of_nil. tauto. }
  split; [by rewrite <- Hfr by list_decide|]. split; [done|].
  split; [done|]. split.
  { cbn [w2 self]. rewrite lookup_insert_eq. do 3 f_equal. lia. }
  split; [cbn [w2 self]; num_solve|].
  split; [cbn [w2 self]; by rewrite !num_of_insert_ne by done|].
  cbn [w2 trace]. rewrite Htr1. cbn [w0 trace]. unfold tr.
  destruct ups as [|u ups], downs as [|d downs]; by rewrite ?app_nil_r.
Qed.


(** X24. evolve_threshold_width_river holds the downstream boundary: on a
    configured segment, for any number of steps nt (zero and negative
    included), the call returns with the base level z_bl unchanged and with
    the downstream ghost node equal to it, z_ext[-1] = z_bl, whatever z_ext[-1]
    held before the call. *)
Theorem evolve_holds_base_level
    (n : nat) (w : world) (nt : Z) (dt : R) (ups downs : list Z) :
  configured n (self w) →
  self w !! "upstream_segment_IDs" = Some (VIds ups) →
  self w !! "downstream_segment_IDs" = Some (VIds downs) →
  ∃ w' ze z_bl,
    evolve_threshold_width_river nt dt w = Ok (tt, w') ∧
    num_of (self w) "z_bl" = Some z_bl ∧
    num_of (self w') "z_bl" = Some z_bl ∧
    self w' !! "z_ext" = Some (VArr ze) ∧
    length ze = (n + 2)%nat ∧
    nth (n + 1) ze 0 = z_bl.
Proof.
  intros Hc Hup Hdown.
  destruct (evolve_reaches_loop n w nt dt ups downs Hc Hup Hdown)
    as (w2 & ze & z_bl & Hev & Hp2 & _ & _ & Lze & Hzbl & Hze2 & Hzbl2 & _).
  destruct (prepared_reads _ _ Hp2)
    as (niter & t & dt' & _ & _ & _ & _ & Hni & Ht & Hdt & _).
  destruct (outer_loop_run n (Z.to_nat nt) w2 niter t dt' Hp2 Hni Ht Hdt)
    as (w3 & Hloop & _ & _ & Hp3).
  assert (downstream_ghost z_bl (self w2)) as Hg2.
  { eexists. split; [exact Hze2|]. split; [done|].
    rewrite length_insert. split; [lia|].
    rewrite Lze. replace (n + 2 - 1)%nat with (n + 1)%nat by lia.
    apply nth_insert_eq. lia. }
  pose proof (keeps_repeat _ (Z.to_nat nt) _
                (keeps_outer_step _ (downstream_ghost_reads z_bl)
                   (downstream_ghost_store z_bl))
                _ _ _ Hloop Hg2) as (ze3 & Hze3 & Hzbl3 & _ & Hlast).
  destruct (prepared_z_ext _ _ Hp3) as (ze3' & Hze3' & Lze3).
  rewrite Hze3 in Hze3'. injection Hze3' as <-.
  exists w3, ze3, z_bl. rewrite Hev.
  do 5 (split; [done|]).
  rewrite <- Hlast. f_equal. lia.
Qed.

(** X25. evolve_threshold_width_river restores the upstream boundary: on a
    configured segment with a boundary slope S0, after at least one step the
    call returns with z committed as the interior of z_ext and with the
    upstream ghost node re-derived from it,
    z_ext[0] = z[0] - S0 * dx_ext[0]; S0 and dx_ext are unchanged. *)
Theorem evolve_restores_upstream_ghost
    (n : nat) (w : world) (nt : Z) (dt S0 : R) (dx_ext : list R)
    (ups downs : list Z) :
  configured n (self w) →
  self w !! "upstream_segment_IDs" = Some (VIds ups) →
  self w !! "downstream_segment_IDs" = Some (VIds downs) →
  num_of (self w) "S0" = Some S0 →
  self w !! "dx_ext" = Some (VArr dx_ext) →
  (1 ≤ nt)%Z →
  ∃ w' ze z,
    evolve_threshold_width_river nt dt w = Ok (tt, w') ∧
    self w' !! "z_ext" = Some (VArr ze) ∧
    self w' !! "z" = Some (VArr z) ∧
    z = interior ze ∧ length z = n ∧
    num_of (self w') "S0" = Some S0 ∧
    self w' !! "dx_ext" = Some (VArr dx_ext) ∧
    nth 0 ze 0 = nth 0 z 0 - S0 * nth 0 dx_ext 0.
Proof.
  intros Hc Hup Hdown HS0 Hdx Hnt.
  destruct (evolve_reaches_loop n w nt dt ups downs Hc Hup Hdown)
    as (w2 & ze & z_bl & Hev & Hp2 & Hm2 & _ & Lze & Hzbl & Hze2 & _).
  destruct (prepared_reads _ _ Hp2)
    as (niter & t & dt' & _ & _ & _ & _ & Hni & Ht & Hdt & _).
  destruct (outer_loop_run n (Z.to_nat nt) w2 niter t dt' Hp2 Hni Ht Hdt)
    as (w3 & Hloop & _ & _ & Hp3).
  assert (upstream_data S0 dx_ext (self w2)) as Hd2.
  { split; [eauto|]. unfold num_of in *.
    rewrite !Hm2 by list_decide. done. }
  destruct (Z.to_nat nt) as [|k] eqn:E; [lia|].
  pose proof (hoare_repeat_S _ _ k _ (outer_step_upstream_ghost S0 dx_ext)
                (upstream_ghost_data S0 dx_ext) _ _ _ Hloop Hd2)
    as (ze3 & (Hze3 & Hz3 & HS3 & Hdx3) & Hghost).
  destruct (prepared_z_ext _ _ Hp3) as (ze3' & Hze3' & Lze3).
  rewrite Hze3 in Hze3'. injection Hze3' as <-.
  exists w3, ze3, (interior ze3). rewrite Hev.
  do 4 (split; [done|]). split; [rewrite length_interior; lia|].
  done.
Qed.

(** X26. evolve_threshold_width_river with nt <= 0 takes no step but is not
    a no-op: it returns without calling the solver, leaving t and z as they
    were; it has stored nt and dt, built C0 for that dt, and written the
    base level into the downstream ghost node of z_ext.  The warning about
    unset boundary conditions is still issued on a segment with
    neighbours. *)
Theorem evolve_without_steps
    (n : nat) (w : world) (nt : Z) (dt : R) (ups downs : list Z) :
  configured n (self w) →
  self w !! "upstream_segment_IDs" = Some (VIds ups) →
  self w !! "downstream_segment_IDs" = Some (VIds downs) →
  (nt ≤ 0)%Z →
  ∃ w' ze z_bl,
    evolve_threshold_width_river nt dt w = Ok (tt, w') ∧
    solver_calls (trace w') = solver_calls (trace w) ∧
    trace w'
    = trace w ++ match ups, downs with
                 | [], [] => []
                 | _, _ => [Warn unset_boundary_warning]
                 end ∧
    modifies ["nt"; "dt"; "C0"; "z_bl"; "z_ext"] w w' ∧
    num_of (self w') "t" = num_of (self w) "t" ∧
    (∀ z, z_is (self w) z → z_is (self w') z) ∧
    self w !! "z_ext" = Some (VArr ze) ∧
    num_of (self w) "z_bl" = Some z_bl ∧
    self w' !! "z_ext" = Some (VArr (<[(n + 1)%nat := z_bl]> ze)) ∧
    num_of (self w') "dt" = Some dt ∧
    has_arr (self w') "C0" n.
Proof.
  intros Hc Hup Hdown Hnt.
  destruct (evolve_reaches_loop n w nt dt ups downs Hc Hup Hdown)
    as (w2 & ze & z_bl & Hev & Hp2 & Hm2 & Hze & Lze & Hzbl & Hze2 & Hzbl2
        & Hdt2 & Htr2).
  replace (Z.to_nat nt) with 0%nat in Hev by lia.
  exists w2, ze, z_bl. split; [done|]. split.
  { rewrite Htr2, solver_calls_app.
    destruct ups, downs; cbn; lia. }
  split; [done|]. split; [done|].
  split; [unfold num_of; by rewrite Hm2 by list_decide|].
  split.
  { intros z [Hz|(Hz & ze0 & Hze0 & ->)].
    - left. by rewrite Hm2 by list_decide.
    - right. rewrite Hm2 by list_decide. split; [done|].
      rewrite Hze in Hze0. injection Hze0 as <-.
      eexists. split; [exact Hze2|].
      replace (n + 1)%nat with (length ze - 1)%nat by lia.
      by rewrite interior_insert_last. }
  do 4 (split; [done|]). apply Hp2.
Qed.


(** ** The example script *)




(** *** What one call of evolve_threshold_width_river assigns *)

Lemma assigns_repeat ks k (m : M unit) :
  assigns ks m → assigns ks (repeat_m k m).
Proof.
  intros Hm. induction k as [|k IH]; cbn [repeat_m].
  - apply assigns_ret.
  - apply assigns_bind; [done|]. by intros _.
Qed.

Lemma evolve_assigns nt dt :
  assigns evolve_keys (evolve_threshold_width_river nt dt).
Proof.
  unfold evolve_threshold_width_river, warn, build_LHS_coeff_C0, set_z_bl,
    get_arr.
  repeat first
    [ apply assigns_repeat
    | progress assigns_step_solve
    | progress unfold outer_step, sweep, build_matrices,
        compute_coefficient_time_varying, update_z_ext_0,
        set_bcl_Neumann_LHS, set_bcl_Neumann_RHS, set_bcr_Dirichlet,
        get_arr_obj, get_arr
    | match goal with
      | |- assigns _ (match ?c with _ => _ end) => destruct c
      end ].
Qed.



(** X27. evolve_threshold_width_river changes the profile and nothing of the
    set-up: on a configured segment the call returns having assigned only
    nt, dt, C0, z_bl, z_ext, z, zold, t, dz_dt, Qs_internal and the arrays
    and numbers of the assembly (dzdx_0_16, C1, left, center, right, bcl,
    bcr, diagonals, offsets, LHSmatrix, RHS); the grid, Q, dQ, B, the constants, S0,
    Q_s_0, niter and the neighbour lists are as before the call. *)
Theorem evolve_leaves_configuration
    (n : nat) (w : world) (nt : Z) (dt : R) (ups downs : list Z) :
  configured n (self w) →
  self w !! "upstream_segment_IDs" = Some (VIds ups) →
  self w !! "downstream_segment_IDs" = Some (VIds downs) →
  ∃ w',
    evolve_threshold_width_river nt dt w = Ok (tt, w') ∧
    modifies evolve_keys w w' ∧
    (∀ k, k ∈ ["x"; "x_ext"; "dx"; "dx_ext"; "dx_2cell"; "dx_ext_2cell";
               "Q"; "dQ"; "B"; "k_Qs"; "lambda_p"; "sinuosity";
               "intermittency"; "S0"; "Q_s_0"; "niter"; "ssd"; "U";
               "upstream_segment_IDs"; "downstream_segment_IDs"] →
          self w' !! k = self w !! k) ∧
    configured n (self w').
Proof.
  intros Hc Hup Hdown.
  assert (∃ niter, self w !! "niter" = Some (VInt niter)) as (niter & Hni)
    by apply Hc.
  assert (has_num (self w) "t") as (t & Ht) by apply Hc.
  destruct (evolve_run n w nt dt ups downs niter t Hc Hup Hdown Hni Ht)
    as (w' & Hrun & _ & _ & Hp).
  pose proof (evolve_assigns nt dt _ _ _ Hrun) as Hm.
  exists w'. split; [done|]. split; [done|]. split; [|apply Hp].
  intros k Hk. apply Hm. revert Hk.
  eapply (disjointb_spec _ evolve_keys). by vm_compute.
Qed.




(** ** C8: the warning, and the sediment supply that was never set *)

Lemma unset_or_same_bind k {A B} (m : M A) (f : A → M B) :
  unset_or_same k m → (∀ a, unset_or_same k (f a)) →
  unset_or_same k (m ≫= f).
Proof.
  intros Hm Hf w b w' Hnv Hrun.
  apply bind_ok_inv in Hrun as (a & w1 & Hm1 & Hf1).
  destruct (Hm _ _ _ Hnv Hm1) as (Hnv1 & [Hs|Hr]).
  - destruct (Hf a _ _ _ Hnv1 Hf1) as (Hnv' & Hcase). split; [done|].
    by rewrite (bind_run _ _ _ _ _ Hs).
  - split; [by destruct (Hf a _ _ _ Hnv1 Hf1)|]. right. by apply bind_raise.
Qed.

Lemma unset_or_same_ret k {A} (a : A) : unset_or_same k (mret a).
Proof. intros w b w' Hnv [= <- <-]. split; [done|]. by left. Qed.

Lemma unset_or_same_raise k {A} e : unset_or_same k (@raise A e).
Proof. by intros w b w' Hnv. Qed.

Lemma unset_or_same_lift k {A} (r : result A) : unset_or_same k (lift r).
Proof.
  intros w b w' Hnv Hrun. apply lift_inv in Hrun as (-> & ->).
  split; [done|]. by left.
Qed.

Lemma unset_or_same_emit k e : unset_or_same k (emit e).
Proof. intros w b w' Hnv [= <- <-]. split; [done|]. by left. Qed.

Lemma unset_or_same_getattr k k' : k' ≠ k → unset_or_same k (getattr k').
Proof.
  intros Hk w v w' Hnv Hrun. apply getattr_inv in Hrun as (-> & Hv).
  split; [done|]. left. apply getattr_run. cbn [unset self].
  by rewrite lookup_insert_ne.
Qed.

Lemma unset_or_same_setattr k k' v :
  k' ≠ k → v ≠ VView k → unset_or_same k (setattr k' v).
Proof.
  intros Hk Hv w b w' Hnv [= <- <-]. split.
  - intros key. cbn [self]. destruct (decide (key = k')) as [->|Hne].
    + rewrite lookup_insert_eq. by intros [= ->].
    + rewrite lookup_insert_ne by done. apply Hnv.
  - left. unfold setattr, unset. cbn [self trace].
    by rewrite (insert_insert_ne _ k' k).
Qed.

Lemma unset_or_same_get_arr_or k e k' :
  k' ≠ k → unset_or_same k (get_arr_or e k').
Proof.
  intros Hk w a w' Hnv Hrun.
  pose proof Hrun as Hrun'. apply get_arr_or_inv in Hrun' as (-> & _).
  split; [done|]. left. revert Hrun. unfold get_arr_or. intros Hrun.
  apply bind_ok_inv in Hrun as (v & w1 & Hg & Hrun).
  apply getattr_inv in Hg as (-> & Hv).
  assert (self (unset k w) !! k' = Some v) as Hv'.
  { cbn [unset self]. by rewrite lookup_insert_ne. }
  rewrite (bind_run _ _ _ _ _ (getattr_run _ _ _ Hv')).
  destruct v as [| | |arr|base| |]; try done.
  - by injection Hrun as ->.
  - apply bind_ok_inv in Hrun as (b & w1 & Hg & Hrun).
    apply getattr_inv in Hg as (-> & Hb).
    assert (base ≠ k) as Hbase by (intros ->; by apply (Hnv k')).
    assert (self (unset k w) !! base = Some b) as Hb'.
    { cbn [unset self]. by rewrite lookup_insert_ne. }
    rewrite (bind_run _ _ _ _ _ (getattr_run _ _ _ Hb')).
    destruct b; try done. by injection Hrun as ->.
Qed.

Lemma unset_or_same_get_num k k' : k' ≠ k → unset_or_same k (get_num k').
Proof.
  intros Hk. unfold get_num.
  apply unset_or_same_bind; [by apply unset_or_same_getattr|].
  intros v. apply unset_or_same_lift.
Qed.

(** Reading the unset attribute itself as a number raises TypeError. *)
Lemma unset_or_same_get_num_self k : unset_or_same k (get_num k).
Proof.
  intros w r w' Hnv Hrun. apply get_num_inv in Hrun as (-> & _).
  split; [done|]. right. unfold get_num.
  assert (self (unset k w) !! k = Some VNone) as Hv.
  { cbn [unset self]. by rewrite lookup_insert_eq. }
  by rewrite (bind_run _ _ _ _ _ (getattr_run _ _ _ Hv)).
Qed.

Lemma unset_or_same_get_int k k' : k' ≠ k → unset_or_same k (get_int k').
Proof.
  intros Hk. unfold get_int.
  apply unset_or_same_bind; [by apply unset_or_same_getattr|].
  intros v. apply unset_or_same_lift.
Qed.

Lemma unset_or_same_get_ids k k' : k' ≠ k → unset_or_same k (get_ids k').
Proof.
  intros Hk. unfold get_ids.
  apply unset_or_same_bind; [by apply unset_or_same_getattr|].
  intros v. apply unset_or_same_lift.
Qed.

Lemma unset_or_same_has_neighbours k k' :
  k' ≠ k → unset_or_same k (has_neighbours k').
Proof.
  intros Hk. unfold has_neighbours.
  apply unset_or_same_bind; [by apply unset_or_same_get_ids|].
  intros v. apply unset_or_same_ret.
Qed.

Lemma unset_or_same_get_item k k' i :
  k' ≠ k → unset_or_same k (get_item k' i).
Proof.
  intros Hk. unfold get_item, get_arr.
  apply unset_or_same_bind; [by apply unset_or_same_get_arr_or|].
  intros a. apply unset_or_same_lift.
Qed.

Lemma unset_or_same_get_item_back k k' i :
  k' ≠ k → unset_or_same k (get_item_back k' i).
Proof.
  intros Hk. unfold get_item_back, get_arr.
  apply unset_or_same_bind; [by apply unset_or_same_get_arr_or|].
  intros a. apply unset_or_same_lift.
Qed.

Lemma unset_or_same_store_item k k' i v :
  k' ≠ k → unset_or_same k (store_item k' i v).
Proof.
  intros Hk. unfold store_item.
  apply unset_or_same_bind; [by apply unset_or_same_getattr|].
  intros []; try apply unset_or_same_raise.
  apply unset_or_same_bind; [apply unset_or_same_lift|]. intros a'.
  by apply unset_or_same_setattr.
Qed.

Lemma unset_or_same_store_item_back k k' i v :
  k' ≠ k → unset_or_same k (store_item_back k' i v).
Proof.
  intros Hk. unfold store_item_back.
  apply unset_or_same_bind; [by apply unset_or_same_getattr|].
  intros []; try apply unset_or_same_raise.
  apply unset_or_same_bind; [apply unset_or_same_lift|]. intros a'.
  by apply unset_or_same_setattr.
Qed.

Lemma unset_or_same_repeat k n (m : M unit) :
  unset_or_same k m → unset_or_same k (repeat_m n m).
Proof.
  intros Hm. induction n as [|n IH]; cbn [repeat_m].
  - apply unset_or_same_ret.
  - apply unset_or_same_bind; [done|]. by intros _.
Qed.

Ltac unset_or_same_solve :=
  repeat first
    [ apply unset_or_same_ret | apply unset_or_same_raise
    | apply unset_or_same_lift | apply unset_or_same_emit
    | apply unset_or_same_get_num; done
    | apply unset_or_same_get_num_self
    | apply unset_or_same_getattr; done
    | apply unset_or_same_get_arr_or; done
    | apply unset_or_same_get_item; done
    | apply unset_or_same_get_item_back; done
    | apply unset_or_same_get_int; done
    | apply unset_or_same_get_ids; done
    | apply unset_or_same_has_neighbours; done
    | apply unset_or_same_store_item; done
    | apply unset_or_same_store_item_back; done
    | apply unset_or_same_setattr; done
    | match goal with
      | |- unset_or_same _ (if ?b then _ else _) => destruct b
      end
    | apply unset_or_same_bind; [|intros ?] ].

(** evolve_threshold_width_river reads Q_s_0 as a number only. *)
Lemma evolve_unset_or_same nt dt :
  unset_or_same "Q_s_0" (evolve_threshold_width_river nt dt).
Proof.
  unfold evolve_threshold_width_river, warn, build_LHS_coeff_C0, set_z_bl,
    get_arr.
  repeat first
    [ apply unset_or_same_repeat
    | progress unset_or_same_solve
    | progress unfold outer_step, sweep, build_matrices,
        compute_coefficient_time_varying, update_z_ext_0,
        set_bcl_Neumann_LHS, set_bcl_Neumann_RHS, set_bcr_Dirichlet,
        get_arr_obj, get_arr
    | match goal with
      | |- unset_or_same _ (match ?c with _ => _ end) => destruct c
      end ].
Qed.

(** *** No step is completed while Q_s_0 is None *)

Lemma supply_unset_reads : reads_only ["Q_s_0"] supply_unset.
Proof.
  intros m m' Hsame Hm. unfold supply_unset. rewrite Hsame; [done|].
  list_decide.
Qed.

Lemma keeps_supply_unset ks {A} (m : M A) :
  disjointb ["Q_s_0"] ks = true → assigns ks m → keeps supply_unset m.
Proof. apply keeps_assigns, supply_unset_reads. Qed.

Lemma hoare_false {A} (m : M A) (Q : A → gmap string value → Prop) :
  hoare (λ _, False) m Q.
Proof. by intros w a w' _ []. Qed.

Lemma sweep_assigns : assigns evolve_keys sweep.
Proof.
  unfold sweep, build_matrices, compute_coefficient_time_varying,
    update_z_ext_0, set_bcl_Neumann_LHS, set_bcl_Neumann_RHS,
    set_bcr_Dirichlet, get_arr.
  repeat first
    [ progress assigns_step_solve
    | match goal with
      | |- assigns _ (match ?c with _ => _ end) => destruct c
      end ].
Qed.

Lemma outer_step_needs_supply :
  hoare supply_unset outer_step (λ _ _, False).
Proof.
  unfold outer_step, get_arr_obj, get_arr.
  repeat match goal with
    | |- hoare _ (get_num "Q_s_0" ≫= _) _ =>
        eapply (hoare_bind _ (λ _ _, False));
          [ intros w r w' Hrun HP; apply get_num_inv in Hrun as (-> & Hn);
            unfold num_of in Hn; by rewrite HP in Hn
          | intros ?; apply hoare_false ]
    | |- hoare _ (repeat_m _ sweep ≫= _) _ =>
        eapply (hoare_bind _ (λ _, supply_unset));
          [ apply keeps_repeat, (keeps_supply_unset evolve_keys);
              [by vm_compute|apply sweep_assigns]
          | intros ? ]
    | |- hoare _ (_ ≫= _) _ =>
        eapply (hoare_bind _ (λ _, supply_unset));
          [ apply (keeps_supply_unset evolve_keys);
              [by vm_compute|assigns_step_solve]
          | intros ? ]
    end.
Qed.

Lemma evolve_needs_supply nt dt :
  (0 < nt)%Z →
  hoare supply_unset (evolve_threshold_width_river nt dt) (λ _ _, False).
Proof.
  intros Hnt.
  set (P1 := λ m : gmap string value,
               supply_unset m ∧ m !! "nt" = Some (VInt nt)).
  assert (reads_only ["Q_s_0"; "nt"] P1) as Hreads.
  { intros m m' Hsame [Hs Hn]. split.
    - unfold supply_unset. by rewrite Hsame by list_decide.
    - by rewrite Hsame by list_decide. }
  unfold evolve_threshold_width_river, warn.
  eapply (hoare_bind _ (λ _, supply_unset));
    [apply (keeps_supply_unset []); [done|assigns_step_solve]|intros up].
  eapply (hoare_bind _ (λ _, supply_unset));
    [apply (keeps_supply_unset []); [done|assigns_step_solve]|intros net].
  eapply (hoare_bind _ (λ _, supply_unset));
    [apply (keeps_supply_unset []); [done|assigns_step_solve]|intros ?].
  eapply (hoare_bind _ (λ _, P1)).
  { intros ws rs ws' [= _ <-] HP. cbn [self]. split.
    - unfold supply_unset. by rewrite lookup_insert_ne.
    - by rewrite lookup_insert_eq. }
  intros ?.
  eapply (hoare_bind _ (λ _, P1)).
  { apply (keeps_assigns ["Q_s_0"; "nt"] ["dt"; "C0"]); [done|done|].
    unfold build_LHS_coeff_C0, get_arr. assigns_step_solve. }
  intros ?.
  eapply (hoare_bind _ (λ _, P1)).
  { apply (keeps_assigns ["Q_s_0"; "nt"] ["z_bl"; "z_ext"]); [done|done|].
    assigns_step_solve. }
  intros v.
  eapply (hoare_bind _ (λ _, P1)).
  { apply (keeps_assigns ["Q_s_0"; "nt"] ["z_bl"; "z_ext"]); [done|done|].
    unfold set_z_bl. assigns_step_solve. }
  intros ?.
  eapply (hoare_bind _ (λ nt' m, nt' = nt ∧ supply_unset m)).
  { intros wi nt' wi' Hrun [HP Hn]. unfold get_int in Hrun.
    apply bind_ok_inv in Hrun as (c & w1 & Hg & Hl).
    apply getattr_inv in Hg as (-> & Hc).
    apply lift_inv in Hl as (-> & Hi).
    rewrite Hn in Hc. injection Hc as <-. by injection Hi as <-. }
  intros nt' wl rl wl' Hrun [-> HP].
  destruct (Z.to_nat nt) as [|k] eqn:E; [lia|].
  cbn [repeat_m] in Hrun.
  apply bind_ok_inv in Hrun as (? & w1 & Hstep & _).
  exact (outer_step_needs_supply _ _ _ Hstep HP).
Qed.

(** C8. The warning itself is not fatal, but the run it announces needs the
    upstream sediment supply.  On a configured segment (z_bl and Q_s_0 hold
    numbers) evolve_threshold_width_river returns normally; its events are
    the warning about unset boundary conditions when upstream or downstream
    neighbours are declared, and none without them, followed by exactly
    nt * niter calls of the solver.  On the same segment with Q_s_0 still
    None - the state in which a segment with upstream neighbours is left
    when no supply was set - the call issues the same warning and reaches
    the time loop, but for nt > 0 the loop raises TypeError (the first step
    ends in ... * self.B + self.Q_s_0 with Q_s_0 None); only with nt <= 0,
    where no step is made, does the call return.  (No array of the object
    is taken to be a view of Q_s_0: the setters make views of z_ext and
    A_ext only.) *)
Theorem evolve_warning_then_unset_supply
    (n : nat) (w : world) (nt niter : Z) (dt : R) (ups downs : list Z) :
  configured n (self w) →
  no_view_of "Q_s_0" (self w) →
  self w !! "upstream_segment_IDs" = Some (VIds ups) →
  self w !! "downstream_segment_IDs" = Some (VIds downs) →
  self w !! "niter" = Some (VInt niter) →
  (∃ w',
     evolve_threshold_width_river nt dt w = Ok (tt, w') ∧
     trace w' = trace w ++ evolve_events ups downs nt niter) ∧
  (∃ w2,
     evolve_threshold_width_river nt dt (unset "Q_s_0" w)
     = repeat_m (Z.to_nat nt) outer_step w2 ∧
     trace w2
     = trace w ++ match ups, downs with
                  | [], [] => []
                  | _, _ => [Warn unset_boundary_warning]
                  end ∧
     ((0 < nt)%Z →
      evolve_threshold_width_river nt dt (unset "Q_s_0" w)
      = Raise TypeError) ∧
     ((nt ≤ 0)%Z →
      evolve_threshold_width_river nt dt (unset "Q_s_0" w) = Ok (tt, w2))).
Proof.
  intros Hc Hnv Hup' Hdown' Hni'.
  assert (has_num (self w) "t") as (t0 & Ht0) by apply Hc.
  destruct (evolve_run n w nt dt ups downs niter t0 Hc Hup' Hdown' Hni' Ht0)
    as (w' & Hrun & Htr & _).
  split; [by exists w'|].
  assert (∃ w2,
     evolve_threshold_width_river nt dt (unset "Q_s_0" w)
     = repeat_m (Z.to_nat nt) outer_step w2 ∧
     trace w2
     = trace w ++ match ups, downs with
                  | [], [] => []
                  | _, _ => [Warn unset_boundary_warning]
                  end) as (w2 & Heq & Htr2).
  { clear Hrun Htr Hni'. rename niter into sweeps. open_configured Hc.
    rewrite Hup in Hup'. injection Hup' as <-.
    rewrite Hdown in Hdown'. injection Hdown' as <-.
    destruct (num_of_value _ _ _ Hzbl) as (vbl & Hvbl & Nvbl & Avbl).
    unfold evolve_threshold_width_river, build_LHS_coeff_C0, set_z_bl, unset.
    destruct up as [|u up], down as [|d down]; eexists.
    all: split;
      [ run; unfold warn; run; rewrite Nvbl; run; rewrite Avbl; run;
        reflexivity
      | cbn [trace]; by rewrite ?app_nil_r ]. }
  exists w2. split; [done|]. split; [done|]. split.
  - intros Hnt.
    destruct (evolve_unset_or_same nt dt w tt w' Hnv Hrun)
      as (_ & [Hok|Hraise]); [|done].
    exfalso. apply (evolve_needs_supply nt dt Hnt _ _ _ Hok).
    unfold supply_unset, unset. cbn [self]. by rewrite lookup_insert_eq.
  - intros Hnt. rewrite Heq.
    replace (Z.to_nat nt) with 0%nat by lia. done.
Qed.

End Properties.

(** * Concrete runs *)

#[local] Existing Instance reals_numpy.

Ltac segment_lookup := vm_compute; reflexivity.

Lemma segment_configured up down S0 :
  (S0 = VNone ∧ up ≠ []) ∨ (∃ r, S0 = VNum r) →
  configured 2 (self (segment up down S0)).
Proof.
  intros HS0.
  split; try (eexists; split; [segment_lookup|reflexivity]);
    try (eexists; segment_lookup).
  - lia.
  - exists [2; 1]. split; [left; segment_lookup|reflexivity].
  - destruct HS0 as [[-> Hup]|[r ->]].
    + right. split; [segment_lookup|].
      assert (self (segment up down VNone) !! "upstream_segment_IDs"
              = Some (VIds up)) as -> by segment_lookup.
      congruence.
    + left. exists r. segment_lookup.
Qed.

Lemma segment_prepared up down S0 :
  (S0 = VNone ∧ up ≠ []) ∨ (∃ r, S0 = VNum r) →
  prepared 2 (self (segment up down S0)).
Proof.
  intros HS0. split; [by apply segment_configured|]. split.
  - exists [1; 1]. split; [segment_lookup|reflexivity].
  - exists 100. segment_lookup.
Qed.

(** C1, at a concrete segment: Qs_in = 3 on [lone_segment]. *)
Lemma set_Qs_input_upstream_formulas_witness :
  ∃ w' S0,
    set_Qs_input_upstream 3 lone_segment = Ok (tt, w') ∧
    num_of (self w') "S0" = Some S0 ∧
    S0 = - 1 * float_power (Rabs 3 / (2 * 1 * Rabs 10)) (6/5).
Proof.
  destruct (set_Qs_input_upstream_formulas lone_segment 3 2 1 1
              [10; 10] [2; 1] [3; 2; 1; 0] [1; 1; 1])
    as (w' & S0 & ze' & Hrun & _ & HS0 & _ & Hpos & _).
  - segment_lookup.
  - left. segment_lookup.
  - segment_lookup.
  - segment_lookup.
  - segment_lookup.
  - segment_lookup.
  - segment_lookup.
  - simpl. lia.
  - simpl. lia.
  - simpl. lia.
  - simpl. lia.
  - simpl. lra.
  - exists w', S0. split; [exact Hrun|]. split; [exact HS0|].
    apply Hpos. simpl. lra.
Defined.

(** C9, counterexample: in double precision k_Qs = intermittency = 2**-600
    and Q[0] = 1 are all nonzero, yet the divisor
    k_Qs * intermittency * |Q[0]| that the method computes is zero, and the
    quotient |Qs_in| / divisor for Qs_in = 1 is the division by zero 1/0,
    whose value is inf. *)
Lemma Qs_divisor_underflows :
  Binary64.nonzero Binary64.two_pow_minus_600 = true ∧
  Binary64.nonzero PrimFloat.one = true ∧
  Binary64.nonzero
    (Binary64.Qs_divisor Binary64.two_pow_minus_600
       Binary64.two_pow_minus_600 PrimFloat.one) = false ∧
  Binary64.supply_ratio PrimFloat.one Binary64.two_pow_minus_600
    Binary64.two_pow_minus_600 PrimFloat.one = PrimFloat.infinity.
Proof. repeat split; vm_compute; reflexivity. Qed.

(** C9, at a concrete segment. *)
Lemma set_Qs_input_upstream_divisor_witness :
  (∃ w', set_Qs_input_upstream 3 lone_segment = Ok (tt, w')) ∧
  2 * 1 * Rabs 10 ≠ 0.
Proof.
  destruct (set_Qs_input_upstream_divisor lone_segment 3 2 1 1
              [10; 10] [2; 1] [3; 2; 1; 0] [1; 1; 1])
    as ((w' & Hrun & _) & Hdiv & _).
  - segment_lookup.
  - left. segment_lookup.
  - segment_lookup.
  - segment_lookup.
  - segment_lookup.
  - segment_lookup.
  - segment_lookup.
  - simpl. lia.
  - simpl. lia.
  - simpl. lia.
  - simpl. lia.
  - split; [by exists w'|]. apply Hdiv; simpl; lra.
Defined.

(** C4, at a concrete segment. *)
Lemma coefficients_C0_C1_witness :
  ∃ w1 w2,
    build_LHS_coeff_C0 100 lone_segment = Ok (tt, w1) ∧
    compute_coefficient_time_varying w1 = Ok (tt, w2).
Proof.
  destruct (coefficients_C0_C1 2 lone_segment 100)
    as (w1 & w2 & ? & ? & ? & ? & ? & ? & ? & ? & ? & ? & H1 & H2 & _).
  - apply segment_configured. right. by eexists.
  - segment_lookup.
  - segment_lookup.
  - by exists w1, w2.
Defined.

(** C5, at a concrete segment inside a network. *)
Lemma build_matrices_main_diagonal_witness :
  ∃ w', build_matrices network_segment = Ok (tt, w').
Proof.
  destruct (build_matrices_main_diagonal 2 network_segment)
    as (w' & ? & ? & ? & ? & Hrun & _).
  - apply segment_prepared. left. by split.
  - by exists w'.
Defined.

(** C6, at a concrete segment: five steps of three sweeps. *)
Lemma evolve_outer_steps_witness :
  ∃ w', evolve_threshold_width_river 5 100 lone_segment = Ok (tt, w') ∧
        solver_calls (trace w') = 15%nat ∧
        num_of (self w') "t" = Some (0 + 5 * 100).
Proof.
  destruct (evolve_outer_steps 2 lone_segment 5 3 0 100 [] [])
    as (_ & _ & w' & Hrun & Htr & Hcalls & Ht).
  - apply segment_configured. right. by eexists.
  - segment_lookup.
  - segment_lookup.
  - segment_lookup.
  - segment_lookup.
  - lia.
  - exists w'. split; [exact Hrun|]. split; [|exact Ht].
    rewrite Htr. exact Hcalls.
Defined.

Lemma network_segment_no_view : no_view_of "Q_s_0" (self network_segment).
Proof.
  intros key Hk. unfold network_segment, segment in Hk. cbn [self] in Hk.
  apply elem_of_list_to_map_2 in Hk.
  repeat (apply elem_of_cons in Hk as [Hk|Hk]; [discriminate Hk|]).
  by apply elem_of_nil in Hk.
Qed.

(** C8, at the failing input: one step on a segment inside a network whose
    sediment supply Q_s_0 is still None. *)
Lemma evolve_warning_then_unset_supply_witness :
  evolve_threshold_width_river 1 100 (unset "Q_s_0" network_segment)
  = Raise TypeError.
Proof.
  destruct (evolve_warning_then_unset_supply 2 network_segment 1 3 100
              [7%Z] [9%Z])
    as (_ & w2 & _ & _ & Hraise & _).
  - apply segment_configured. left. by split.
  - apply network_segment_no_view.
  - segment_lookup.
  - segment_lookup.
  - segment_lookup.
  - apply Hraise. lia.
Defined.

(** C10, on a fresh object: Q_s_0 is still None. *)
Lemma set_Q_keeps_boundary_without_supply_witness :
  ∃ w',
    set_Q (Some (Array [10; 10])) None None None None None None true fresh
    = Ok (tt, w') ∧
    self w' !! "S0" = Some VNone.
Proof.
  destruct (set_Q_array_run [10; 10] fresh) as (w' & Hrun);
    [simpl; lia|segment_lookup|].
  destruct (set_Q_keeps_boundary_without_supply
              (Some (Array [10; 10])) None None None None None None true
              fresh w') as (HS0 & _).
  { left. segment_lookup. }
  { exact Hrun. }
  exists w'. split; [exact Hrun|]. rewrite HS0. segment_lookup.
Defined.

(** C2, counterexample: conflicting specifications x_ext (an ndarray) and
    (dx, nx, x0) on a fresh object.  No configuration error: the call
    returns, having taken the grid from x_ext. *)
Lemma set_x_conflict_not_detected :
  ∃ w',
    set_x None (Some (NdArray [0; 1; 2; 3; 4])) (Some 1) (Some 3%Z) (Some 1)
      fresh
    = Ok (tt, w') ∧
    self w' !! "x_ext" = Some (VArr [0; 1; 2; 3; 4]) ∧
    trace w' = [].
Proof.
  destruct (set_x_ext_run [0; 1; 2; 3; 4] (Some 1) (Some 3%Z) (Some 1) fresh)
    as (w' & Hrun & Hxe & _ & _ & _ & _ & _ & _ & _ & Htr); [simpl; lia|].
  exists w'. split; [exact Hrun|]. split; [exact Hxe|exact Htr].
Qed.

(** C3, at the failing input: set_x(x=[0, 1, 2]) on a fresh object raises
    AttributeError on self.x_ext instead of producing the grid. *)
Lemma set_x_alone_on_fresh :
  set_x (Some [0; 1; 2]) None None None None fresh = Raise AttributeError.
Proof. apply set_x_alone_raises. segment_lookup. Qed.

(** C7, counterexample: set_z(z_ext=[5, 1, 2, 9]) on a fresh object, where
    no boundary condition is set.  The interior slice is z, but neither
    ghost entry is the linear extrapolation of the two nearest interior
    values: 5 is not 2*1 - 2 and 9 is not 2*2 - 1. *)
Lemma set_z_padded_ghosts_not_extrapolated :
  ∃ w' z ze,
    set_z None (Some [5; 1; 2; 9]) None 0 fresh = Ok (tt, w') ∧
    arr_of (self w') "z" = Some z ∧
    self w' !! "z_ext" = Some (VArr ze) ∧
    interior ze = z ∧
    self w' !! "S0" = Some VNone ∧ self w' !! "z_bl" = Some VNone ∧
    nth 0 ze 0 ≠ 2 * nth 0 z 0 - nth 1 z 0 ∧
    nth 3 ze 0 ≠ 2 * nth 1 z 0 - nth 0 z 0.
Proof.
  destruct (set_z_padded_run [5; 1; 2; 9] None 0 fresh)
    as (w' & Hrun & Hz & Hze & Hm).
  exists w', [1; 2], [5; 1; 2; 9].
  split; [exact Hrun|].
  split; [by rewrite (arr_of_view _ _ _ _ Hz Hze)|].
  split; [exact Hze|]. split; [reflexivity|].
  split; [rewrite Hm by list_decide; segment_lookup|].
  split; [rewrite Hm by list_decide; segment_lookup|].
  simpl. split; lra.
Qed.

(** * Further concrete runs *)

Lemma arange_R_exact start stop step k :
  step ≠ 0 → (stop - start) / step = IZR k →
  arange_R start stop step
  = Some (map (λ i, start + INR i * step) (seq 0 (Z.to_nat k))).
Proof.
  intros Hs Hk. unfold arange_R. destruct (Req_dec_T step 0); [done|].
  rewrite Hk. replace (up (- IZR k)) with (1 - k)%Z.
  { do 3 f_equal. lia. }
  apply tech_up; rewrite minus_IZR; lra.
Qed.

Lemma truthy_zero : truthy 0 = false.
Proof. unfold truthy. destruct (Req_dec_T 0 0); [done|lra]. Qed.



(** X1, at a concrete segment. *)
Lemma set_Qs_input_upstream_idempotent_witness :
  ∃ w1 w2,
    set_Qs_input_upstream 3 lone_segment = Ok (tt, w1) ∧
    set_Qs_input_upstream 3 w1 = Ok (tt, w2) ∧
    self w2 !! "z_ext" = self w1 !! "z_ext".
Proof.
  destruct (set_Qs_input_upstream_idempotent lone_segment 3 2 1 1
              [10; 10] [2; 1] [3; 2; 1; 0] [1; 1; 1])
    as (w1 & w2 & H1 & H2 & _ & _ & H3).
  - segment_lookup.
  - left. segment_lookup.
  - segment_lookup.
  - segment_lookup.
  - segment_lookup.
  - segment_lookup.
  - segment_lookup.
  - simpl. lia.
  - simpl. lia.
  - simpl. lia.
  - simpl. lia.
  - exists w1, w2. split; [exact H1|]. split; [exact H2|]. by apply H3.
Defined.

(** X2, at a concrete segment: the base level 5. *)
Lemma set_z_bl_writes_downstream_ghost_witness :
  ∃ w' ze,
    set_z_bl 5 lone_segment = Ok (tt, w') ∧
    self w' !! "z_ext" = Some (VArr ze) ∧
    nth 3 ze 0 = 5 ∧ nth 0 ze 0 = 3.
Proof.
  destruct (set_z_bl_writes_downstream_ghost lone_segment 5 [2; 1]
              [3; 2; 1; 0])
    as (w' & ze & Hrun & _ & _ & _ & Hze & _ & Hlast & Hrest & _).
  - segment_lookup.
  - left. segment_lookup.
  - simpl. lia.
  - exists w', ze. split; [exact Hrun|]. split; [exact Hze|].
    split; [exact Hlast|]. apply (Hrest 0%nat). simpl. lia.
Defined.

(** X4, at a concrete segment. *)
Lemma set_z_bl_commutes_with_set_Qs_input_upstream_witness :
  ∃ w',
    (set_z_bl 5;; set_Qs_input_upstream 3) lone_segment = Ok (tt, w') ∧
    (set_Qs_input_upstream 3;; set_z_bl 5) lone_segment = Ok (tt, w').
Proof.
  apply (set_z_bl_commutes_with_set_Qs_input_upstream lone_segment 5 3 2 1 1
           [10; 10] [2; 1] [3; 2; 1; 0] [1; 1; 1]).
  - segment_lookup.
  - left. segment_lookup.
  - segment_lookup.
  - segment_lookup.
  - segment_lookup.
  - segment_lookup.
  - segment_lookup.
  - simpl. lia.
  - simpl. lia.
  - simpl. lia.
  - simpl. lia.
Defined.

(** X5, at a one-node array on a fresh object. *)
Lemma setters_reject_short_arrays_witness :
  set_z (Some [1]) None None 0 fresh = Raise IndexError ∧
  set_A (Some [1]) None None None fresh = Raise IndexError ∧
  set_Q (Some (Array [1])) None None None None None None true fresh
  = Raise IndexError.
Proof.
  destruct (setters_reject_short_arrays fresh [1]) as (Hz & HA & HQ & _).
  - simpl. lia.
  - split; [apply Hz|]. split; [apply HA|apply HQ].
Defined.

(** X6, on the grid x = [0]. *)
Lemma all_zero_grid_counts_as_missing_witness :
  set_z None None (Some 1) 0 (with_x [0])
  = Raise (SystemExit "Error defining variable") ∧
  set_B None (Some 1) (Some 1) (with_x [0]) = Ok (tt, with_x [0]).
Proof.
  destruct (all_zero_grid_counts_as_missing (with_x [0]) [0])
    as (Hz & _ & _ & HB).
  - apply lookup_insert_eq.
  - cbn [np_any existsb]. by rewrite truthy_zero.
  - split; [apply Hz|apply HB].
Defined.

(** X7, on a fresh object. *)
Lemma calculated_fields_need_grid_witness :
  set_z None None (Some 1) 0 fresh = Raise AttributeError ∧
  set_A None None (Some 1) (Some 1) fresh = Raise AttributeError.
Proof.
  destruct (calculated_fields_need_grid fresh) as (Hz & HA & _).
  - segment_lookup.
  - split; [apply Hz|apply HA].
Defined.

(** X9, on a fresh object. *)
Lemma set_Q_array_increment_witness :
  ∃ w' dQ,
    set_Q (Some (Array [10; 30])) None None None None None None true fresh
    = Ok (tt, w') ∧
    self w' !! "dQ" = Some (VArr dQ) ∧
    nth 0 dQ 0 = 2 * (30 - 10) ∧ nth 1 dQ 0 = 2 * (30 - 10).
Proof.
  destruct (set_Q_array_increment fresh [10; 30] None None None None None
              None true)
    as (w' & dQ & Hrun & _ & HdQ & _ & H0 & H1 & _).
  - simpl. lia.
  - segment_lookup.
  - exists w', dQ. split; [exact Hrun|]. split; [exact HdQ|].
    split; [exact H0|exact H1].
Defined.

(** X10, on the grid x = [1, 2]. *)
Lemma set_Q_scalar_has_zero_increment_witness :
  ∃ w' dQ,
    set_Q (Some (Scalar 10)) None None None None None None true
      (with_x [1; 2]) = Ok (tt, w') ∧
    self w' !! "dQ" = Some (VArr dQ) ∧
    nth 0 dQ 0 = 0 ∧ nth 1 dQ 0 = 0.
Proof.
  destruct (set_Q_scalar_has_zero_increment (with_x [1; 2]) 10 [1; 2]
              None None None None None None true)
    as (w' & Q & dQ & Hrun & _ & HdQ & _ & _ & Hi).
  - apply lookup_insert_eq.
  - simpl. lia.
  - unfold with_x. cbn [self]. rewrite lookup_insert_ne by done.
    segment_lookup.
  - exists w', dQ. split; [exact Hrun|]. split; [exact HdQ|].
    split; [apply (Hi 0%nat)|apply (Hi 1%nat)]; simpl; lia.
Defined.

(** X11, on the grid x_ext = [0, 1, 3, 6]. *)
Lemma set_x_ext_geometry_witness :
  ∃ w' L,
    set_x None (Some (NdArray [0; 1; 3; 6])) None None None fresh
    = Ok (tt, w') ∧
    num_of (self w') "L" = Some L ∧ L = 6 - 0.
Proof.
  destruct (set_x_ext_geometry fresh [0; 1; 3; 6] None None None)
    as (_ & w' & x & dxe & dx2 & L & Hrun & _ & Hdxe & _ & _ & HL & _ & _ & _
        & _ & Hd & _ & HLs & _).
  - simpl. lia.
  - exists w', L. split; [exact Hrun|]. split; [exact HL|].
    pose proof (set_x_ext_run [0; 1; 3; 6] None None None fresh) as Hr.
    destruct Hr as (w'' & Hrun' & _ & _ & _ & _ & _ & _ & _ & HL' & _);
      [simpl; lia|].
    rewrite Hrun in Hrun'. injection Hrun' as <-.
    apply num_of_num in HL'. rewrite HL in HL'. by injection HL' as ->.
Defined.

(** X12: three nodes from x0 = 1 with dx = 1. *)
Lemma set_x_uniform_grid_witness :
  ∃ w',
    set_x None None (Some 1) (Some 3%Z) (Some 1) fresh = Ok (tt, w') ∧
    self w' !! "dx_2cell" = Some (VArr [1; 1]) ∧
    self w' !! "nx" = Some (VInt 3) ∧
    trace w' = [].
Proof.
  destruct (set_x_uniform_grid fresh 1 3 1
              (map (λ i, 1 + INR i * 1) (seq 0 3))
              (map (λ i, 1 - 1 + INR i * 1) (seq 0 5)))
    as (w' & Hrun & _ & _ & _ & _ & Hd2 & _ & Hnx & _ & Htr).
  - apply (arange_R_exact 1 (1 + 1 * 3) 1 3); lra.
  - apply (arange_R_exact (1 - 1) (1 + 1 * IZR (3 + 1)) 1 5); [lra|].
    change (3 + 1)%Z with 4%Z. lra.
  - simpl. lia.
  - simpl. lia.
  - exists w'. split; [exact Hrun|]. split; [exact Hd2|].
    split; [exact Hnx|exact Htr].
Defined.

(** X13: nx = 0. *)
Lemma set_x_uniform_grid_empty_witness :
  set_x None None (Some 1) (Some 0%Z) (Some 1) fresh = Raise ValueError.
Proof.
  apply set_x_uniform_grid_empty.
  apply (arange_R_exact 1 (1 + 1 * 0) 1 0); lra.
Defined.




(** X17, at a concrete segment. *)
Lemma compute_Q_s_formula_witness :
  ∃ w' Q_s,
    compute_Q_s lone_segment = Ok (tt, w') ∧
    self w' !! "Q_s" = Some (VArr Q_s) ∧ length Q_s = 2%nat.
Proof.
  destruct (compute_Q_s_formula lone_segment 2 [3; 2; 1; 0] [2; 2] [10; 10]
              2 1 1)
    as (w' & S & Q_s & Hrun & _ & _ & _ & HQs & _ & LQs & _).
  - segment_lookup.
  - segment_lookup.
  - segment_lookup.
  - segment_lookup.
  - segment_lookup.
  - segment_lookup.
  - reflexivity.
  - reflexivity.
  - reflexivity.
  - exists w', Q_s. split; [exact Hrun|]. split; [exact HQs|exact LQs].
Defined.

(** X19, at a concrete segment with P_xQ = 0, where the profile is the
    straight line through the two end points. *)
Lemma analytical_threshold_width_interpolates_witness :
  ∃ w' za,
    analytical_threshold_width None None None None None uniform_segment
    = Ok (za, w') ∧
    nth 0 za 0 = 2 ∧ nth 1 za 0 = 1.
Proof.
  destruct (analytical_threshold_width_interpolates uniform_segment
              [1; 2] [2; 1] 0)
    as (w' & za & Hrun & _ & _ & _ & H0 & H1 & _).
  - unfold uniform_segment. cbn [self]. rewrite lookup_insert_ne by done.
    segment_lookup.
  - left. unfold uniform_segment. cbn [self].
    rewrite lookup_insert_ne by done. segment_lookup.
  - unfold uniform_segment. cbn [self]. apply num_of_insert_eq.
  - simpl. lia.
  - simpl. lia.
  - cbn [length Nat.sub nth float_power reals_numpy].
    replace (1 - 6 * 0 / 5) with 1 by lra.
    rewrite !Rpower_1 by lra. lra.
  - exists w', za. split; [exact Hrun|]. split; [exact H0|exact H1].
Defined.

(** X20, at a concrete segment. *)
Lemma build_matrices_tridiagonal_witness :
  ∃ w' A,
    build_matrices lone_segment = Ok (tt, w') ∧
    self w' !! "LHSmatrix" = Some (VMat A) ∧ length A = 2%nat.
Proof.
  destruct (build_matrices_tridiagonal 2 lone_segment)
    as (w' & A & ? & ? & ? & ? & ? & Hrun & HA & _ & _ & _ & _ & _ & LA & _).
  - apply segment_prepared. right. by eexists.
  - segment_lookup.
  - exists w', A. split; [exact Hrun|]. split; [exact HA|exact LA].
Defined.

(** X21, at a concrete segment. *)
Lemma build_matrices_rows_sum_to_one_witness :
  ∃ w' A,
    build_matrices lone_segment = Ok (tt, w') ∧
    self w' !! "LHSmatrix" = Some (VMat A) ∧
    nth 0 (nth 0 A []) 0 + nth 1 (nth 0 A []) 0 = 1.
Proof.
  destruct (build_matrices_rows_sum_to_one 2 lone_segment)
    as (w' & A & Hrun & HA & _ & Hrow & _).
  - apply segment_prepared. right. by eexists.
  - segment_lookup.
  - exists w', A. split; [exact Hrun|]. split; [exact HA|exact Hrow].
Defined.

(** X22, at a concrete segment. *)
Lemma build_matrices_right_hand_side_witness :
  ∃ w' rhs,
    build_matrices lone_segment = Ok (tt, w') ∧
    self w' !! "RHS" = Some (VArr rhs) ∧ length rhs = 2%nat.
Proof.
  destruct (build_matrices_right_hand_side 2 lone_segment [2; 1])
    as (w' & rhs & ? & ? & ? & ? & ? & ? & ? & ? & ? & ? & ? & ? & ?
        & Hrun & Hrhs & _ & _ & _ & _ & _ & _ & _ & _ & _ & _ & _ & _ & _
        & _ & Lrhs & _).
  - apply segment_prepared. right. by eexists.
  - segment_lookup.
  - segment_lookup.
  - left. segment_lookup.
  - exists w', rhs. split; [exact Hrun|]. split; [exact Hrhs|exact Lrhs].
Defined.

(** X23, at a concrete segment inside a network. *)
Lemma compute_coefficient_at_junctions_witness :
  ∃ w' C1,
    compute_coefficient_time_varying network_segment = Ok (tt, w') ∧
    self w' !! "C1" = Some (VArr C1) ∧
    nth 0 C1 0 = one_sided_C1 1 2 3 1 10 50.
Proof.
  destruct (compute_coefficient_at_junctions 2 network_segment [7%Z] [9%Z])
    as (w' & C0 & C1 & ze & dx & dx2 & Q & B & Hrun & HC0 & HC1 & Hze & Hdx
        & _ & HQ & HB & _ & _ & Hup & _ & _ & Hkeep).
  - apply segment_prepared. left. by split.
  - segment_lookup.
  - segment_lookup.
  - exists w', C1. split; [exact Hrun|]. split; [exact HC1|].
    rewrite Hup by done.
    pose proof (compute_coefficient_time_varying_assigns _ _ _ Hrun) as Hm.
    rewrite Hm in HC0, Hdx, HQ, HB by list_decide.
    rewrite Hkeep in Hze by segment_lookup.
    assert (C0 = [1; 1]) as ->.
    { assert (self network_segment !! "C0" = Some (VArr [1; 1])) as E
        by segment_lookup. congruence. }
    assert (ze = [3; 2; 1; 0]) as ->.
    { assert (self network_segment !! "z_ext" = Some (VArr [3; 2; 1; 0]))
        as E by segment_lookup. congruence. }
    assert (dx = [1]) as ->.
    { assert (self network_segment !! "dx" = Some (VArr [1])) as E
        by segment_lookup. congruence. }
    assert (Q = [10; 10]) as ->.
    { assert (self network_segment !! "Q" = Some (VArr [10; 10])) as E
        by segment_lookup. congruence. }
    assert (B = [50; 50]) as ->.
    { assert (self network_segment !! "B" = Some (VArr [50; 50])) as E
        by segment_lookup. congruence. }
    reflexivity.
Defined.

(** X24, at a concrete segment: five steps. *)
Lemma evolve_holds_base_level_witness :
  ∃ w' ze,
    evolve_threshold_width_river 5 100 lone_segment = Ok (tt, w') ∧
    self w' !! "z_ext" = Some (VArr ze) ∧ nth 3 ze 0 = 0.
Proof.
  destruct (evolve_holds_base_level 2 lone_segment 5 100 [] [])
    as (w' & ze & z_bl & Hrun & Hzbl & _ & Hze & _ & Hlast).
  - apply segment_configured. right. by eexists.
  - segment_lookup.
  - segment_lookup.
  - exists w', ze. split; [exact Hrun|]. split; [exact Hze|].
    assert (num_of (self lone_segment) "z_bl" = Some 0) as E
      by segment_lookup.
    rewrite E in Hzbl. injection Hzbl as <-. exact Hlast.
Defined.

(** X25, at a concrete segment: five steps with S0 = -1. *)
Lemma evolve_restores_upstream_ghost_witness :
  ∃ w' ze z,
    evolve_threshold_width_river 5 100 lone_segment = Ok (tt, w') ∧
    self w' !! "z_ext" = Some (VArr ze) ∧
    self w' !! "z" = Some (VArr z) ∧
    nth 0 ze 0 = nth 0 z 0 - -1 * nth 0 [1; 1; 1] 0.
Proof.
  destruct (evolve_restores_upstream_ghost 2 lone_segment 5 100 (-1)
              [1; 1; 1] [] [])
    as (w' & ze & z & Hrun & Hze & Hz & _ & _ & _ & _ & Hg).
  - apply segment_configured. right. by eexists.
  - segment_lookup.
  - segment_lookup.
  - segment_lookup.
  - segment_lookup.
  - lia.
  - exists w', ze, z. split; [exact Hrun|]. split; [exact Hze|].
    split; [exact Hz|exact Hg].
Defined.

(** X26, at a concrete segment inside a network: nt = 0. *)
Lemma evolve_without_steps_witness :
  ∃ w',
    evolve_threshold_width_river 0 100 network_segment = Ok (tt, w') ∧
    trace w' = [Warn unset_boundary_warning] ∧
    has_arr (self w') "C0" 2.
Proof.
  destruct (evolve_without_steps 2 network_segment 0 100 [7%Z] [9%Z])
    as (w' & ze & z_bl & Hrun & _ & Htr & _ & _ & _ & _ & _ & _ & _ & HC0).
  - apply segment_configured. left. by split.
  - segment_lookup.
  - segment_lookup.
  - lia.
  - exists w'. split; [exact Hrun|]. split; [exact Htr|exact HC0].
Defined.

(** X27, at a concrete segment. *)
Lemma evolve_leaves_configuration_witness :
  ∃ w',
    evolve_threshold_width_river 5 100 lone_segment = Ok (tt, w') ∧
    self w' !! "Q" = Some (VArr [10; 10]) ∧
    self w' !! "S0" = Some (VNum (-1)).
Proof.
  destruct (evolve_leaves_configuration 2 lone_segment 5 100 [] [])
    as (w' & Hrun & _ & Hkeep & _).
  - apply segment_configured. right. by eexists.
  - segment_lookup.
  - segment_lookup.
  - exists w'. split; [exact Hrun|].
    rewrite !Hkeep by list_decide. split; segment_lookup.
Defined.

